(** * XMLA connection pool, query executor and metadata extractor

    A shallow embedding of three services of the repository:

    - [XMLAConnectionPoolService]  (xmla-connection-pool.service.js),
    - [XMLAQueryExecutorService]   (xmla-query-executor.service.js),
    - [MetadataExtractorService]   (metadata-extractor.service.js).

    JavaScript objects that the services hold ([this.connectionPool],
    [this.stats]) become fields of one explicit state, [World].  Everything
    the services obtain from outside (the system clock, the OAuth token
    model, the Power BI API, [Math.random]) is an oracle of the environment
    [Env], indexed by the number of calls made so far, so that a run is a
    total function of the environment.

    Numbers are integers ([Z], milliseconds for times) except where the
    source leaves the integers: the back-off delay is computed in binary64
    floating point, modelled by rationals that are rounded to the nearest
    double after every operation ([fl]).  Non-numeric values such as [NaN],
    the infinities and [Invalid Date] are outside the model.

    Strings are sequences of characters below 128 (ASCII text, [asciiText]):
    on these [toLowerCase], [toUpperCase] and [trim] are those of
    JavaScript.  A theorem that quantifies over the text of a message or of
    a query says so in a hypothesis. *)

From Stdlib Require Import ZArith QArith Qround Qpower Qminmax Lqa.
From Stdlib Require Import List String Ascii Bool Lia DecimalString Permutation.
Import ListNotations.

Open Scope Z_scope.
Open Scope string_scope.

(** ** JavaScript values and abrupt completions *)

(** Values that reach the services as parsed JSON.  [VObj] lists the own
    enumerable properties in enumeration order. *)
#[warnings="-register-all"]
Inductive value : Type :=
| VUndefined
| VNull
| VBool (b : bool)
| VNum (z : Z)
| VStr (s : string)
| VArr (items : list value)
| VObj (fields : list (string * value)).

(** The [response] property of an HTTP client error. *)
Record Response := { resp_status : option Z }.

(** An [Error] object: [message], and the [response] and [status] that an
    HTTP client attaches. *)
Record JsError := {
  message : option string;
  response : option Response;
  status : option Z
}.

(** What a [throw] (or a rejected promise) carries. *)
Inductive thrown : Type :=
| ThrownUndefined
| ThrownError (e : JsError).

Definition plainError (msg : string) : JsError :=
  {| message := Some msg; response := None; status := None |}.

Definition TypeError (msg : string) : thrown := ThrownError (plainError msg).
Definition ReferenceError (msg : string) : thrown := ThrownError (plainError msg).

(** The outcome of running a piece of code.  [Diverges] is produced only
    when a loop runs out of the fuel it was given. *)
Inductive completion (A : Type) : Type :=
| Returns (a : A)
| Throws (e : thrown)
| Diverges.
Arguments Returns {A} a.
Arguments Throws {A} e.
Arguments Diverges {A}.

(** How a promise of a collaborator settles. *)
Inductive settled (A : Type) : Type :=
| Fulfilled (a : A)
| Rejected (e : thrown).
Arguments Fulfilled {A} a.
Arguments Rejected {A} e.

(** ** Strings *)

(** The strings the model is about: text whose characters are all below
    128.  Above that, JavaScript's case mappings leave the ranges handled
    here (the Kelvin sign U+212A is mapped to [k]). *)
Fixpoint asciiText (s : string) : bool :=
  match s with
  | EmptyString => true
  | String c rest => (nat_of_ascii c <? 128)%nat && asciiText rest
  end.

(** The message of an error is ASCII text (or there is none). *)
Definition asciiMessage (e : JsError) : bool :=
  match message e with
  | Some m => asciiText m
  | None => true
  end.

Definition lower_ascii (c : ascii) : ascii :=
  let n := nat_of_ascii c in
  if (andb (65 <=? n)%nat (n <=? 90)%nat) then ascii_of_nat (n + 32) else c.

(** [s.toLowerCase()], for ASCII text *)
Fixpoint toLowerCase (s : string) : string :=
  match s with
  | EmptyString => EmptyString
  | String c rest => String (lower_ascii c) (toLowerCase rest)
  end.

(** [haystack.includes(needle)] *)
Fixpoint includes (haystack needle : string) : bool :=
  if prefix needle haystack then true
  else match haystack with
       | EmptyString => false
       | String _ rest => includes rest needle
       end.

Definition string_of_nat (n : nat) : string :=
  NilEmpty.string_of_uint (Nat.to_uint n).

(** ** Property access on values *)

Fixpoint assoc (k : string) (fields : list (string * value)) : option value :=
  match fields with
  | [] => None
  | (k', v) :: rest => if String.eqb k k' then Some v else assoc k rest
  end.

(** The element of [items] whose index prints as [k], if any. *)
Fixpoint at_index_from (i : nat) (k : string) (items : list value) : option value :=
  match items with
  | [] => None
  | v :: rest => if String.eqb k (string_of_nat i) then Some v
                 else at_index_from (S i) k rest
  end.

Fixpoint chars (s : string) : list value :=
  match s with
  | EmptyString => []
  | String c rest => VStr (String c EmptyString) :: chars rest
  end.

Definition or_undefined (o : option value) : value :=
  match o with Some v => v | None => VUndefined end.

(** [v[k]] (or [v.k]).  Reading a property of [null] or [undefined] throws
    a [TypeError]; the properties inherited from the prototypes are
    functions and are not among the names the services read. *)
Definition get_prop (v : value) (k : string) : completion value :=
  match v with
  | VUndefined =>
      Throws (TypeError ("Cannot read properties of undefined (reading '" ++ k ++ "')"))
  | VNull =>
      Throws (TypeError ("Cannot read properties of null (reading '" ++ k ++ "')"))
  | VBool _ | VNum _ => Returns VUndefined
  | VStr s =>
      if String.eqb k "length" then Returns (VNum (Z.of_nat (String.length s)))
      else Returns (or_undefined (at_index_from 0 k (chars s)))
  | VArr items =>
      if String.eqb k "length" then Returns (VNum (Z.of_nat (List.length items)))
      else Returns (or_undefined (at_index_from 0 k items))
  | VObj fields => Returns (or_undefined (assoc k fields))
  end.

(** [v?.k] *)
Definition get_opt (v : value) (k : string) : value :=
  match get_prop v k with
  | Returns r => r
  | _ => VUndefined
  end.

(** [v[0]] and [v?.[0]] *)
Definition get_first (v : value) : completion value := get_prop v "0".
Definition get_opt_first (v : value) : value := get_opt v "0".

(** ToBoolean *)
Definition truthy (v : value) : bool :=
  match v with
  | VUndefined | VNull => false
  | VBool b => b
  | VNum z => negb (z =? 0)%Z
  | VStr s => negb (String.eqb s "")
  | VArr _ | VObj _ => true
  end.

(** [a || b] *)
Definition js_or (a b : value) : value := if truthy a then a else b.

(** [Object.keys(v)] for a value that is not [null] or [undefined]. *)
Definition object_keys (v : value) : list string :=
  match v with
  | VObj fields => map fst fields
  | VArr items => map string_of_nat (seq 0 (List.length items))
  | VStr s => map string_of_nat (seq 0 (String.length s))
  | _ => []
  end.

(** [row[Object.keys(row)[i]]]: a missing key is [undefined], and
    [row[undefined]] reads the property named ["undefined"]. *)
Definition get_by_position (row : value) (i : nat) : completion value :=
  get_prop row (nth i (object_keys row) "undefined").

(** ** Configuration, state and environment *)

(** [this.config] of the connection pool. *)
Record PoolConfig := {
  maxPoolSize : Z;
  maxConnectionAge : Z;
  tokenExpiryBuffer : Z;
  cleanupInterval : Z
}.

(** The configuration the constructor installs when
    [XMLA_CONNECTION_POOL_SIZE] is not set. *)
Definition defaultPoolConfig : PoolConfig :=
  {| maxPoolSize := 10;
     maxConnectionAge := 30 * 60 * 1000;
     tokenExpiryBuffer := 5 * 60 * 1000;
     cleanupInterval := 5 * 60 * 1000 |}.

(** [this.retryConfig] of the query executor. *)
Record RetryConfig := {
  maxRetries : Z;
  baseDelay : Z;
  maxDelay : Z;
  timeout : Z
}.

Definition defaultRetryConfig : RetryConfig :=
  {| maxRetries := 3; baseDelay := 1000; maxDelay := 10000; timeout := 30000 |}.

Record ConnectionString := {
  cs_server : string;
  cs_database : string;
  cs_authentication : string;
  cs_token : string
}.

(** The connection object built by [createConnection]. *)
Record Connection := {
  workspaceId : string;
  tenantId : string;
  userId : string;
  accessToken : string;
  tokenExpiry : Z;
  endpoint : string;
  connectionString : ConnectionString;
  createdAt : Z;
  lastUsed : Z;
  usageCount : Z;
  isValid : bool
}.

(** [this.stats] of the connection pool. *)
Record PoolStats := {
  totalConnections : Z;
  activeConnections : Z;
  reuseCount : Z;
  expiryCount : Z;
  errorCount : Z
}.

(** [this.stats] of the query executor. *)
Record ExecStats := {
  totalQueries : Z;
  successfulQueries : Z;
  failedQueries : Z;
  retriedQueries : Z;
  totalExecutionTime : Z
}.

(** What the services do to the outside, in order. *)
Inductive Event : Type :=
| EvRemoteQuery (workspace dataset query : string)
| EvSleep (ms : Z)
| EvInvalidate (key : string)
| EvTokenRequest (user : string).

(** The row of the OAuth token table that [getValidToken] resolves to. *)
Record TokenData := { access_token : string; expires_at : Z }.

(** The mutable state of the two singletons, and how far each oracle of the
    environment has been consumed.  [connectionPool] is the [Map] of the
    pool: keys are unique and the list is in insertion order, which is the
    order [entries()] iterates in. *)
Record World := {
  connectionPool : list (string * Connection);
  poolStats : PoolStats;
  execStats : ExecStats;
  clockReads : nat;
  tokenCalls : nat;
  remoteCalls : nat;
  randomCalls : nat;
  trace : list Event
}.

(** The environment of a run. *)
Record Env := {
  poolConfig : PoolConfig;
  retryConfig : RetryConfig;
  (** the [k]-th reading of the system clock ([new Date()], [Date.now()]) *)
  clock : nat -> Z;
  (** how the [k]-th call of [OAuthTokenModel.getValidToken] settles *)
  tokenProvider : nat -> settled (option TokenData);
  (** how the [k]-th race between [powerbiAPI.executeDAXQuery] and the
      timeout settles *)
  remote : nat -> settled value;
  (** the [k]-th result of [Math.random()], a double in [[0, 1)] *)
  random : nat -> Q;
  (** what the identifier [tenantId] resolves to in the global scope of the
      executor's module ([None]: unresolvable) *)
  globalTenantId : option string;
  (** [v > 0] for a string, array or object [v] ([None]: the conversion to
      a primitive throws) *)
  coercedPositive : value -> option bool
}.

(** ** The monad of service code *)

Definition M (A : Type) : Type := World -> completion A * World.

Definition ret {A} (a : A) : M A := fun w => (Returns a, w).

Definition bind {A B} (c : M A) (k : A -> M B) : M B :=
  fun w => match c w with
           | (Returns a, w') => k a w'
           | (Throws e, w') => (Throws e, w')
           | (Diverges, w') => (Diverges, w')
           end.

Definition throw {A} (e : thrown) : M A := fun w => (Throws e, w).

Definition diverge {A} : M A := fun w => (Diverges, w).

(** [try { body } catch (error) { handler }] *)
Definition try_catch {A} (body : M A) (handler : thrown -> M A) : M A :=
  fun w => match body w with
           | (Throws e, w') => handler e w'
           | r => r
           end.

Definition lift {A} (c : completion A) : M A := fun w => (c, w).

Definition modify (f : World -> World) : M unit := fun w => (Returns tt, f w).

Definition gets {A} (f : World -> A) : M A := fun w => (Returns (f w), w).

Declare Scope svc_scope.
Delimit Scope svc_scope with svc.
Notation "x <- c ;; k" := (bind c (fun x => k))
  (at level 61, c at next level, right associativity) : svc_scope.
Notation "c ;;; k" := (bind c (fun _ => k))
  (at level 61, right associativity) : svc_scope.
Open Scope svc_scope.

(** Sequencing of code that touches no service state. *)
Definition cbind {A B} (c : completion A) (k : A -> completion B) : completion B :=
  match c with
  | Returns a => k a
  | Throws e => Throws e
  | Diverges => Diverges
  end.

Definition ccatch {A} (body : completion A) (handler : thrown -> completion A)
  : completion A :=
  match body with
  | Throws e => handler e
  | r => r
  end.

Notation "x <~ c ;; k" := (cbind c (fun x => k))
  (at level 61, c at next level, right associativity) : svc_scope.

(** [error.message]: a [TypeError] when the caught value is [undefined]. *)
Definition error_message (e : thrown) : completion (option string) :=
  match e with
  | ThrownUndefined =>
      Throws (TypeError "Cannot read properties of undefined (reading 'message')")
  | ThrownError err => Returns (message err)
  end.

(** A logger call whose argument reads [error.message]. *)
Definition log_error_message (e : thrown) : M unit :=
  _ <- lift (error_message e) ;; ret tt.

Definition emit (ev : Event) : M unit :=
  modify (fun w =>
    {| connectionPool := connectionPool w; poolStats := poolStats w;
       execStats := execStats w; clockReads := clockReads w;
       tokenCalls := tokenCalls w; remoteCalls := remoteCalls w;
       randomCalls := randomCalls w; trace := (trace w ++ [ev])%list |}).

Definition set_pool (p : list (string * Connection)) : M unit :=
  modify (fun w =>
    {| connectionPool := p; poolStats := poolStats w;
       execStats := execStats w; clockReads := clockReads w;
       tokenCalls := tokenCalls w; remoteCalls := remoteCalls w;
       randomCalls := randomCalls w; trace := trace w |}).

Definition set_poolStats (f : PoolStats -> PoolStats) : M unit :=
  modify (fun w =>
    {| connectionPool := connectionPool w; poolStats := f (poolStats w);
       execStats := execStats w; clockReads := clockReads w;
       tokenCalls := tokenCalls w; remoteCalls := remoteCalls w;
       randomCalls := randomCalls w; trace := trace w |}).

Definition set_execStats (f : ExecStats -> ExecStats) : M unit :=
  modify (fun w =>
    {| connectionPool := connectionPool w; poolStats := poolStats w;
       execStats := f (execStats w); clockReads := clockReads w;
       tokenCalls := tokenCalls w; remoteCalls := remoteCalls w;
       randomCalls := randomCalls w; trace := trace w |}).

Definition await {A} (s : settled A) : M A :=
  match s with
  | Fulfilled a => ret a
  | Rejected e => throw e
  end.

(** ** The [Map] of the pool *)

Definition PoolMap := list (string * Connection).

Fixpoint map_has (m : PoolMap) (k : string) : bool :=
  match m with
  | [] => false
  | (k', _) :: rest => if String.eqb k k' then true else map_has rest k
  end.

Fixpoint map_get (m : PoolMap) (k : string) : option Connection :=
  match m with
  | [] => None
  | (k', c) :: rest => if String.eqb k k' then Some c else map_get rest k
  end.

(** [m.set(k, c)]: an existing key keeps its place, a new key goes last. *)
Fixpoint map_set (m : PoolMap) (k : string) (c : Connection) : PoolMap :=
  match m with
  | [] => [(k, c)]
  | (k', c') :: rest =>
      if String.eqb k k' then (k', c) :: rest else (k', c') :: map_set rest k c
  end.

Fixpoint map_delete (m : PoolMap) (k : string) : PoolMap :=
  match m with
  | [] => []
  | (k', c') :: rest =>
      if String.eqb k k' then rest else (k', c') :: map_delete rest k
  end.

Definition map_size (m : PoolMap) : Z := Z.of_nat (List.length m).

(** ** The connection pool service *)

Section ConnectionPool.

Variable env : Env.

(** [new Date()] and [Date.now()]: the next reading of the clock. *)
Definition now : M Z :=
  fun w =>
    (Returns (clock env (clockReads w)),
     {| connectionPool := connectionPool w; poolStats := poolStats w;
        execStats := execStats w; clockReads := S (clockReads w);
        tokenCalls := tokenCalls w; remoteCalls := remoteCalls w;
        randomCalls := randomCalls w; trace := trace w |}).

(** [OAuthTokenModel.getValidToken(userId, 'powerbi')] *)
Definition getValidToken (userId : string) : M (option TokenData) :=
  fun w =>
    await (tokenProvider env (tokenCalls w))
      {| connectionPool := connectionPool w; poolStats := poolStats w;
         execStats := execStats w; clockReads := clockReads w;
         tokenCalls := S (tokenCalls w); remoteCalls := remoteCalls w;
         randomCalls := randomCalls w;
         trace := (trace w ++ [EvTokenRequest userId])%list |}.

Definition getConnectionKey (tenantId workspaceId userId : string) : string :=
  tenantId ++ ":" ++ workspaceId ++ ":" ++ userId.

Definition buildXMLAEndpoint (workspaceId : string) : string :=
  "powerbi://api.powerbi.com/v1.0/myorg/" ++ workspaceId.

Definition buildConnectionString (workspaceId accessToken : string) : ConnectionString :=
  {| cs_server := "powerbi://api.powerbi.com/v1.0/myorg/" ++ workspaceId;
     cs_database := workspaceId;
     cs_authentication := "Bearer Token";
     cs_token := accessToken |}.

Definition isConnectionValid (connection : Connection) : M bool :=
  now_ <- now ;;
  let timeUntilExpiry := tokenExpiry connection - now_ in
  if (timeUntilExpiry <? tokenExpiryBuffer (poolConfig env))%Z then ret false
  else
    let connectionAge := now_ - createdAt connection in
    if (connectionAge >? maxConnectionAge (poolConfig env))%Z then ret false
    else if negb (isValid connection) then ret false
    else ret true.

Definition createConnection (userId tenantId workspaceId : string) : M Connection :=
  try_catch
    (tokenData <- getValidToken userId ;;
     match tokenData with
     | None =>
         throw (ThrownError (plainError
           "No valid Power BI token found. Please reconnect your Power BI account."))
     | Some td =>
         created <- now ;;
         used <- now ;;
         ret (Build_Connection workspaceId tenantId userId
                (access_token td) (expires_at td)
                (buildXMLAEndpoint workspaceId)
                (buildConnectionString workspaceId (access_token td))
                created used 0 true)
     end)
    (fun error => log_error_message error ;;; throw error).

(** One step of the scan of [findOldestConnection]. *)
Definition older (acc : option string * Z) (entry : string * Connection)
  : option string * Z :=
  let lastUsedTime := lastUsed (snd entry) in
  if (lastUsedTime <? snd acc)%Z then (Some (fst entry), lastUsedTime) else acc.

Definition findOldestConnection : M (option string) :=
  oldestTime <- now ;;
  pool <- gets connectionPool ;;
  ret (fst (fold_left older pool (None, oldestTime))).

Definition touch (t : Z) (c : Connection) : Connection :=
  Build_Connection (workspaceId c) (tenantId c) (userId c) (accessToken c)
    (tokenExpiry c) (endpoint c) (connectionString c) (createdAt c)
    t (usageCount c + 1) (isValid c).

Definition setInvalid (c : Connection) : Connection :=
  Build_Connection (workspaceId c) (tenantId c) (userId c) (accessToken c)
    (tokenExpiry c) (endpoint c) (connectionString c) (createdAt c)
    (lastUsed c) (usageCount c) false.

Definition poolSet (k : string) (c : Connection) : M unit :=
  pool <- gets connectionPool ;; set_pool (map_set pool k c).

Definition poolDelete (k : string) : M unit :=
  pool <- gets connectionPool ;; set_pool (map_delete pool k).

Definition incr_reuseCount (s : PoolStats) : PoolStats :=
  Build_PoolStats (totalConnections s) (activeConnections s)
    (reuseCount s + 1) (expiryCount s) (errorCount s).
Definition incr_expiryCount (s : PoolStats) : PoolStats :=
  Build_PoolStats (totalConnections s) (activeConnections s)
    (reuseCount s) (expiryCount s + 1) (errorCount s).
Definition incr_errorCount (s : PoolStats) : PoolStats :=
  Build_PoolStats (totalConnections s) (activeConnections s)
    (reuseCount s) (expiryCount s) (errorCount s + 1).
Definition incr_totalConnections (s : PoolStats) : PoolStats :=
  Build_PoolStats (totalConnections s + 1) (activeConnections s)
    (reuseCount s) (expiryCount s) (errorCount s).
Definition set_activeConnections (n : Z) (s : PoolStats) : PoolStats :=
  Build_PoolStats (totalConnections s) n
    (reuseCount s) (expiryCount s) (errorCount s).

(** The part of [getConnection] after the lookup: create, make room, insert. *)
Definition createAndInsert (connectionKey userId tenantId workspaceId : string)
  : M Connection :=
  connection <- createConnection userId tenantId workspaceId ;;
  pool <- gets connectionPool ;;
  (if (map_size pool <? maxPoolSize (poolConfig env))%Z
   then poolSet connectionKey connection
   else
     oldestKey <- findOldestConnection ;;
     match oldestKey with
     | Some key =>
         (if negb (String.eqb key "") then poolDelete key else ret tt) ;;;
         poolSet connectionKey connection
     | None => poolSet connectionKey connection
     end) ;;;
  set_poolStats incr_totalConnections ;;;
  pool' <- gets connectionPool ;;
  set_poolStats (set_activeConnections (map_size pool')) ;;;
  ret connection.

Definition getConnection (userId tenantId workspaceId : string) : M Connection :=
  let connectionKey := getConnectionKey tenantId workspaceId userId in
  try_catch
    (pool <- gets connectionPool ;;
     match (if map_has pool connectionKey then map_get pool connectionKey else None) with
     | Some connection =>
         valid <- isConnectionValid connection ;;
         if valid then
           set_poolStats incr_reuseCount ;;;
           t <- now ;;
           let connection' := touch t connection in
           poolSet connectionKey connection' ;;;
           ret connection'
         else
           poolDelete connectionKey ;;;
           set_poolStats incr_expiryCount ;;;
           createAndInsert connectionKey userId tenantId workspaceId
     | None => createAndInsert connectionKey userId tenantId workspaceId
     end)
    (fun error =>
       set_poolStats incr_errorCount ;;;
       log_error_message error ;;;
       throw error).

Definition invalidateConnection (userId tenantId workspaceId : string) : M unit :=
  let connectionKey := getConnectionKey tenantId workspaceId userId in
  emit (EvInvalidate connectionKey) ;;;
  pool <- gets connectionPool ;;
  if map_has pool connectionKey then
    match map_get pool connectionKey with
    | Some connection => poolSet connectionKey (setInvalid connection)
    | None => ret tt
    end
  else ret tt.

Definition removeConnection (userId tenantId workspaceId : string) : M bool :=
  let connectionKey := getConnectionKey tenantId workspaceId userId in
  pool <- gets connectionPool ;;
  if map_has pool connectionKey then
    poolDelete connectionKey ;;;
    pool' <- gets connectionPool ;;
    set_poolStats (set_activeConnections (map_size pool')) ;;;
    ret true
  else ret false.

End ConnectionPool.

(** ** Binary64 arithmetic *)

(** A finite double is the rational it denotes.  An arithmetic operation
    of the source is the exact operation followed by [fl], the rounding to
    the nearest double, ties to even, with gradual underflow.  Overflow to
    an infinity is outside the model: [fl] keeps 53 significant bits of a
    number however large. *)

(** [a / d] rounded to the nearest integer, ties to even; [0 <= a], [0 < d]. *)
Definition roundHalfEven (a d : Z) : Z :=
  let q := a / d in
  let r := a mod d in
  if (2 * r <? d)%Z then q
  else if (d <? 2 * r)%Z then q + 1
  else if Z.even q then q else q + 1.

(** [2^e <= n / d], for [0 < d]. *)
Definition pow2_le (e n d : Z) : bool :=
  if (0 <=? e)%Z then (d * 2 ^ e <=? n)%Z else (d <=? n * 2 ^ (- e))%Z.

(** The exponent [e] with [2^e <= n / d < 2^(e+1)], for [0 < n] and [0 < d]. *)
Definition binade (n d : Z) : Z :=
  let e0 := Z.log2 n - Z.log2 d in
  if pow2_le e0 n d then e0 else e0 - 1.

(** The double nearest to [n / d], for [0 < n] and [0 < d]: a multiple of
    [2^(e - 52)] for the binade [e] of [n / d], or of [2^(-1074)] below the
    normal range. *)
Definition roundPositive (n d : Z) : Q :=
  let e := Z.max (binade n d) (-1022) in
  let t := 52 - e in
  if (0 <=? t)%Z
  then Qmake (roundHalfEven (n * 2 ^ t) d) (Z.to_pos (2 ^ t))
  else inject_Z (roundHalfEven n (d * 2 ^ (- t)) * 2 ^ (- t)).

(** Rounding to binary64, to nearest, ties to even. *)
Definition fl (x : Q) : Q :=
  match Qnum x with
  | Z0 => 0%Q
  | Zpos n => roundPositive (Zpos n) (Zpos (Qden x))
  | Zneg n => Qopp (roundPositive (Zpos n) (Zpos (Qden x)))
  end.

(** [a * b] and [a + b] on doubles *)
Definition fmul (a b : Q) : Q := fl (a * b).
Definition fadd (a b : Q) : Q := fl (a + b).

(** [Math.pow(2, k)] *)
Definition Math_pow2 (k : Z) : Q := fl (Qpower 2 k).

(** ** The query executor service *)

(** The object [executeDAXQuery] resolves to.  [q_results] is [undefined]
    and [q_rowCount] absent on failure; [q_error] is [error.message]. *)
Record QueryOutcome := {
  success : bool;
  q_query : string;
  q_results : value;
  q_error : option string;
  executionTimeMs : Z;
  q_workspaceId : option string;
  q_datasetId : option string;
  q_rowCount : option value
}.

(** How one turn of the retry loop ends. *)
Inductive LoopExit : Type :=
| ReturnResult (result : value)
| Break (lastError : thrown)
| NextAttempt (lastError : thrown).

Section QueryExecutor.

Variable env : Env.

(** [v > 0] *)
Definition js_gt_zero (v : value) : completion bool :=
  match v with
  | VUndefined | VNull => Returns false
  | VBool b => Returns b
  | VNum z => Returns (0 <? z)%Z
  | VStr _ | VArr _ | VObj _ =>
      match coercedPositive env v with
      | Some b => Returns b
      | None => Throws (TypeError "Cannot convert object to primitive value")
      end
  end.

Definition extractRowCount (result : value) : completion value :=
  ccatch
    (if truthy result then
       results <~ get_prop result "results" ;;
       if truthy results then
         n <~ get_prop results "length" ;;
         nonEmpty <~ js_gt_zero n ;;
         if (nonEmpty : bool) then
           firstResult <~ get_first results ;;
           tables <~ get_prop firstResult "tables" ;;
           if truthy tables then
             m <~ get_prop tables "length" ;;
             hasTable <~ js_gt_zero m ;;
             if (hasTable : bool) then
               table <~ get_first tables ;;
               rows <~ get_prop table "rows" ;;
               if truthy rows then get_prop rows "length" else Returns (VNum 0)
             else Returns (VNum 0)
           else Returns (VNum 0)
         else Returns (VNum 0)
       else Returns (VNum 0)
     else Returns (VNum 0))
    (fun error => _ <~ error_message error ;; Returns (VNum 0)).

(** [error.response?.status || error.status] *)
Definition errorStatus (e : JsError) : option Z :=
  match response e with
  | Some r =>
      match resp_status r with
      | Some s => if (s =? 0)%Z then status e else Some s
      | None => status e
      end
  | None => status e
  end.

Definition status_ge (s : option Z) (n : Z) : bool :=
  match s with Some z => (n <=? z)%Z | None => false end.

Definition status_is (s : option Z) (n : Z) : bool :=
  match s with Some z => (z =? n)%Z | None => false end.

(** [error.message?.toLowerCase() || ''], for a message that is ASCII
    text ([asciiMessage]) *)
Definition lowerMessage (e : JsError) : string :=
  match message e with
  | Some m => toLowerCase m
  | None => ""
  end.

Definition isRetryableError (error : thrown) : completion bool :=
  match error with
  | ThrownUndefined =>
      Throws (TypeError "Cannot read properties of undefined (reading 'response')")
  | ThrownError e =>
      match response e with
      | None => Returns true
      | Some _ =>
          let status := errorStatus e in
          if status_ge status 500 then Returns true
          else if status_is status 429 then Returns true
          else if status_is status 408 then Returns true
          else if status_is status 503 then Returns true
          else
            let errorMessage := lowerMessage e in
            if includes errorMessage "timeout"
               || includes errorMessage "temporarily unavailable"
               || includes errorMessage "capacity limit"
            then Returns true
            else Returns false
      end
  end.

Definition shouldInvalidateConnection (error : thrown) : completion bool :=
  match error with
  | ThrownUndefined =>
      Throws (TypeError "Cannot read properties of undefined (reading 'response')")
  | ThrownError e =>
      let status := errorStatus e in
      if status_is status 401 || status_is status 403 then Returns true
      else
        let errorMessage := lowerMessage e in
        if includes errorMessage "token"
           || includes errorMessage "authentication"
           || includes errorMessage "authorization"
        then Returns true
        else Returns false
  end.

(** [Math.random()] *)
Definition mathRandom : M Q :=
  fun w =>
    (Returns (random env (randomCalls w)),
     {| connectionPool := connectionPool w; poolStats := poolStats w;
        execStats := execStats w; clockReads := clockReads w;
        tokenCalls := tokenCalls w; remoteCalls := remoteCalls w;
        randomCalls := S (randomCalls w); trace := trace w |}).

(** The delay before the jitter:
    [Math.min(baseDelay * Math.pow(2, attempt - 1), maxDelay)].  Where the
    power overflows in the source, the minimum is [maxDelay] there as it is
    here, for a positive [baseDelay]. *)
Definition cappedDelay (attempt : Z) : Q :=
  Qmin (fmul (inject_Z (baseDelay (retryConfig env))) (Math_pow2 (attempt - 1)))
       (inject_Z (maxDelay (retryConfig env))).

(** [jitter = delay * 0.2 * Math.random()], then
    [Math.floor(delay + jitter)]; [0.2] is the double [fl (2 # 10)]. *)
Definition calculateBackoffDelay (attempt : Z) : M Z :=
  let delay := cappedDelay attempt in
  r <- mathRandom ;;
  let jitter := fmul (fmul delay (fl (2 # 10))) r in
  ret (Qfloor (fadd delay jitter)).

Definition sleep (ms : Z) : M unit := emit (EvSleep ms).

(** [await Promise.race([queryPromise, timeoutPromise])]: the next answer
    of the remote service, or the timeout if that comes first. *)
Definition raceWithTimeout (workspaceId datasetId daxQuery : string) : M value :=
  fun w =>
    await (remote env (remoteCalls w))
      {| connectionPool := connectionPool w; poolStats := poolStats w;
         execStats := execStats w; clockReads := clockReads w;
         tokenCalls := tokenCalls w; remoteCalls := S (remoteCalls w);
         randomCalls := randomCalls w;
         trace := (trace w ++ [EvRemoteQuery workspaceId datasetId daxQuery])%list |}.

(** The [catch] of [executeSingleQuery] logs and rethrows. *)
Definition executeSingleQuery (userId workspaceId datasetId daxQuery : string)
  : M value :=
  try_catch
    (raceWithTimeout workspaceId datasetId daxQuery)
    (fun error => throw error).

Definition incr_retriedQueries (s : ExecStats) : ExecStats :=
  Build_ExecStats (totalQueries s) (successfulQueries s) (failedQueries s)
    (retriedQueries s + 1) (totalExecutionTime s).
Definition incr_totalQueries (s : ExecStats) : ExecStats :=
  Build_ExecStats (totalQueries s + 1) (successfulQueries s) (failedQueries s)
    (retriedQueries s) (totalExecutionTime s).
Definition incr_successfulQueries (s : ExecStats) : ExecStats :=
  Build_ExecStats (totalQueries s) (successfulQueries s + 1) (failedQueries s)
    (retriedQueries s) (totalExecutionTime s).
Definition incr_failedQueries (s : ExecStats) : ExecStats :=
  Build_ExecStats (totalQueries s) (successfulQueries s) (failedQueries s + 1)
    (retriedQueries s) (totalExecutionTime s).
Definition add_totalExecutionTime (t : Z) (s : ExecStats) : ExecStats :=
  Build_ExecStats (totalQueries s) (successfulQueries s) (failedQueries s)
    (retriedQueries s) (totalExecutionTime s + t).

(** The call at line 144: its second argument is the identifier [tenantId],
    which [executeWithRetry] neither receives nor declares. *)
Definition invalidateWithFreeTenantId (userId workspaceId : string) : M unit :=
  match globalTenantId env with
  | None => throw (ReferenceError "tenantId is not defined")
  | Some tenantId => invalidateConnection userId tenantId workspaceId
  end.

(** The body of the [while] loop of [executeWithRetry], for the attempt
    number already incremented. *)
Definition attemptQuery (userId workspaceId datasetId daxQuery : string)
  (attempt : Z) : M LoopExit :=
  try_catch
    (result <- executeSingleQuery userId workspaceId datasetId daxQuery ;;
     (if (attempt >? 1)%Z then set_execStats incr_retriedQueries else ret tt) ;;;
     ret (ReturnResult result))
    (fun error =>
       isRetryable <- lift (isRetryableError error) ;;
       if negb isRetryable then ret (Break error)
       else if (attempt >=? maxRetries (retryConfig env))%Z then ret (Break error)
       else
         delay <- calculateBackoffDelay attempt ;;
         sleep delay ;;;
         invalidate <- lift (shouldInvalidateConnection error) ;;
         (if (invalidate : bool)
          then invalidateWithFreeTenantId userId workspaceId
          else ret tt) ;;;
         ret (NextAttempt error)).

Fixpoint retryLoop (fuel : nat) (userId workspaceId datasetId daxQuery : string)
  (attempt : Z) (lastError : thrown) : M value :=
  if (attempt <? maxRetries (retryConfig env))%Z then
    match fuel with
    | O => diverge
    | S fuel' =>
        let attempt := attempt + 1 in
        exit <- attemptQuery userId workspaceId datasetId daxQuery attempt ;;
        match exit with
        | ReturnResult result => ret result
        | Break lastError => throw lastError
        | NextAttempt lastError =>
            retryLoop fuel' userId workspaceId datasetId daxQuery attempt lastError
        end
    end
  else throw lastError.

Definition executeWithRetry (userId workspaceId datasetId daxQuery : string)
  (connection : Connection) : M value :=
  retryLoop (Z.to_nat (maxRetries (retryConfig env)))
    userId workspaceId datasetId daxQuery 0 ThrownUndefined.

(** The [try] and [catch] of [executeDAXQuery], entered at [startTime]. *)
Definition executeDAXQuery_try (startTime : Z)
  (userId tenantId workspaceId datasetId daxQuery : string) : M QueryOutcome :=
  try_catch
    (connection <- getConnection env userId tenantId workspaceId ;;
     result <- executeWithRetry userId workspaceId datasetId daxQuery connection ;;
     t <- now env ;;
     let executionTime := t - startTime in
     set_execStats incr_successfulQueries ;;;
     set_execStats (add_totalExecutionTime executionTime) ;;;
     rowCount <- lift (extractRowCount result) ;;
     ret {| success := true; q_query := daxQuery; q_results := result;
            q_error := None; executionTimeMs := executionTime;
            q_workspaceId := Some workspaceId; q_datasetId := Some datasetId;
            q_rowCount := Some rowCount |})
    (fun error =>
       t <- now env ;;
       let executionTime := t - startTime in
       set_execStats incr_failedQueries ;;;
       msg <- lift (error_message error) ;;
       ret {| success := false; q_query := daxQuery; q_results := VUndefined;
              q_error := msg; executionTimeMs := executionTime;
              q_workspaceId := None; q_datasetId := None;
              q_rowCount := None |}).

Definition executeDAXQuery (userId tenantId workspaceId datasetId daxQuery : string)
  : M QueryOutcome :=
  startTime <- now env ;;
  set_execStats incr_totalQueries ;;;
  executeDAXQuery_try startTime userId tenantId workspaceId datasetId daxQuery.

Definition resetStats : M unit :=
  set_execStats (fun _ => Build_ExecStats 0 0 0 0 0).

End QueryExecutor.

(** ** The metadata extractor service *)

(** The four discovery queries, named by the schema function they select
    from. *)
Inductive DiscoveryQuery : Type :=
| INFORMATION_SCHEMA_TABLES
| INFORMATION_SCHEMA_COLUMNS
| INFORMATION_SCHEMA_MEASURES
| INFORMATION_SCHEMA_RELATIONSHIPS.

(** The requests an extraction sends. *)
Inductive Call : Type :=
| CallDAX (q : DiscoveryQuery)
| CallREST (path : string).

(** The row of the [datasets] table. *)
Record Dataset := {
  dataset_id : string;
  powerbi_dataset_id : string;
  dataset_name : string;
  powerbi_workspace_id : string
}.

(** What the extractor obtains from its collaborators: the query executor,
    the REST client, the dataset model, the database and the clock.  The
    four extractions run concurrently; each request is answered by what it
    asks, so the answers do not depend on the interleaving. *)
Record Collaborators := {
  query_executor : DiscoveryQuery -> settled QueryOutcome;
  makeRequest : string -> settled value;
  findByPowerBIId : settled (option Dataset);
  database_query : settled unit;
  reading : nat -> Z
}.

Record ExtractionMethods := {
  em_tables : bool;
  em_measures : bool;
  em_relationships : bool;
  em_columns : bool
}.

Record Metadata := {
  md_datasetId : string;
  md_datasetName : string;
  md_workspaceId : string;
  md_tables : list value;
  md_measures : list value;
  md_relationships : list value;
  md_columns : list value;
  extractedAt : Z;
  extractionTimeMs : Z;
  extractionMethods : ExtractionMethods
}.

(** Code that logs the requests it sends. *)
Definition T (A : Type) : Type := list Call * completion A.

Definition tret {A} (a : A) : T A := ([], Returns a).

Definition tbind {A B} (c : T A) (k : A -> T B) : T B :=
  match c with
  | (log, Returns a) => let (log', r) := k a in ((log ++ log')%list, r)
  | (log, Throws e) => (log, Throws e)
  | (log, Diverges) => (log, Diverges)
  end.

Definition tcatch {A} (body : T A) (handler : thrown -> T A) : T A :=
  match body with
  | (log, Throws e) => let (log', r) := handler e in ((log ++ log')%list, r)
  | r => r
  end.

Definition tlift {A} (c : completion A) : T A := ([], c).

Definition request {A} (call : Call) (answer : settled A) : T A :=
  ([call], match answer with Fulfilled a => Returns a | Rejected e => Throws e end).

Notation "x <-- c ;; k" := (tbind c (fun x => k))
  (at level 61, c at next level, right associativity) : svc_scope.

Fixpoint cmap {A B} (f : A -> completion B) (l : list A) : completion (list B) :=
  match l with
  | [] => Returns []
  | a :: rest => b <~ f a ;; bs <~ cmap f rest ;; Returns (b :: bs)
  end.

(** [v.map(f)]: only an array has the method. *)
Definition array_map (v : value) (f : value -> completion value)
  : completion (list value) :=
  match v with
  | VArr items => cmap f items
  | VUndefined =>
      Throws (TypeError "Cannot read properties of undefined (reading 'map')")
  | VNull => Throws (TypeError "Cannot read properties of null (reading 'map')")
  | _ => Throws (TypeError "map is not a function")
  end.

(** [row[k] || d] *)
Definition named_or_default (row : value) (k : string) (d : value)
  : completion value :=
  v <~ get_prop row k ;; Returns (js_or v d).

(** [row[k] || row[Object.keys(row)[i]]] *)
Definition named_or_position (row : value) (k : string) (i : nat)
  : completion value :=
  v <~ get_prop row k ;;
  if truthy v then Returns v else get_by_position row i.

(** [result.results?.results?.[0]?.tables?.[0]?.rows] *)
Definition resultRows (result : QueryOutcome) : value :=
  get_opt (get_opt_first (get_opt (get_opt_first
    (get_opt (q_results result) "results")) "tables")) "rows".

Section MetadataExtractor.

Variable svc : Collaborators.

Definition tableOfRow (row : value) : completion value :=
  name <~ named_or_position row "TableName" 0 ;;
  type <~ named_or_default row "TableType" (VStr "TABLE") ;;
  description <~ named_or_default row "Description" (VStr "") ;;
  Returns (VObj [("name", name); ("type", type);
                 ("description", description); ("columnCount", VNum 0)]).

Definition columnOfRestTable (col : value) : completion value :=
  name <~ get_prop col "name" ;;
  dataType <~ get_prop col "dataType" ;;
  isHidden <~ named_or_default col "isHidden" (VBool false) ;;
  Returns (VObj [("name", name); ("dataType", dataType); ("isHidden", isHidden)]).

Definition tableOfRest (table : value) : completion value :=
  name <~ get_prop table "name" ;;
  description <~ named_or_default table "description" (VStr "") ;;
  cols <~ get_prop table "columns" ;;
  let columnCount := js_or (get_opt cols "length") (VNum 0) in
  columns <~ match cols with
             | VUndefined | VNull => Returns []
             | _ => array_map cols columnOfRestTable
             end ;;
  Returns (VObj [("name", name); ("type", VStr "TABLE");
                 ("description", description); ("columnCount", columnCount);
                 ("columns", VArr columns)]).

Definition extractTablesViaREST (userId workspaceId datasetId : string)
  : T (list value) :=
  tcatch
    (response <-- request
       (CallREST ("/groups/" ++ workspaceId ++ "/datasets/" ++ datasetId ++ "/tables"))
       (makeRequest svc
          ("/groups/" ++ workspaceId ++ "/datasets/" ++ datasetId ++ "/tables")) ;;
     let v := get_opt response "value" in
     if truthy v then tlift (array_map v tableOfRest) else tret [])
    (fun error => _ <-- tlift (error_message error) ;; tret []).

Definition extractTables (userId tenantId workspaceId datasetId : string)
  : T (list value) :=
  tcatch
    (result <-- request (CallDAX INFORMATION_SCHEMA_TABLES)
                  (query_executor svc INFORMATION_SCHEMA_TABLES) ;;
     if success result && truthy (resultRows result)
     then tlift (array_map (resultRows result) tableOfRow)
     else extractTablesViaREST userId workspaceId datasetId)
    (fun error => _ <-- tlift (error_message error) ;; tret []).

Definition columnOfRow (row : value) : completion value :=
  tableName <~ named_or_position row "TableName" 0 ;;
  name <~ named_or_position row "ColumnName" 1 ;;
  dataType <~ named_or_default row "DataType" (VStr "Unknown") ;;
  description <~ named_or_default row "Description" (VStr "") ;;
  isHidden <~ named_or_default row "IsHidden" (VBool false) ;;
  Returns (VObj [("tableName", tableName); ("name", name);
                 ("dataType", dataType); ("description", description);
                 ("isHidden", isHidden)]).

Definition extractColumns (userId tenantId workspaceId datasetId : string)
  : T (list value) :=
  tcatch
    (result <-- request (CallDAX INFORMATION_SCHEMA_COLUMNS)
                  (query_executor svc INFORMATION_SCHEMA_COLUMNS) ;;
     if success result && truthy (resultRows result)
     then tlift (array_map (resultRows result) columnOfRow)
     else tret [])
    (fun error => _ <-- tlift (error_message error) ;; tret []).

Definition measureOfRow (row : value) : completion value :=
  name <~ named_or_position row "MeasureName" 0 ;;
  tableName <~ named_or_default row "TableName" (VStr "") ;;
  expression <~ named_or_default row "Expression" (VStr "") ;;
  description <~ named_or_default row "Description" (VStr "") ;;
  dataType <~ named_or_default row "DataType" (VStr "Variant") ;;
  Returns (VObj [("name", name); ("tableName", tableName);
                 ("expression", expression); ("description", description);
                 ("dataType", dataType)]).

Definition measureOfRest (measure : value) : completion value :=
  name <~ get_prop measure "name" ;;
  tableName <~ named_or_default measure "tableName" (VStr "") ;;
  expression <~ named_or_default measure "expression" (VStr "") ;;
  description <~ named_or_default measure "description" (VStr "") ;;
  Returns (VObj [("name", name); ("tableName", tableName);
                 ("expression", expression); ("description", description);
                 ("dataType", VStr "Variant")]).

Definition extractMeasuresViaREST (userId workspaceId datasetId : string)
  : T (list value) :=
  tcatch
    (response <-- request
       (CallREST ("/groups/" ++ workspaceId ++ "/datasets/" ++ datasetId ++ "/measures"))
       (makeRequest svc
          ("/groups/" ++ workspaceId ++ "/datasets/" ++ datasetId ++ "/measures")) ;;
     let v := get_opt response "value" in
     if truthy v then tlift (array_map v measureOfRest) else tret [])
    (fun error => _ <-- tlift (error_message error) ;; tret []).

Definition extractMeasures (userId tenantId workspaceId datasetId : string)
  : T (list value) :=
  tcatch
    (result <-- request (CallDAX INFORMATION_SCHEMA_MEASURES)
                  (query_executor svc INFORMATION_SCHEMA_MEASURES) ;;
     if success result && truthy (resultRows result)
     then tlift (array_map (resultRows result) measureOfRow)
     else extractMeasuresViaREST userId workspaceId datasetId)
    (fun error => _ <-- tlift (error_message error) ;; tret []).

(** [v !== false] *)
Definition not_false (v : value) : bool :=
  match v with VBool false => false | _ => true end.

Definition relationshipOfRow (row : value) : completion value :=
  name <~ named_or_default row "RelationshipName" (VStr "") ;;
  fromTable <~ named_or_position row "FromTable" 1 ;;
  fromColumn <~ named_or_position row "FromColumn" 2 ;;
  toTable <~ named_or_position row "ToTable" 3 ;;
  toColumn <~ named_or_position row "ToColumn" 4 ;;
  crossFilterDirection <~ named_or_default row "CrossFilterDirection" (VStr "Single") ;;
  isActive <~ get_prop row "IsActive" ;;
  Returns (VObj [("name", name); ("fromTable", fromTable);
                 ("fromColumn", fromColumn); ("toTable", toTable);
                 ("toColumn", toColumn);
                 ("crossFilterDirection", crossFilterDirection);
                 ("isActive", VBool (not_false isActive))]).

Definition extractRelationships (userId tenantId workspaceId datasetId : string)
  : T (list value) :=
  tcatch
    (result <-- request (CallDAX INFORMATION_SCHEMA_RELATIONSHIPS)
                  (query_executor svc INFORMATION_SCHEMA_RELATIONSHIPS) ;;
     if success result && truthy (resultRows result)
     then tlift (array_map (resultRows result) relationshipOfRow)
     else tret [])
    (fun error => _ <-- tlift (error_message error) ;; tret []).

(** [Promise.allSettled] on one branch: the requests are sent, the outcome
    is kept. *)
Definition settle {A} (c : T A) : T (settled A) :=
  match c with
  | (log, Returns a) => (log, Returns (Fulfilled a))
  | (log, Throws e) => (log, Returns (Rejected e))
  | (log, Diverges) => (log, Diverges)
  end.

Definition fulfilled {A} (s : settled A) : bool :=
  match s with Fulfilled _ => true | Rejected _ => false end.

(** [s.status === 'fulfilled' ? s.value : []] *)
Definition value_or_empty {A} (s : settled (list A)) : list A :=
  match s with Fulfilled l => l | Rejected _ => [] end.

Definition storeMetadata (datasetId : string) (metadata : Metadata) : T unit :=
  tcatch
    (tlift (match database_query svc with
            | Fulfilled u => Returns u
            | Rejected e => Throws e
            end))
    (fun error => _ <-- tlift (error_message error) ;; tlift (Throws error)).

Definition extractCompleteMetadata (userId tenantId workspaceId datasetId : string)
  : T Metadata :=
  let startTime := reading svc 0 in
  tcatch
    (found <-- tlift (match findByPowerBIId svc with
                      | Fulfilled d => Returns d
                      | Rejected e => Throws e
                      end) ;;
     match found with
     | None => tlift (Throws (ThrownError (plainError "Dataset not found in database")))
     | Some dataset =>
         tables <-- settle (extractTables userId tenantId workspaceId datasetId) ;;
         measures <-- settle (extractMeasures userId tenantId workspaceId datasetId) ;;
         relationships <--
           settle (extractRelationships userId tenantId workspaceId datasetId) ;;
         columns <-- settle (extractColumns userId tenantId workspaceId datasetId) ;;
         let metadata :=
           {| md_datasetId := powerbi_dataset_id dataset;
              md_datasetName := dataset_name dataset;
              md_workspaceId := powerbi_workspace_id dataset;
              md_tables := value_or_empty tables;
              md_measures := value_or_empty measures;
              md_relationships := value_or_empty relationships;
              md_columns := value_or_empty columns;
              extractedAt := reading svc 1;
              extractionTimeMs := reading svc 2 - startTime;
              extractionMethods :=
                {| em_tables := fulfilled tables;
                   em_measures := fulfilled measures;
                   em_relationships := fulfilled relationships;
                   em_columns := fulfilled columns |} |} in
         _ <-- storeMetadata (dataset_id dataset) metadata ;;
         tret metadata
     end)
    (fun error => _ <-- tlift (error_message error) ;; tlift (Throws error)).

End MetadataExtractor.

(** * Properties *)

(** ** Validity of a connection *)

(** The test [isConnectionValid] makes, at the reading [now] of the clock. *)
Definition validAt (cfg : PoolConfig) (now : Z) (c : Connection) : bool :=
  (tokenExpiryBuffer cfg <=? tokenExpiry c - now)%Z
  && (now - createdAt c <=? maxConnectionAge cfg)%Z
  && isValid c.

Definition tick (w : World) : World :=
  {| connectionPool := connectionPool w; poolStats := poolStats w;
     execStats := execStats w; clockReads := S (clockReads w);
     tokenCalls := tokenCalls w; remoteCalls := remoteCalls w;
     randomCalls := randomCalls w; trace := trace w |}.

Lemma isConnectionValid_run (env : Env) (c : Connection) (w : World) :
  isConnectionValid env c w
  = (Returns (validAt (poolConfig env) (clock env (clockReads w)) c), tick w).
Proof.
  unfold isConnectionValid, validAt, bind, now, ret, tick. cbn.
  destruct (Z.ltb_spec (tokenExpiry c - clock env (clockReads w))
              (tokenExpiryBuffer (poolConfig env))) as [Hlt | Hge].
  - replace (tokenExpiryBuffer (poolConfig env)
             <=? tokenExpiry c - clock env (clockReads w))%Z with false
      by (symmetry; apply Z.leb_gt; lia).
    reflexivity.
  - replace (tokenExpiryBuffer (poolConfig env)
             <=? tokenExpiry c - clock env (clockReads w))%Z with true
      by (symmetry; apply Z.leb_le; lia).
    rewrite Z.gtb_ltb.
    destruct (Z.ltb_spec (maxConnectionAge (poolConfig env))
                (clock env (clockReads w) - createdAt c)) as [Hold | Hyoung].
    + replace (clock env (clockReads w) - createdAt c
               <=? maxConnectionAge (poolConfig env))%Z with false
        by (symmetry; apply Z.leb_gt; lia).
      reflexivity.
    + replace (clock env (clockReads w) - createdAt c
               <=? maxConnectionAge (poolConfig env))%Z with true
        by (symmetry; apply Z.leb_le; lia).
      destruct (isValid c); reflexivity.
Qed.

(** The validity predicate in the words of the specification, with both
    time bounds strict. *)
Definition spec_valid_strict (cfg : PoolConfig) (now : Z) (c : Connection) : Prop :=
  (now < tokenExpiry c - tokenExpiryBuffer cfg)%Z
  /\ (now - createdAt c < maxConnectionAge cfg)%Z
  /\ isValid c = true.

Definition quietEnv : Env :=
  {| poolConfig := defaultPoolConfig;
     retryConfig := defaultRetryConfig;
     clock := fun _ => 0%Z;
     tokenProvider := fun _ => Fulfilled None;
     remote := fun _ => Rejected ThrownUndefined;
     random := fun _ => 0%Q;
     globalTenantId := None;
     coercedPositive := fun _ => Some false |}.

Definition emptyWorld : World :=
  {| connectionPool := [];
     poolStats := Build_PoolStats 0 0 0 0 0;
     execStats := Build_ExecStats 0 0 0 0 0;
     clockReads := 0; tokenCalls := 0; remoteCalls := 0; randomCalls := 0;
     trace := [] |}.

(** A connection created at time 0 whose token expires exactly
    [tokenExpiryBuffer] later. *)
Definition edgeConnection : Connection :=
  Build_Connection "ws" "tenant" "user" "tok" 300000
    (buildXMLAEndpoint "ws") (buildConnectionString "ws" "tok") 0 0 0 true.

(** C6, as stated, fails: at [now = tokenExpiry - tokenExpiryBuffer] the code
    answers [true] while the strict predicate of the claim is false. *)
Lemma isConnectionValid_not_strict :
  ~ (forall (env : Env) (w : World) (c : Connection),
        fst (isConnectionValid env c w) = Returns true
        <-> spec_valid_strict (poolConfig env) (clock env (clockReads w)) c).
Proof.
  intros H.
  destruct (H quietEnv emptyWorld edgeConnection) as [Hcode _].
  assert (Hrun : fst (isConnectionValid quietEnv edgeConnection emptyWorld)
                 = Returns true) by reflexivity.
  destruct (Hcode Hrun) as [Hexp _]. cbn in Hexp. lia.
Qed.

(** C6, amended: [isConnectionValid] always returns, and it returns [true]
    exactly when [now <= tokenExpiry - tokenExpiryBuffer], and
    [now - createdAt <= maxConnectionAge], and the flag [isValid] is set:
    both time bounds are inclusive. *)
Theorem isConnectionValid_iff (env : Env) (w : World) (c : Connection) :
  exists b : bool,
    fst (isConnectionValid env c w) = Returns b
    /\ (b = true <->
        (clock env (clockReads w)
           <= tokenExpiry c - tokenExpiryBuffer (poolConfig env))%Z
        /\ (clock env (clockReads w) - createdAt c
              <= maxConnectionAge (poolConfig env))%Z
        /\ isValid c = true).
Proof.
  exists (validAt (poolConfig env) (clock env (clockReads w)) c).
  rewrite isConnectionValid_run. split; [reflexivity |].
  unfold validAt. rewrite !andb_true_iff, !Z.leb_le. split.
  - intros [[H1 H2] H3]. repeat split; [lia | lia | exact H3].
  - intros (H1 & H2 & H3). repeat split; [lia | lia | exact H3].
Qed.

(** ** Connections returned by [getConnection] *)

(** A token provider that always supplies a token expiring at [expiry]. *)
Definition envWithToken (cfg : PoolConfig) (time : nat -> Z) (expiry : Z) : Env :=
  {| poolConfig := cfg;
     retryConfig := defaultRetryConfig;
     clock := time;
     tokenProvider := fun _ => Fulfilled (Some {| access_token := "tok"; expires_at := expiry |});
     remote := fun _ => Rejected ThrownUndefined;
     random := fun _ => 0%Q;
     globalTenantId := None;
     coercedPositive := fun _ => Some false |}.

(** The clock stands at 1 000 000 ms and the token provider supplies a token
    with one minute left, less than the five minutes of the buffer. *)
Definition shortTokenEnv : Env :=
  envWithToken defaultPoolConfig (fun _ => 1000000%Z) 1060000.

(** C4, as stated, fails: a freshly created connection is returned as it
    is, and [isConnectionValid] rejects it at once. *)
Lemma getConnection_fresh_not_valid :
  exists (c : Connection) (w' : World),
    getConnection shortTokenEnv "user" "tenant" "ws" emptyWorld = (Returns c, w')
    /\ fst (isConnectionValid shortTokenEnv c w') = Returns false
    /\ ~ (clock shortTokenEnv (clockReads w')
            <= tokenExpiry c - tokenExpiryBuffer (poolConfig shortTokenEnv))%Z.
Proof.
  eexists. eexists. split; [reflexivity |]. split; [reflexivity |].
  cbn. lia.
Qed.

Lemma createConnection_returns (env : Env) (u t ws : string) (w w' : World)
  (c : Connection) :
  createConnection env u t ws w = (Returns c, w') ->
  exists td : TokenData,
    tokenProvider env (tokenCalls w) = Fulfilled (Some td)
    /\ c = Build_Connection ws t u (access_token td) (expires_at td)
             (buildXMLAEndpoint ws) (buildConnectionString ws (access_token td))
             (clock env (clockReads w)) (clock env (S (clockReads w))) 0 true
    /\ tokenCalls w' = S (tokenCalls w)
    /\ connectionPool w' = connectionPool w.
Proof.
  unfold createConnection, try_catch, bind, getValidToken, await, log_error_message, lift.
  destruct (tokenProvider env (tokenCalls w)) as [[td |] | e] eqn:Htok; cbn.
  - intros H. injection H as Hc Hw. exists td. subst. cbn. auto.
  - intros H. discriminate H.
  - destruct e; cbn; intros H; discriminate H.
Qed.

Lemma createAndInsert_returns (env : Env) (key u t ws : string) (w w' : World)
  (c : Connection) :
  createAndInsert env key u t ws w = (Returns c, w') ->
  exists td : TokenData,
    tokenProvider env (tokenCalls w) = Fulfilled (Some td)
    /\ c = Build_Connection ws t u (access_token td) (expires_at td)
             (buildXMLAEndpoint ws) (buildConnectionString ws (access_token td))
             (clock env (clockReads w)) (clock env (S (clockReads w))) 0 true.
Proof.
  unfold createAndInsert. unfold bind at 1.
  destruct (createConnection env u t ws w) as [[c0 | e |] w0] eqn:Hcreate;
    try discriminate.
  apply createConnection_returns in Hcreate.
  destruct Hcreate as (td & Htok & Hc0 & _ & _).
  intros H. exists td. split; [exact Htok |].
  assert (Hc : c = c0).
  { revert H. unfold bind, gets, poolSet, set_pool, set_poolStats, modify,
      findOldestConnection, poolDelete, now, ret, gets. cbn.
    destruct (map_size (connectionPool w0) <? maxPoolSize (poolConfig env))%Z; cbn.
    - intros H. injection H as H _. symmetry. exact H.
    - destruct (fst (fold_left older (connectionPool w0)
                       (None, clock env (clockReads w0)))) as [k |]; cbn.
      + destruct (negb (k =? "")%string); cbn;
          intros H; injection H as H _; symmetry; exact H.
      + intros H. injection H as H _. symmetry. exact H. }
  subst c. exact Hc0.
Qed.

(** C4, amended: a connection returned by [getConnection] has its flag
    [isValid] set.  If it was reused, it passed the test of
    [isConnectionValid] at the lookup of this call, and reuse changed only
    [lastUsed] and [usageCount].  If it was freshly created, it is returned
    without any check: its [tokenExpiry] is the [expires_at] the token
    provider supplied. *)
Theorem getConnection_returns (env : Env) (u t ws : string) (w w' : World)
  (c : Connection) :
  getConnection env u t ws w = (Returns c, w') ->
  isValid c = true
  /\ ((exists c0 : Connection,
          map_get (connectionPool w) (getConnectionKey t ws u) = Some c0
          /\ c = touch (clock env (S (clockReads w))) c0
          /\ validAt (poolConfig env) (clock env (clockReads w)) c = true)
      \/ (exists (td : TokenData) (k : nat),
             tokenProvider env (tokenCalls w) = Fulfilled (Some td)
             /\ tokenExpiry c = expires_at td
             /\ createdAt c = clock env k
             /\ usageCount c = 0%Z)).
Proof.
  unfold getConnection, try_catch.
  match goal with
  | |- (match ?body w with _ => _ end) = _ -> _ =>
      destruct (body w) as [[c1 | e |] w1] eqn:Hbody
  end.
  2: { unfold bind, set_poolStats, modify, log_error_message, lift, throw.
       cbn. destruct e; cbn; intros H; discriminate H. }
  2: { intros H; discriminate H. }
  intros H. injection H as Hc Hw. subst c1 w1.
  revert Hbody. unfold bind at 1. unfold gets at 1.
  destruct (map_has (connectionPool w) (getConnectionKey t ws u)) eqn:Hhas.
  - destruct (map_get (connectionPool w) (getConnectionKey t ws u))
      as [c0 |] eqn:Hget.
    + unfold bind at 1. rewrite isConnectionValid_run.
      destruct (validAt (poolConfig env) (clock env (clockReads w)) c0) eqn:Hv.
      * unfold bind, set_poolStats, modify, now, poolSet, gets, set_pool, ret.
        cbn. intros H. injection H as Hc _. subst c.
        assert (Hflag : isValid c0 = true).
        { unfold validAt in Hv. apply andb_true_iff in Hv. apply Hv. }
        split; [exact Hflag |].
        left. exists c0. repeat split. exact Hv.
      * unfold bind at 1. unfold poolDelete at 1. unfold bind at 1.
        unfold gets at 1. unfold set_pool at 1. unfold modify at 1.
        unfold bind at 1. unfold set_poolStats at 1. unfold modify at 1.
        intros H. apply createAndInsert_returns in H.
        destruct H as (td & Htok & Hc). cbn in Htok, Hc.
        subst c. cbn. split; [reflexivity |].
        right. exists td, (S (clockReads w)). auto.
    + intros H. apply createAndInsert_returns in H.
      destruct H as (td & Htok & Hc). subst c. cbn. split; [reflexivity |].
      right. exists td, (clockReads w). auto.
  - intros H. apply createAndInsert_returns in H.
    destruct H as (td & Htok & Hc). subst c. cbn. split; [reflexivity |].
    right. exists td, (clockReads w). auto.
Qed.

(** The theorem at work: a second request for the same identity reuses
    the pooled connection. *)
Lemma getConnection_returns_witness :
  exists (c : Connection) (w1 w2 : World),
    getConnection (envWithToken defaultPoolConfig (fun _ => 0%Z) 3600000)
      "user" "tenant" "ws" w1 = (Returns c, w2)
    /\ isValid c = true
    /\ usageCount c = 1%Z.
Proof.
  pose (env := envWithToken defaultPoolConfig (fun _ => 0%Z) 3600000).
  pose (w1 := snd (getConnection env "user" "tenant" "ws" emptyWorld)).
  pose (r := getConnection env "user" "tenant" "ws" w1).
  exists (match fst r with Returns c => c | _ => edgeConnection end), w1, (snd r).
  assert (Hrun : getConnection env "user" "tenant" "ws" w1
                 = (Returns (match fst r with Returns c => c | _ => edgeConnection end),
                    snd r)) by reflexivity.
  split; [exact Hrun |].
  split; [exact (proj1 (getConnection_returns env _ _ _ _ _ _ Hrun)) | reflexivity].
Defined.

(** ** The size of the pool *)

(** One request to the pool: the identity of the caller. *)
Record Acquire := { a_user : string; a_tenant : string; a_workspace : string }.

(** A sequence of [getConnection] calls, one after the other; a failed
    call leaves the world it reached. *)
Fixpoint acquireAll (env : Env) (calls : list Acquire) (w : World) : World :=
  match calls with
  | [] => w
  | a :: rest =>
      acquireAll env rest
        (snd (getConnection env (a_user a) (a_tenant a) (a_workspace a) w))
  end.

(** A pool of size 1 and a clock that returns the same millisecond for
    every reading of the two calls. *)
Definition sameMillisecondEnv : Env :=
  envWithToken
    {| maxPoolSize := 1; maxConnectionAge := 30 * 60 * 1000;
       tokenExpiryBuffer := 5 * 60 * 1000; cleanupInterval := 5 * 60 * 1000 |}
    (fun _ => 1000000%Z) 3600000.

(** With a clock that advances, a pool of size 1 evicts identity [alice]
    when [bob] arrives, and creates a fresh connection when [alice]
    returns. *)
Example lru_eviction :
  let env := envWithToken
               {| maxPoolSize := 1; maxConnectionAge := 30 * 60 * 1000;
                  tokenExpiryBuffer := 5 * 60 * 1000;
                  cleanupInterval := 5 * 60 * 1000 |}
               (fun k => Z.of_nat k) 3600000 in
  let alice := {| a_user := "alice"; a_tenant := "tenant"; a_workspace := "ws" |} in
  let bob := {| a_user := "bob"; a_tenant := "tenant"; a_workspace := "ws" |} in
  map fst (connectionPool (acquireAll env [alice; bob] emptyWorld)) = ["tenant:ws:bob"]
  /\ map fst (connectionPool (acquireAll env [alice; bob; alice] emptyWorld))
     = ["tenant:ws:alice"]
  /\ totalConnections (poolStats (acquireAll env [alice; bob; alice] emptyWorld)) = 3%Z
  /\ reuseCount (poolStats (acquireAll env [alice; alice] emptyWorld)) = 1%Z.
Proof. repeat split; vm_compute; reflexivity. Qed.

(** C3 fails on the code: [findOldestConnection] starts from
    [oldestTime = Date.now()] and compares with a strict [<], so an entry
    last used in the current millisecond is not found; nothing is evicted,
    and the full pool of size 1 receives a second entry. *)
Theorem pool_exceeds_maxPoolSize :
  let w := acquireAll sameMillisecondEnv
             [ {| a_user := "alice"; a_tenant := "tenant"; a_workspace := "ws" |};
               {| a_user := "bob"; a_tenant := "tenant"; a_workspace := "ws" |} ]
             emptyWorld in
  map_size (connectionPool w) = 2%Z
  /\ maxPoolSize (poolConfig sameMillisecondEnv) = 1%Z
  /\ fst (findOldestConnection sameMillisecondEnv w) = Returns None.
Proof. intros w. repeat split; vm_compute; reflexivity. Qed.

(** ** The retry loop *)

(** An environment whose remote service rejects every attempt with [err];
    the token provider supplies a token that is good for an hour. *)
Definition failingEnv (err : JsError) : Env :=
  {| poolConfig := defaultPoolConfig;
     retryConfig := defaultRetryConfig;
     clock := fun k => Z.of_nat k;
     tokenProvider :=
       fun _ => Fulfilled (Some {| access_token := "tok"; expires_at := 3600000 |});
     remote := fun _ => Rejected (ThrownError err);
     random := fun _ => 0%Q;
     globalTenantId := None;
     coercedPositive := fun _ => Some false |}.

(** The number of remote attempts a run has made. *)
Definition attemptsIn (events : list Event) : nat :=
  List.length (filter (fun ev => match ev with EvRemoteQuery _ _ _ => true | _ => false end)
                 events).

(** The number of calls of [invalidateConnection] a run has made. *)
Definition invalidationsIn (events : list Event) : nat :=
  List.length (filter (fun ev => match ev with EvInvalidate _ => true | _ => false end)
                 events).

(** The response of the remote service to an expired session. *)
Definition unauthorized : JsError :=
  {| message := Some "Request failed with status code 401";
     response := Some {| resp_status := Some 401%Z |};
     status := None |}.

(** C1 fails on the code: a 401 is classified as not retryable, the loop
    breaks before it reaches the invalidation, and the pooled connection
    stays valid for the next caller. *)
Theorem unauthorized_not_invalidated :
  let run := executeDAXQuery (failingEnv unauthorized)
               "user" "tenant" "ws" "dataset" "EVALUATE Sales" emptyWorld in
  shouldInvalidateConnection (ThrownError unauthorized) = Returns true
  /\ (exists outcome, fst run = Returns outcome /\ success outcome = false)
  /\ attemptsIn (trace (snd run)) = 1%nat
  /\ invalidationsIn (trace (snd run)) = 0%nat
  /\ option_map isValid
       (map_get (connectionPool (snd run)) (getConnectionKey "tenant" "ws" "user"))
     = Some true.
Proof.
  intros run. split; [vm_compute; reflexivity |].
  split; [eexists; split; vm_compute; reflexivity |].
  repeat split; vm_compute; reflexivity.
Qed.

(** A transient failure whose message mentions authentication. *)
Definition authBackendDown : JsError :=
  {| message := Some "Authentication service temporarily unavailable";
     response := Some {| resp_status := Some 503%Z |};
     status := None |}.

(** C5 fails on the code: every attempt fails with a retryable error, yet
    only one of the three attempts is made.  After the first back-off the
    loop evaluates the undeclared identifier [tenantId], and the
    [ReferenceError] leaves [executeWithRetry]; the caller is told
    ["tenantId is not defined"] instead of the error of the service. *)
Theorem transient_auth_failure_one_attempt :
  let run := executeDAXQuery (failingEnv authBackendDown)
               "user" "tenant" "ws" "dataset" "EVALUATE Sales" emptyWorld in
  isRetryableError (ThrownError authBackendDown) = Returns true
  /\ maxRetries (retryConfig (failingEnv authBackendDown)) = 3%Z
  /\ attemptsIn (trace (snd run)) = 1%nat
  /\ (exists outcome,
         fst run = Returns outcome
         /\ success outcome = false
         /\ q_error outcome = Some "tenantId is not defined")
  /\ invalidationsIn (trace (snd run)) = 0%nat.
Proof.
  intros run. split; [vm_compute; reflexivity |].
  split; [reflexivity |]. split; [vm_compute; reflexivity |].
  split; [| vm_compute; reflexivity].
  eexists. split; [vm_compute; reflexivity |].
  split; vm_compute; reflexivity.
Qed.

(** ** The row count of a result *)

(** Code that ends by returning, or by throwing an error object. *)
Definition tame {A} (c : completion A) : Prop :=
  match c with
  | Returns _ => True
  | Throws (ThrownError _) => True
  | Throws ThrownUndefined => False
  | Diverges => False
  end.

Lemma get_prop_tame (v : value) (k : string) : tame (get_prop v k).
Proof.
  destruct v; cbn; try exact I.
  - destruct (k =? "length")%string; exact I.
  - destruct (k =? "length")%string; exact I.
Qed.

Lemma js_gt_zero_tame (env : Env) (v : value) : tame (js_gt_zero env v).
Proof.
  destruct v; cbn; try exact I; destruct (coercedPositive env _); exact I.
Qed.

Lemma cbind_tame {A B} (c : completion A) (k : A -> completion B) :
  tame c -> (forall a, tame (k a)) -> tame (c <~ c ;; k c).
Proof.
  destruct c as [a | [| e] |]; cbn; intros Hc Hk; auto.
Qed.



Ltac step_get :=
  match goal with
  | |- context [get_prop ?v ?k] =>
      let H := fresh "Hget" in
      let T := fresh "Htame" in
      pose proof (get_prop_tame v k) as T;
      destruct (get_prop v k) as [? | [| ?] |] eqn:H; cbn in T; try contradiction;
      clear T; cbn [cbind ccatch error_message]
  | |- context [js_gt_zero ?e ?v] =>
      let H := fresh "Hpos" in
      let T := fresh "Htame" in
      pose proof (js_gt_zero_tame e v) as T;
      destruct (js_gt_zero e v) as [[|] | [| ?] |] eqn:H; cbn in T; try contradiction;
      clear T; cbn [cbind ccatch error_message]
  | |- context [truthy ?v] =>
      let H := fresh "Htruthy" in
      destruct (truthy v) eqn:H; cbn [cbind ccatch error_message]
  end.

Lemma get_opt_of (v r : value) (k : string) :
  get_prop v k = Returns r -> get_opt v k = r.
Proof. unfold get_opt. intros H. rewrite H. reflexivity. Qed.

(** Whatever [extractRowCount] is given, it returns: 0, or the [length] of
    the truthy [rows] it reached along the path. *)
Lemma extractRowCount_cases (env : Env) (result : value) (Q : value -> Prop) :
  (forall a a1 a2 a4 rows v,
      get_prop result "results" = Returns a ->
      get_prop a "0" = Returns a1 ->
      get_prop a1 "tables" = Returns a2 ->
      get_prop a2 "0" = Returns a4 ->
      get_prop a4 "rows" = Returns rows ->
      truthy rows = true ->
      get_prop rows "length" = Returns v -> Q v) ->
  exists v : value,
    extractRowCount env result = Returns v /\ (v = VNum 0 \/ Q v).
Proof.
  intros HQ. unfold extractRowCount, get_first.
  repeat step_get; try (eexists; split; [reflexivity | left; reflexivity]).
  eexists. split; [reflexivity |]. right.
  eapply HQ; first [reflexivity | eassumption].
Qed.

Lemma extractRowCount_returns (env : Env) (result : value) :
  exists v : value, extractRowCount env result = Returns v.
Proof.
  destruct (extractRowCount_cases env result (fun _ => True)) as (v & Hv & _);
    [intros; exact I |].
  exists v. exact Hv.
Qed.


(** [v.length > 0] holds (and the comparison does not throw). *)
Definition nonEmpty (env : Env) (v : value) : bool :=
  match js_gt_zero env (get_opt v "length") with
  | Returns b => b
  | _ => false
  end.










(** ** Frame reasoning for service code *)

(** [c] relates every world to the world it leaves, and never runs out of
    fuel. *)
Definition preserves {A} (R : World -> World -> Prop) (c : M A) : Prop :=
  forall w, R w (snd (c w)) /\ fst (c w) <> Diverges.

Section Frame.

Variable R : World -> World -> Prop.
Hypothesis R_refl : forall w, R w w.
Hypothesis R_trans : forall w1 w2 w3, R w1 w2 -> R w2 w3 -> R w1 w3.

Lemma preserves_ret {A} (a : A) : preserves R (ret a).
Proof. intros w. cbn. split; [apply R_refl | discriminate]. Qed.

Lemma preserves_throw {A} (e : thrown) : preserves R (@throw A e).
Proof. intros w. cbn. split; [apply R_refl | discriminate]. Qed.

Lemma preserves_gets {A} (f : World -> A) : preserves R (gets f).
Proof. intros w. cbn. split; [apply R_refl | discriminate]. Qed.

Lemma preserves_lift {A} (c : completion A) :
  c <> Diverges -> preserves R (lift c).
Proof. intros Hc w. cbn. split; [apply R_refl | exact Hc]. Qed.

Lemma preserves_modify (f : World -> World) :
  (forall w, R w (f w)) -> preserves R (modify f).
Proof. intros Hf w. cbn. split; [apply Hf | discriminate]. Qed.

Lemma preserves_bind {A B} (c : M A) (k : A -> M B) :
  preserves R c -> (forall a, preserves R (k a)) -> preserves R (bind c k).
Proof.
  intros Hc Hk w. unfold bind. destruct (Hc w) as [Hw Hfin].
  destruct (c w) as [[a | e |] w1]; cbn in *.
  - destruct (Hk a w1) as [Hw1 Hfin1]. split; [| exact Hfin1].
    eapply R_trans; eassumption.
  - split; [exact Hw | discriminate].
  - contradiction.
Qed.

Lemma preserves_try_catch {A} (body : M A) (handler : thrown -> M A) :
  preserves R body -> (forall e, preserves R (handler e)) ->
  preserves R (try_catch body handler).
Proof.
  intros Hb Hh w. unfold try_catch. destruct (Hb w) as [Hw Hfin].
  destruct (body w) as [[a | e |] w1]; cbn in *.
  - split; [exact Hw | discriminate].
  - destruct (Hh e w1) as [Hw1 Hfin1]. split; [| exact Hfin1].
    eapply R_trans; eassumption.
  - contradiction.
Qed.

End Frame.

Lemma error_message_completes (e : thrown) : error_message e <> Diverges.
Proof. destruct e; discriminate. Qed.

Lemma tame_completes {A} (c : completion A) : tame c -> c <> Diverges.
Proof. destruct c; cbn; [discriminate | discriminate | contradiction]. Qed.

Lemma isRetryableError_tame (e : thrown) : tame (isRetryableError e).
Proof.
  destruct e as [| e]; cbn; [exact I |].
  destruct (response e); [| exact I].
  repeat match goal with |- tame (if ?b then _ else _) => destruct b end; exact I.
Qed.

Lemma shouldInvalidateConnection_tame (e : thrown) :
  tame (shouldInvalidateConnection e).
Proof.
  destruct e as [| e]; cbn; [exact I |].
  repeat match goal with |- tame (if ?b then _ else _) => destruct b end; exact I.
Qed.

(** Solves [preserves R c] by following the structure of [c]; what is left
    are the primitive steps that change the world. *)
Ltac frame_step Hrefl Htrans :=
  first
    [ apply (preserves_ret _ Hrefl)
    | apply (preserves_throw _ Hrefl)
    | apply (preserves_gets _ Hrefl)
    | apply (preserves_bind _ Htrans)
    | apply (preserves_try_catch _ Htrans)
    | apply (preserves_lift _ Hrefl);
      first [ apply error_message_completes
            | apply tame_completes; apply isRetryableError_tame
            | apply tame_completes; apply shouldInvalidateConnection_tame ]
    | apply preserves_modify; intros ?; cbn
    | match goal with
      | |- preserves _ (if ?b then _ else _) => destruct b
      | |- preserves _ (match ?x with _ => _ end) => destruct x
      | |- preserves _ (let _ := _ in _) => cbv zeta
      | |- forall _, _ => intros ?
      end ].

(** ** The counters of the executor *)

(** The three counters of C9 are the same in both worlds. *)
Definition sameCounts (w w' : World) : Prop :=
  totalQueries (execStats w') = totalQueries (execStats w)
  /\ successfulQueries (execStats w') = successfulQueries (execStats w)
  /\ failedQueries (execStats w') = failedQueries (execStats w).

Lemma sameCounts_refl (w : World) : sameCounts w w.
Proof. unfold sameCounts. auto. Qed.

Lemma sameCounts_trans (w1 w2 w3 : World) :
  sameCounts w1 w2 -> sameCounts w2 w3 -> sameCounts w1 w3.
Proof. unfold sameCounts. intros (A & B & C) (D & E & F). repeat split; congruence. Qed.

Lemma now_sameCounts (env : Env) : preserves sameCounts (now env).
Proof. intros w. split; [unfold sameCounts; cbn; auto | discriminate]. Qed.

Lemma getValidToken_sameCounts (env : Env) (u : string) :
  preserves sameCounts (getValidToken env u).
Proof.
  intros w. unfold getValidToken.
  destruct (tokenProvider env (tokenCalls w)); cbn;
    (split; [unfold sameCounts; cbn; auto | discriminate]).
Qed.

Lemma mathRandom_sameCounts (env : Env) : preserves sameCounts (mathRandom env).
Proof. intros w. split; [unfold sameCounts; cbn; auto | discriminate]. Qed.

Lemma raceWithTimeout_sameCounts (env : Env) (ws d q : string) :
  preserves sameCounts (raceWithTimeout env ws d q).
Proof.
  intros w. unfold raceWithTimeout.
  destruct (remote env (remoteCalls w)); cbn;
    (split; [unfold sameCounts; cbn; auto | discriminate]).
Qed.

Ltac frame_counts :=
  repeat first
    [ apply now_sameCounts
    | apply raceWithTimeout_sameCounts
    | apply getValidToken_sameCounts
    | apply mathRandom_sameCounts
    | frame_step sameCounts_refl sameCounts_trans
    | solve [unfold sameCounts; cbn; auto]
    | progress unfold log_error_message, poolSet, poolDelete, set_pool,
        set_poolStats, set_execStats, emit, sleep ].

Lemma createAndInsert_sameCounts (env : Env) (key u t ws : string) :
  preserves sameCounts (createAndInsert env key u t ws).
Proof. unfold createAndInsert, createConnection, findOldestConnection. frame_counts. Qed.

Lemma getConnection_sameCounts (env : Env) (u t ws : string) :
  preserves sameCounts (getConnection env u t ws).
Proof.
  unfold getConnection, isConnectionValid.
  repeat first [ apply createAndInsert_sameCounts | frame_counts ].
Qed.

Lemma invalidateConnection_sameCounts (u t ws : string) :
  preserves sameCounts (invalidateConnection u t ws).
Proof. unfold invalidateConnection. frame_counts. Qed.

Lemma attemptQuery_sameCounts (env : Env) (u ws d q : string) (attempt : Z) :
  preserves sameCounts (attemptQuery env u ws d q attempt).
Proof.
  unfold attemptQuery, calculateBackoffDelay, invalidateWithFreeTenantId.
  repeat first [ apply invalidateConnection_sameCounts | frame_counts ].
Qed.

(** The loop never runs out of fuel when it is given at least the number
    of attempts that are left. *)
Lemma retryLoop_sameCounts (env : Env) (u ws d q : string) (fuel : nat) :
  forall (attempt : Z) (lastError : thrown),
    (Z.to_nat (maxRetries (retryConfig env) - attempt) <= fuel)%nat ->
    preserves sameCounts (retryLoop env fuel u ws d q attempt lastError).
Proof.
  induction fuel as [| fuel IH]; intros attempt lastError Hfuel; cbn [retryLoop];
    destruct (Z.ltb_spec attempt (maxRetries (retryConfig env))) as [Hlt | Hge];
    try (apply (preserves_throw _ sameCounts_refl)).
  - lia.
  - apply (preserves_bind _ sameCounts_trans); [apply attemptQuery_sameCounts |].
    intros [result | e | e].
    + apply (preserves_ret _ sameCounts_refl).
    + apply (preserves_throw _ sameCounts_refl).
    + apply IH. lia.
Qed.

Lemma executeWithRetry_sameCounts (env : Env) (u ws d q : string) (c : Connection) :
  preserves sameCounts (executeWithRetry env u ws d q c).
Proof. unfold executeWithRetry. apply retryLoop_sameCounts. lia. Qed.

Lemma executeDAXQuery_try_counts (env : Env) (start : Z) (u t ws d q : string)
  (w w' : World) (res : completion QueryOutcome) :
  executeDAXQuery_try env start u t ws d q w = (res, w') ->
  res <> Diverges
  /\ totalQueries (execStats w') = totalQueries (execStats w)
  /\ ((successfulQueries (execStats w') = successfulQueries (execStats w) + 1
       /\ failedQueries (execStats w') = failedQueries (execStats w)
       /\ exists outcome, res = Returns outcome /\ success outcome = true)
      \/ (successfulQueries (execStats w') = successfulQueries (execStats w)
          /\ failedQueries (execStats w') = failedQueries (execStats w) + 1
          /\ forall outcome, res = Returns outcome -> success outcome = false)).
Proof.
  unfold executeDAXQuery_try, try_catch. unfold bind at 1.
  destruct (getConnection_sameCounts env u t ws w) as [(Gt & Gs & Gf) Gfin].
  destruct (getConnection env u t ws w) as [[c | e |] w2]; cbn [fst snd] in *;
    [| | contradiction].
  - unfold bind at 1.
    destruct (executeWithRetry_sameCounts env u ws d q c w2) as [(Et & Es & Ef) Efin].
    destruct (executeWithRetry env u ws d q c w2) as [[v | e |] w3];
      cbn [fst snd] in *; [| | contradiction].
    + destruct (extractRowCount_returns env v) as (n & Hn).
      unfold bind, now, set_execStats, modify, lift, ret. rewrite Hn. cbn.
      intros H. injection H as <- <-. cbn.
      split; [discriminate |]. split; [lia |]. left.
      split; [lia |]. split; [lia |]. eexists. split; reflexivity.
    + unfold bind, now, set_execStats, modify, lift, ret.
      destruct e as [| e]; cbn; intros H; injection H as <- <-; cbn.
      * split; [discriminate |]. split; [lia |]. right.
        split; [lia |]. split; [lia |]. intros o Ho. discriminate Ho.
      * split; [discriminate |]. split; [lia |]. right.
        split; [lia |]. split; [lia |]. intros o Ho. injection Ho as <-. reflexivity.
  - unfold bind, now, set_execStats, modify, lift, ret.
    destruct e as [| e]; cbn; intros H; injection H as <- <-; cbn.
    + split; [discriminate |]. split; [lia |]. right.
      split; [lia |]. split; [lia |]. intros o Ho. discriminate Ho.
    + split; [discriminate |]. split; [lia |]. right.
      split; [lia |]. split; [lia |]. intros o Ho. injection Ho as <-. reflexivity.
Qed.

(** C9, amended: a call of [executeDAXQuery] that runs from its start to
    its end with no other call in between completes, increments
    [totalQueries] by one and exactly one of [successfulQueries] (when it
    resolves with [success: true]) and [failedQueries] (otherwise) by one,
    so that [totalQueries - successfulQueries - failedQueries] is unchanged;
    [resetStats] sets all counters to zero, where the equation
    [totalQueries = successfulQueries + failedQueries] holds. *)
Theorem executeDAXQuery_counts (env : Env) (u t ws d q : string) (w : World) :
  let r := executeDAXQuery env u t ws d q w in
  let before := execStats w in
  let after := execStats (snd r) in
  fst r <> Diverges
  /\ totalQueries after = totalQueries before + 1
  /\ ((successfulQueries after = successfulQueries before + 1
       /\ failedQueries after = failedQueries before
       /\ exists outcome, fst r = Returns outcome /\ success outcome = true)
      \/ (successfulQueries after = successfulQueries before
          /\ failedQueries after = failedQueries before + 1
          /\ forall outcome, fst r = Returns outcome -> success outcome = false))
  /\ totalQueries after - successfulQueries after - failedQueries after
     = totalQueries before - successfulQueries before - failedQueries before
  /\ execStats (snd (resetStats (snd r))) = Build_ExecStats 0 0 0 0 0
  /\ totalQueries (execStats (snd (resetStats (snd r))))
     = successfulQueries (execStats (snd (resetStats (snd r))))
       + failedQueries (execStats (snd (resetStats (snd r)))).
Proof.
  intros r before after.
  assert (Hcore :
    fst r <> Diverges
    /\ totalQueries after = totalQueries before + 1
    /\ ((successfulQueries after = successfulQueries before + 1
         /\ failedQueries after = failedQueries before
         /\ exists outcome, fst r = Returns outcome /\ success outcome = true)
        \/ (successfulQueries after = successfulQueries before
            /\ failedQueries after = failedQueries before + 1
            /\ forall outcome, fst r = Returns outcome -> success outcome = false))).
  { subst r before after. unfold executeDAXQuery, bind, now, set_execStats, modify.
    match goal with
    | |- context [executeDAXQuery_try env ?s u t ws d q ?w1] =>
        destruct (executeDAXQuery_try env s u t ws d q w1) as [res w'] eqn:Hrun;
        apply executeDAXQuery_try_counts in Hrun
    end.
    cbn in Hrun |- *. destruct Hrun as (Hfin & Htot & Hcase).
    split; [exact Hfin |]. split; [lia |]. exact Hcase. }
  destruct Hcore as (Hfin & Htot & Hcase).
  split; [exact Hfin |]. split; [exact Htot |]. split; [exact Hcase |].
  split; [| split; reflexivity].
  destruct Hcase as [(Hs & Hf & _) | (Hs & Hf & _)]; lia.
Qed.

(** *** Calls that overlap *)

(** The part of [executeDAXQuery] that runs before its first [await]: the
    start time is read and [totalQueries] is incremented.  The rest of the
    call, [executeDAXQuery_try], runs when the call is resumed. *)
Definition executeDAXQuery_begin (env : Env) : M Z :=
  startTime <- now env ;;
  set_execStats incr_totalQueries ;;;
  ret startTime.

Lemma executeDAXQuery_phases (env : Env) (u t ws d q : string) (w : World) :
  executeDAXQuery env u t ws d q w
  = (startTime <- executeDAXQuery_begin env ;;
     executeDAXQuery_try env startTime u t ws d q) w.
Proof. reflexivity. Qed.

(** The first part counts the call in [totalQueries] only; the second
    part counts its outcome, from whatever state it is resumed in
    ([executeDAXQuery_try_counts]). *)
Lemma executeDAXQuery_begin_counts (env : Env) (w : World) :
  exists w' : World,
    executeDAXQuery_begin env w = (Returns (clock env (clockReads w)), w')
    /\ totalQueries (execStats w') = totalQueries (execStats w) + 1
    /\ successfulQueries (execStats w') = successfulQueries (execStats w)
    /\ failedQueries (execStats w') = failedQueries (execStats w).
Proof. eexists. split; [reflexivity |]. cbn. auto. Qed.

(** Two calls that overlap, up to the moment the first one completes:
    both have begun before either is resumed, as the calls that
    [executeBatchQueries] starts with [Promise.all], the four discovery
    queries of the metadata extractor or two requests served at the same
    time; then the first call runs to its end.  (What the second call does
    besides before its first [await], the lookup in the pool, does not
    touch the counters.) *)
Definition firstOfTwoOverlapping (env : Env) (u t ws d q : string) : M QueryOutcome :=
  startFirst <- executeDAXQuery_begin env ;;
  startSecond <- executeDAXQuery_begin env ;;
  executeDAXQuery_try env startFirst u t ws d q.

(** The remote service answers every query; the token is good for an
    hour. *)
Definition answeringEnv : Env :=
  {| poolConfig := defaultPoolConfig;
     retryConfig := defaultRetryConfig;
     clock := fun k => Z.of_nat k;
     tokenProvider :=
       fun _ => Fulfilled (Some {| access_token := "tok"; expires_at := 3600000 |});
     remote := fun _ => Fulfilled (VObj [("results", VArr [])]);
     random := fun _ => 0%Q;
     globalTenantId := None;
     coercedPositive := fun _ => Some false |}.

(** C9, as stated, fails when calls overlap: [totalQueries] is incremented
    before the first [await] of a call, the outcome counter when the call
    ends.  When the first of two overlapping calls has completed, with
    [success: true], [totalQueries] is 2 and
    [successfulQueries + failedQueries] is 1. *)
Lemma overlapping_calls_unbalanced :
  exists (outcome : QueryOutcome) (w : World),
    firstOfTwoOverlapping answeringEnv "user" "tenant" "ws" "dataset" "EVALUATE Sales"
      emptyWorld = (Returns outcome, w)
    /\ success outcome = true
    /\ totalQueries (execStats w) = 2
    /\ successfulQueries (execStats w) + failedQueries (execStats w) = 1
    /\ totalQueries (execStats w)
       <> successfulQueries (execStats w) + failedQueries (execStats w).
Proof.
  eexists. eexists. split; [vm_compute; reflexivity |].
  repeat split. cbn. discriminate.
Qed.

(** ** The back-off delay *)

(** [min(b * 2^(n-1), m)], for an attempt number [n >= 1]. *)
Definition cappedDelayZ (cfg : RetryConfig) (n : Z) : Z :=
  Z.min (baseDelay cfg * 2 ^ (n - 1)) (maxDelay cfg).

(** Some doubles: [0.1], [1/3], the sum [0.1 + 0.2] (the double written
    [0.30000000000000004]), two ties above [2^53] that go to the even
    neighbour, and the tie at half the smallest subnormal, which goes to
    zero. *)
Example fl_samples :
  Qeq_bool (fl (1 # 10)) (3602879701896397 # 36028797018963968) = true
  /\ Qeq_bool (fl (1 # 3)) (6004799503160661 # 18014398509481984) = true
  /\ Qeq_bool (fadd (fl (1 # 10)) (fl (2 # 10)))
       (1351079888211149 # 4503599627370496) = true
  /\ Qeq_bool (fl (inject_Z (2 ^ 53 + 1))) (inject_Z (2 ^ 53)) = true
  /\ Qeq_bool (fl (inject_Z (2 ^ 53 + 3))) (inject_Z (2 ^ 53 + 4)) = true
  /\ Qeq_bool (fl (Qpower 2 (-1075))) 0 = true
  /\ Qeq_bool (fl (3 * Qpower 2 (-1075))) (Qpower 2 (-1073)) = true.
Proof. repeat split; vm_compute; reflexivity. Qed.

(** Rounding to the nearest integer does not cross an integer. *)
Lemma roundHalfEven_le (a d k : Z) :
  0 < d -> a <= k * d -> roundHalfEven a d <= k.
Proof.
  intros Hd Ha. unfold roundHalfEven.
  pose proof (Z.div_mod a d ltac:(lia)) as Hdm.
  pose proof (Z.mod_pos_bound a d Hd) as Hr.
  assert (Hq : a / d <= k) by nia.
  destruct (Z.ltb_spec (2 * (a mod d)) d); [exact Hq |].
  assert (a / d < k) by nia.
  destruct (Z.ltb_spec d (2 * (a mod d))); [lia |].
  destruct (Z.even (a / d)); lia.
Qed.

Lemma roundHalfEven_ge (a d k : Z) :
  0 < d -> k * d <= a -> k <= roundHalfEven a d.
Proof.
  intros Hd Ha. unfold roundHalfEven.
  pose proof (Z.div_mod a d ltac:(lia)) as Hdm.
  pose proof (Z.mod_pos_bound a d Hd) as Hr.
  assert (Hq : k <= a / d) by nia.
  destruct (Z.ltb_spec (2 * (a mod d)) d); [exact Hq |].
  destruct (Z.ltb_spec d (2 * (a mod d))); [lia |].
  destruct (Z.even (a / d)); lia.
Qed.

Lemma pow2_le_spec (e n d : Z) :
  pow2_le e n d = true ->
  if (0 <=? e)%Z then d * 2 ^ e <= n else d <= n * 2 ^ (- e).
Proof.
  unfold pow2_le. destruct (0 <=? e)%Z; intros H; apply Z.leb_le; exact H.
Qed.

(** The binade is not above the number: [2^(binade n d) <= n / d]. *)
Lemma binade_below (n d : Z) :
  0 < n -> 0 < d -> pow2_le (binade n d) n d = true.
Proof.
  intros Hn Hd. unfold binade.
  destruct (pow2_le (Z.log2 n - Z.log2 d) n d) eqn:E; [exact E |].
  pose proof (Z.log2_spec n Hn) as [Hn1 Hn2].
  pose proof (Z.log2_spec d Hd) as [Hd1 Hd2].
  pose proof (Z.log2_nonneg n) as Hln. pose proof (Z.log2_nonneg d) as Hld.
  set (ln := Z.log2 n) in *. set (ld := Z.log2 d) in *.
  unfold pow2_le. destruct (Z.leb_spec 0 (ln - ld - 1)) as [Hpos | Hneg].
  - apply Z.leb_le.
    replace (Z.succ ld) with (ld + 1) in Hd2 by lia.
    assert (Hsplit : 2 ^ ln = 2 ^ (ln - ld - 1) * 2 ^ (ld + 1))
      by (rewrite <- Z.pow_add_r by lia; f_equal; lia).
    assert (0 < 2 ^ (ln - ld - 1)) by (apply Z.pow_pos_nonneg; lia).
    nia.
  - apply Z.leb_le.
    replace (Z.succ ld) with (ld + 1) in Hd2 by lia.
    assert (Hsplit : 2 ^ (ld + 1) = 2 ^ ln * 2 ^ (- (ln - ld - 1)))
      by (rewrite <- Z.pow_add_r by lia; f_equal; lia).
    assert (0 < 2 ^ (- (ln - ld - 1))) by (apply Z.pow_pos_nonneg; lia).
    nia.
Qed.

(** The exponent used for a number below [2^50] is at most 49. *)
Lemma binade_small (n d a : Z) :
  0 < n -> 0 < d -> n * 8 <= a * d -> a < 2 ^ 53 ->
  Z.max (binade n d) (-1022) <= 49.
Proof.
  intros Hn Hd Hle Ha.
  destruct (Z.le_gt_cases (binade n d) 49) as [Hsmall | Hbig]; [lia |].
  pose proof (pow2_le_spec _ _ _ (binade_below n d Hn Hd)) as Hlow.
  destruct (Z.leb_spec 0 (binade n d)); [| lia].
  assert (2 ^ 50 <= 2 ^ binade n d) by (apply Z.pow_le_mono_r; lia).
  assert (d * 2 ^ 50 <= n) by nia.
  change (2 ^ 53) with (8 * 2 ^ 50) in Ha. nia.
Qed.

(** Rounding does not cross a multiple of 1/8 below [2^50]: such a number
    is a double, and every quantum used below [2^50] divides 1/8. *)
Lemma fl_le_grid (x : Q) (a : Z) :
  (0 <= x)%Q -> (x <= a # 8)%Q -> a < 2 ^ 53 -> (fl x <= a # 8)%Q.
Proof.
  destruct x as [n d]. unfold fl, Qle. cbn [Qnum Qden].
  intros H0 Hle Ha. destruct n as [| p | p]; [cbn in *; lia | | lia].
  unfold roundPositive.
  pose proof (binade_small (Zpos p) (Zpos d) a ltac:(lia) ltac:(lia) Hle Ha) as He.
  set (e := Z.max (binade (Z.pos p) (Z.pos d)) (-1022)) in *.
  assert (He' : -1022 <= e) by (unfold e; lia).
  destruct (Z.leb_spec 0 (52 - e)) as [_ | Hneg]; [| lia].
  cbn [Qnum Qden].
  assert (Hpos : 0 < 2 ^ (52 - e)) by (apply Z.pow_pos_nonneg; lia).
  rewrite Z2Pos.id by exact Hpos.
  assert (Hsplit : 2 ^ (52 - e) = 8 * 2 ^ (49 - e))
    by (change 8 with (2 ^ 3); rewrite <- Z.pow_add_r by lia; f_equal; lia).
  assert (Hq : 0 < 2 ^ (49 - e)) by (apply Z.pow_pos_nonneg; lia).
  pose proof (roundHalfEven_le (Z.pos p * 2 ^ (52 - e)) (Z.pos d) (a * 2 ^ (49 - e))
                ltac:(lia) ltac:(nia)) as Hr.
  nia.
Qed.

Lemma fl_ge_grid (x : Q) (a : Z) :
  (a # 8 <= x)%Q -> 0 <= a -> a < 2 ^ 53 -> (a # 8 <= fl x)%Q.
Proof.
  destruct x as [n d]. unfold fl, Qle. cbn [Qnum Qden].
  intros Hle H0 Ha. destruct n as [| p | p]; [cbn in *; lia | | lia].
  unfold roundPositive.
  pose proof (pow2_le_spec _ _ _ (binade_below (Zpos p) (Zpos d) ltac:(lia) ltac:(lia)))
    as Hlow.
  set (b := binade (Z.pos p) (Z.pos d)) in *.
  set (e := Z.max b (-1022)).
  assert (He' : -1022 <= e) by (unfold e; lia).
  destruct (Z.le_gt_cases e 49) as [Hsmall | Hbig].
  - destruct (Z.leb_spec 0 (52 - e)) as [_ | Hneg]; [| lia].
    cbn [Qnum Qden].
    assert (Hpos : 0 < 2 ^ (52 - e)) by (apply Z.pow_pos_nonneg; lia).
    rewrite Z2Pos.id by exact Hpos.
    assert (Hsplit : 2 ^ (52 - e) = 8 * 2 ^ (49 - e))
      by (change 8 with (2 ^ 3); rewrite <- Z.pow_add_r by lia; f_equal; lia).
    assert (Hq : 0 < 2 ^ (49 - e)) by (apply Z.pow_pos_nonneg; lia).
    pose proof (roundHalfEven_ge (Z.pos p * 2 ^ (52 - e)) (Z.pos d) (a * 2 ^ (49 - e))
                  ltac:(lia) ltac:(nia)) as Hr.
    nia.
  - assert (Heb : e = b) by (unfold e; lia).
    destruct (Z.leb_spec 0 b) as [_ | Hb]; [| lia].
    destruct (Z.leb_spec 0 (52 - e)) as [Ht | Ht].
    + cbn [Qnum Qden].
      assert (Hpos : 0 < 2 ^ (52 - e)) by (apply Z.pow_pos_nonneg; lia).
      rewrite Z2Pos.id by exact Hpos.
      assert (Hsplit : 2 ^ 52 = 2 ^ b * 2 ^ (52 - e))
        by (rewrite <- Z.pow_add_r by lia; f_equal; lia).
      pose proof (roundHalfEven_ge (Z.pos p * 2 ^ (52 - e)) (Z.pos d) (2 ^ 52)
                    ltac:(lia) ltac:(nia)) as Hr.
      assert (2 ^ (52 - e) <= 2 ^ 2) by (apply Z.pow_le_mono_r; lia).
      change (2 ^ 53) with (2 * 2 ^ 52) in Ha. change (2 ^ 2) with 4 in *.
      assert (0 < 2 ^ 52) by reflexivity. nia.
    + cbn [inject_Z Qnum Qden].
      assert (Hpos : 0 < 2 ^ (- (52 - e))) by (apply Z.pow_pos_nonneg; lia).
      assert (Hsplit : 2 ^ b = 2 ^ 52 * 2 ^ (- (52 - e)))
        by (rewrite <- Z.pow_add_r by lia; f_equal; lia).
      pose proof (roundHalfEven_ge (Z.pos p) (Z.pos d * 2 ^ (- (52 - e))) (2 ^ 52)
                    ltac:(lia) ltac:(nia)) as Hr.
      change (2 ^ 53) with (2 * 2 ^ 52) in Ha.
      assert (0 < 2 ^ 52) by reflexivity. nia.
Qed.

(** A multiple of 1/8 below [2^50] is a double. *)
Lemma fl_grid (a : Z) : 0 <= a -> a < 2 ^ 53 -> (fl (a # 8) == a # 8)%Q.
Proof.
  intros H0 Ha. apply Qle_antisym.
  - apply fl_le_grid; [unfold Qle; cbn; lia | apply Qle_refl | exact Ha].
  - apply fl_ge_grid; [apply Qle_refl | exact H0 | exact Ha].
Qed.

Lemma inject_Z_grid (z : Z) : (inject_Z z == (8 * z) # 8)%Q.
Proof. unfold Qeq, inject_Z. cbn [Qnum Qden]. lia. Qed.

(** An integer below [2^49] is a double. *)
Lemma fl_le_integer (x : Q) (z : Z) :
  (0 <= x)%Q -> (x <= inject_Z z)%Q -> z < 2 ^ 49 -> (fl x <= inject_Z z)%Q.
Proof.
  intros H0 Hle Hz. rewrite inject_Z_grid in *.
  apply fl_le_grid; [exact H0 | exact Hle |].
  change (2 ^ 53) with (8 * 2 ^ 50). change (2 ^ 49) with (2 ^ 49) in Hz.
  assert (2 ^ 49 < 2 ^ 50) by reflexivity. lia.
Qed.

Lemma fl_ge_integer (x : Q) (z : Z) :
  (inject_Z z <= x)%Q -> 0 <= z -> z < 2 ^ 49 -> (inject_Z z <= fl x)%Q.
Proof.
  intros Hle H0 Hz. rewrite inject_Z_grid in *.
  apply fl_ge_grid; [exact Hle | lia |].
  change (2 ^ 53) with (8 * 2 ^ 50). assert (2 ^ 49 < 2 ^ 50) by reflexivity. lia.
Qed.

Lemma Qpower2_integer (k : Z) : 0 <= k -> (Qpower 2 k == inject_Z (2 ^ k))%Q.
Proof. intros Hk. rewrite (Zpower_Qpower 2 k) by exact Hk. reflexivity. Qed.

(** [Math.min(baseDelay * Math.pow(2, n - 1), maxDelay)] is the integer
    [min(b * 2^(n-1), m)]: the product is exact, or above the cap. *)
Lemma capped_exact (b m n : Z) :
  0 < b -> 0 <= m -> m < 2 ^ 49 -> 1 <= n ->
  (Qmin (fmul (inject_Z b) (Math_pow2 (n - 1))) (inject_Z m)
   == inject_Z (Z.min (b * 2 ^ (n - 1)) m))%Q.
Proof.
  intros Hb Hm0 Hm Hn. unfold fmul, Math_pow2.
  set (k := n - 1). assert (Hk : 0 <= k) by lia.
  assert (Hp : 0 < 2 ^ k) by (apply Z.pow_pos_nonneg; lia).
  pose proof (Qpower2_integer k Hk) as Hpow.
  assert (HpQ : (0 <= Qpower 2 k)%Q) by (rewrite Hpow, <- (Zle_Qle 0); lia).
  assert (HbQ : (1 <= inject_Z b)%Q) by (rewrite <- (Zle_Qle 1); lia).
  destruct (Z.le_gt_cases (b * 2 ^ k) m) as [Hle | Hgt].
  - rewrite Z.min_l by exact Hle.
    assert (H2k : 2 ^ k < 2 ^ 49) by nia.
    assert (Hfl : (fl (Qpower 2 k) == inject_Z (2 ^ k))%Q).
    { apply Qle_antisym.
      - apply fl_le_integer; [exact HpQ | rewrite Hpow; apply Qle_refl | exact H2k].
      - apply fl_ge_integer; [rewrite Hpow; apply Qle_refl | lia | exact H2k]. }
    assert (Hprod : (inject_Z b * fl (Qpower 2 k) == inject_Z (b * 2 ^ k))%Q)
      by (rewrite Hfl, inject_Z_mult; reflexivity).
    assert (Hexact : (fl (inject_Z b * fl (Qpower 2 k)) == inject_Z (b * 2 ^ k))%Q).
    { apply Qle_antisym.
      - apply fl_le_integer; [| rewrite Hprod; apply Qle_refl | lia].
        rewrite Hprod, <- (Zle_Qle 0). lia.
      - apply fl_ge_integer; [rewrite Hprod; apply Qle_refl | lia | lia]. }
    rewrite Hexact. apply Q.min_l. rewrite <- Zle_Qle. exact Hle.
  - rewrite Z.min_r by lia. apply Q.min_r.
    apply fl_ge_integer; [| exact Hm0 | exact Hm].
    destruct (Z.le_gt_cases (2 ^ 49) (2 ^ k)) as [Hbig | Hsmall].
    + assert (Hfl : (inject_Z (2 ^ 49) <= fl (Qpower 2 k))%Q).
      { rewrite (inject_Z_grid (2 ^ 49)).
        apply fl_ge_grid; [| lia | reflexivity].
        rewrite <- inject_Z_grid, Hpow, <- Zle_Qle. exact Hbig. }
      assert (HmQ : (inject_Z m <= inject_Z (2 ^ 49))%Q) by (rewrite <- Zle_Qle; lia).
      assert (0 <= inject_Z (2 ^ 49))%Q by (rewrite <- (Zle_Qle 0); lia).
      nra.
    + assert (Hfl : (fl (Qpower 2 k) == inject_Z (2 ^ k))%Q).
      { apply Qle_antisym.
        - apply fl_le_integer; [exact HpQ | rewrite Hpow; apply Qle_refl | exact Hsmall].
        - apply fl_ge_integer; [rewrite Hpow; apply Qle_refl | lia | exact Hsmall]. }
      rewrite Hfl, <- inject_Z_mult, <- Zle_Qle. lia.
Qed.

Lemma cappedDelay_integer (env : Env) (n : Z) :
  (1 <= n)%Z ->
  (0 < baseDelay (retryConfig env))%Z ->
  (0 <= maxDelay (retryConfig env))%Z ->
  (maxDelay (retryConfig env) < 2 ^ 49)%Z ->
  (cappedDelay env n == inject_Z (cappedDelayZ (retryConfig env) n))%Q.
Proof.
  intros Hn Hb Hm0 Hm. unfold cappedDelay, cappedDelayZ.
  apply capped_exact; assumption.
Qed.

Lemma cappedDelayZ_mono (cfg : RetryConfig) (n n' : Z) :
  (0 <= baseDelay cfg)%Z -> (1 <= n)%Z -> (n <= n')%Z ->
  (cappedDelayZ cfg n <= cappedDelayZ cfg n')%Z.
Proof.
  intros Hb Hn Hnn. unfold cappedDelayZ.
  apply Z.min_le_compat_r. apply Z.mul_le_mono_nonneg_l; [exact Hb |].
  apply Z.pow_le_mono_r; lia.
Qed.

(** The double written [0.2]. *)
Lemma fl_two_tenths : fl (2 # 10) = (7205759403792794 # 36028797018963968)%Q.
Proof. vm_compute. reflexivity. Qed.

Lemma fl_nonneg (x : Q) : (0 <= x)%Q -> (0 <= fl x)%Q.
Proof.
  intros H. apply Qle_trans with (0 # 8); [unfold Qle; cbn; lia |].
  apply fl_ge_grid; [| lia | reflexivity].
  apply Qle_trans with 0%Q; [unfold Qle; cbn; lia | exact H].
Qed.

Lemma grid_split (z : Z) : ((8 * z + 7) # 8 == inject_Z z + (7 # 8))%Q.
Proof. unfold Qeq, Qplus, inject_Z. cbn [Qnum Qden]. lia. Qed.

(** [Math.floor(delay + delay * 0.2 * r)], every operation rounded, for an
    integer delay below [2^49] and a draw in [[0, 1)]. *)
Lemma floor_with_jitter (l : Z) (delay r : Q) :
  (delay == inject_Z l)%Q -> 0 <= l -> l < 2 ^ 49 -> (0 <= r)%Q -> (r < 1)%Q ->
  l <= Qfloor (fadd delay (fmul (fmul delay (fl (2 # 10))) r))
  /\ 10 * Qfloor (fadd delay (fmul (fmul delay (fl (2 # 10))) r)) <= 12 * l.
Proof.
  intros Hdelay Hl0 Hl Hr0 Hr1. unfold fadd, fmul. rewrite fl_two_tenths.
  set (k := l / 5).
  assert (Hk : 5 * k <= l /\ l <= 5 * k + 4)
    by (unfold k; pose proof (Z.div_mod l 5 ltac:(lia));
        pose proof (Z.mod_pos_bound l 5 ltac:(lia)); lia).
  assert (Hl49 : 2 ^ 49 = 562949953421312) by reflexivity.
  assert (H53 : 2 ^ 53 = 9007199254740992) by reflexivity.
  assert (HlQ : (0 <= inject_Z l)%Q) by (rewrite <- (Zle_Qle 0); exact Hl0).
  assert (HlQ' : (inject_Z l <= 562949953421312)%Q)
    by (change 562949953421312%Q with (inject_Z 562949953421312);
        rewrite <- Zle_Qle; lia).
  assert (HkQ : (5 * inject_Z k <= inject_Z l)%Q
                /\ (inject_Z l <= 5 * inject_Z k + 4)%Q).
  { change 5%Q with (inject_Z 5). change 4%Q with (inject_Z 4).
    rewrite <- inject_Z_mult, <- inject_Z_plus, <- !Zle_Qle. exact Hk. }
  destruct HkQ as [HkQ1 HkQ2].
  (* delay * 0.2 *)
  set (j1 := fl (delay * (7205759403792794 # 36028797018963968))).
  assert (Hj1 : (0 <= j1)%Q /\ (j1 <= inject_Z k + (7 # 8))%Q).
  { split.
    - apply fl_nonneg. rewrite Hdelay. nra.
    - rewrite <- grid_split. apply fl_le_grid; [rewrite Hdelay; nra | | lia].
      rewrite grid_split, Hdelay. lra. }
  (* ... * Math.random() *)
  set (j := fl (j1 * r)).
  assert (Hj : (0 <= j)%Q /\ (j <= inject_Z k + (7 # 8))%Q).
  { destruct Hj1 as [Ha Hb]. split.
    - apply fl_nonneg. nra.
    - rewrite <- grid_split. apply fl_le_grid; [nra | | lia].
      rewrite grid_split. apply Qle_trans with j1; [nra | exact Hb]. }
  (* delay + jitter *)
  set (s := fl (delay + j)).
  assert (Hs : (inject_Z l <= s)%Q /\ (s <= inject_Z (l + k) + (7 # 8))%Q).
  { destruct Hj as [Ha Hb]. split.
    - apply fl_ge_integer; [| exact Hl0 | exact Hl]. rewrite Hdelay. lra.
    - rewrite <- grid_split. apply fl_le_grid; [rewrite Hdelay; lra | | lia].
      rewrite grid_split, Hdelay, inject_Z_plus. lra. }
  destruct Hs as [Hlow Hup]. split.
  - rewrite <- (Qfloor_Z l). apply Qfloor_resp_le. exact Hlow.
  - assert (Hfloor : Qfloor s <= l + k).
    { assert (Hlt : (s < inject_Z (l + k + 1))%Q).
      { rewrite (inject_Z_plus (l + k) 1). change (inject_Z 1) with 1%Q. lra. }
      pose proof (Qfloor_le s) as Hfl.
      assert (Hz : (inject_Z (Qfloor s) < inject_Z (l + k + 1))%Q)
        by (apply Qle_lt_trans with s; assumption).
      rewrite <- Zlt_Qlt in Hz. lia. }
    lia.
Qed.

(** C8: for every attempt [n >= 1], integer delays [b > 0] and
    [0 <= m < 2^49] and jitter draw [r] in [[0, 1)],
    [calculateBackoffDelay n], computed in binary64, returns a delay [d]
    with [min(b * 2^(n-1), m) <= d <= 1.2 * min(b * 2^(n-1), m)], hence
    [d <= 1.2 * b * 2^(n-1)] and [d <= 1.2 * m]; both end points of the
    interval are non-decreasing in [n]. *)
Theorem calculateBackoffDelay_bounds (env : Env) (n : Z) (w : World) :
  (1 <= n)%Z ->
  (0 < baseDelay (retryConfig env))%Z ->
  (0 <= maxDelay (retryConfig env))%Z ->
  (maxDelay (retryConfig env) < 2 ^ 49)%Z ->
  (0 <= random env (randomCalls w))%Q ->
  (random env (randomCalls w) < 1)%Q ->
  let lo := cappedDelayZ (retryConfig env) n in
  (exists d : Z,
      fst (calculateBackoffDelay env n w) = Returns d
      /\ (lo <= d)%Z /\ (10 * d <= 12 * lo)%Z
      /\ (10 * d <= 12 * (baseDelay (retryConfig env) * 2 ^ (n - 1)))%Z
      /\ (10 * d <= 12 * maxDelay (retryConfig env))%Z)
  /\ (forall n' : Z, (n <= n')%Z ->
        (lo <= cappedDelayZ (retryConfig env) n')%Z
        /\ (12 * lo <= 12 * cappedDelayZ (retryConfig env) n')%Z).
Proof.
  intros Hn Hb Hm0 Hm Hr0 Hr1 lo. split.
  - assert (Hlo : (0 <= lo)%Z).
    { unfold lo, cappedDelayZ. apply Z.min_glb; [| exact Hm0].
      apply Z.mul_nonneg_nonneg; [lia | apply Z.pow_nonneg; lia]. }
    assert (Hlo' : (lo < 2 ^ 49)%Z) by (unfold lo, cappedDelayZ; lia).
    unfold calculateBackoffDelay, bind, mathRandom, ret. cbn [fst].
    eexists. split; [reflexivity |].
    destruct (floor_with_jitter lo (cappedDelay env n) (random env (randomCalls w))
                (cappedDelay_integer env n Hn Hb Hm0 Hm) Hlo Hlo' Hr0 Hr1)
      as [Hlow Hup].
    split; [exact Hlow |]. split; [exact Hup |].
    unfold lo, cappedDelayZ in *. split; lia.
  - intros n' Hnn.
    pose proof (cappedDelayZ_mono (retryConfig env) n n' ltac:(lia) Hn Hnn) as Hmono.
    fold lo in Hmono. split; lia.
Qed.

(** The configured policy, with every jitter draw equal to one half. *)
Definition halfJitterEnv : Env :=
  {| poolConfig := defaultPoolConfig;
     retryConfig := defaultRetryConfig;
     clock := fun k => Z.of_nat k;
     tokenProvider := fun _ => Fulfilled None;
     remote := fun _ => Rejected ThrownUndefined;
     random := fun _ => (1 # 2)%Q;
     globalTenantId := None;
     coercedPositive := fun _ => Some false |}.

(** The theorem at the third attempt of the configured policy: the delay
    is between 4000 and 4800 ms. *)
Lemma calculateBackoffDelay_bounds_witness :
  exists d : Z,
    fst (calculateBackoffDelay halfJitterEnv 3 emptyWorld) = Returns d
    /\ (4000 <= d)%Z /\ (10 * d <= 12 * 4000)%Z.
Proof.
  destruct (calculateBackoffDelay_bounds halfJitterEnv 3 emptyWorld)
    as [(d & Hd & Hlo & Hup & _) _];
    [lia | cbn; lia | cbn; lia | reflexivity | cbn; discriminate | reflexivity |].
  exists d. split; [exact Hd |]. split; [exact Hlo | exact Hup].
Defined.

Example third_attempt_delay :
  fst (calculateBackoffDelay halfJitterEnv 3 emptyWorld) = Returns 4400%Z.
Proof. vm_compute. reflexivity. Qed.

(** The configured policy with a given jitter draw. *)
Definition jitterEnv (r : Q) : Env :=
  {| poolConfig := defaultPoolConfig;
     retryConfig := defaultRetryConfig;
     clock := fun k => Z.of_nat k;
     tokenProvider := fun _ => Fulfilled None;
     remote := fun _ => Rejected ThrownUndefined;
     random := fun _ => r;
     globalTenantId := None;
     coercedPositive := fun _ => Some false |}.

(** Where the rounding shows.  The draw [1/2 - 2^-54] is the double written
    [0.49999999999999994]: the exact sum is below 1100, the rounded sum is
    1100.  With the largest draw, [1 - 2^-53], the delay is the upper end
    point [1.2 * 1000] itself. *)
Example rounded_jitter :
  fst (calculateBackoffDelay (jitterEnv (9007199254740991 # 18014398509481984)) 1
         emptyWorld) = Returns 1100%Z
  /\ Qfloor (1000 + 1000 * (2 # 10) * (9007199254740991 # 18014398509481984)) = 1099%Z
  /\ fst (calculateBackoffDelay (jitterEnv (9007199254740991 # 9007199254740992)) 1
            emptyWorld) = Returns 1200%Z.
Proof. repeat split; vm_compute; reflexivity. Qed.

(** ** The discovery channels of the metadata extractor *)

(** The outcome of a query that the executor gave up on. *)
Definition failedOutcome : QueryOutcome :=
  {| success := false; q_query := ""; q_results := VUndefined;
     q_error := Some "Request failed with status code 400";
     executionTimeMs := 12; q_workspaceId := None; q_datasetId := None;
     q_rowCount := None |}.

(** Every discovery query fails, and so does every REST request. *)
Definition allFailingSvc : Collaborators :=
  {| query_executor := fun _ => Fulfilled failedOutcome;
     makeRequest := fun _ => Rejected (ThrownError (plainError "Not Found"));
     findByPowerBIId :=
       Fulfilled (Some {| dataset_id := "7"; powerbi_dataset_id := "dataset";
                          dataset_name := "Sales"; powerbi_workspace_id := "ws" |});
     database_query := Fulfilled tt;
     reading := fun k => Z.of_nat k |}.

Definition isREST (c : Call) : bool :=
  match c with CallREST _ => true | CallDAX _ => false end.

(** C7, as stated, fails for columns (and relationships): after the
    failed discovery query the extraction returns the empty collection
    without any request to the REST channel. *)
Lemma extractColumns_no_fallback :
  query_executor allFailingSvc INFORMATION_SCHEMA_COLUMNS = Fulfilled failedOutcome
  /\ success failedOutcome = false
  /\ extractColumns allFailingSvc "user" "tenant" "ws" "dataset"
     = ([CallDAX INFORMATION_SCHEMA_COLUMNS], Returns [])
  /\ existsb isREST (fst (extractColumns allFailingSvc "user" "tenant" "ws" "dataset"))
     = false
  /\ existsb isREST (fst (extractRelationships allFailingSvc "user" "tenant" "ws" "dataset"))
     = false.
Proof. repeat split. Qed.

(** The primary query of a category resolved, but without success or
    without rows at [results[0].tables[0]]. *)
Definition noRows (svc : Collaborators) (q : DiscoveryQuery) : Prop :=
  exists result : QueryOutcome,
    query_executor svc q = Fulfilled result
    /\ success result && truthy (resultRows result) = false.

Definition tablesPath (workspaceId datasetId : string) : string :=
  "/groups/" ++ workspaceId ++ "/datasets/" ++ datasetId ++ "/tables".

Definition measuresPath (workspaceId datasetId : string) : string :=
  "/groups/" ++ workspaceId ++ "/datasets/" ++ datasetId ++ "/measures".

Lemma cmap_tame {A B} (f : A -> completion B) (l : list A) :
  (forall a, tame (f a)) -> tame (cmap f l).
Proof.
  intros Hf. induction l as [| a l IH]; cbn; [exact I |].
  apply cbind_tame; [apply Hf |]. intros b.
  apply cbind_tame; [exact IH |]. intros bs. exact I.
Qed.

Lemma array_map_tame (v : value) (f : value -> completion value) :
  (forall a, tame (f a)) -> tame (array_map v f).
Proof. intros Hf. destruct v; cbn; try exact I. apply cmap_tame. exact Hf. Qed.

Lemma named_or_default_tame (row : value) (k : string) (d : value) :
  tame (named_or_default row k d).
Proof.
  unfold named_or_default. apply cbind_tame; [apply get_prop_tame |].
  intros v. exact I.
Qed.

Lemma named_or_position_tame (row : value) (k : string) (i : nat) :
  tame (named_or_position row k i).
Proof.
  unfold named_or_position, get_by_position.
  apply cbind_tame; [apply get_prop_tame |].
  intros v. destruct (truthy v); [exact I | apply get_prop_tame].
Qed.

Ltac tame_steps :=
  repeat first
    [ exact I
    | apply get_prop_tame
    | apply named_or_default_tame
    | apply named_or_position_tame
    | apply cbind_tame
    | intros ? ].

Lemma tableOfRow_tame (row : value) : tame (tableOfRow row).
Proof. unfold tableOfRow. tame_steps. Qed.

Lemma columnOfRow_tame (row : value) : tame (columnOfRow row).
Proof. unfold columnOfRow. tame_steps. Qed.

Lemma measureOfRow_tame (row : value) : tame (measureOfRow row).
Proof. unfold measureOfRow. tame_steps. Qed.

Lemma relationshipOfRow_tame (row : value) : tame (relationshipOfRow row).
Proof. unfold relationshipOfRow. tame_steps. Qed.

Lemma columnOfRestTable_tame (col : value) : tame (columnOfRestTable col).
Proof. unfold columnOfRestTable. tame_steps. Qed.

Lemma tableOfRest_tame (table : value) : tame (tableOfRest table).
Proof.
  unfold tableOfRest. tame_steps.
  match goal with |- tame (match ?c with _ => _ end) => destruct c end;
    try exact I; apply array_map_tame; apply columnOfRestTable_tame.
Qed.

Lemma measureOfRest_tame (measure : value) : tame (measureOfRest measure).
Proof. unfold measureOfRest. tame_steps. Qed.

(** A [catch] that only logs [error.message] and returns the empty list
    turns tame code into code that returns. *)
Lemma tcatch_empty_returns (body : T (list value)) :
  tame (snd body) ->
  exists l,
    tcatch body (fun error => _ <-- tlift (error_message error) ;; tret []) = (fst body, Returns l)
    /\ (forall e, snd body = Throws e -> l = [])
    /\ (forall l0, snd body = Returns l0 -> l = l0).
Proof.
  destruct body as [log [l | [| e] |]]; cbn; intros Ht; try contradiction.
  - exists l. repeat split; [discriminate | congruence].
  - exists []. rewrite app_nil_r. repeat split. discriminate.
Qed.

(** A row that is an object, an array or a primitive, not [null] or
    [undefined]. *)
Definition notNullish (v : value) : Prop :=
  match v with
  | VUndefined | VNull => False
  | _ => True
  end.

Lemma get_prop_returns (v : value) (k : string) :
  notNullish v -> exists r, get_prop v k = Returns r.
Proof.
  destruct v; cbn; intros H; try contradiction; eauto;
    destruct (k =? "length")%string; eauto.
Qed.

Lemma named_or_default_returns (row : value) (k : string) (d : value) :
  notNullish row -> exists r, named_or_default row k d = Returns r.
Proof.
  intros H. unfold named_or_default.
  destruct (get_prop_returns row k H) as [r ->]. cbn. eauto.
Qed.

Lemma named_or_position_returns (row : value) (k : string) (i : nat) :
  notNullish row -> exists r, named_or_position row k i = Returns r.
Proof.
  intros H. unfold named_or_position, get_by_position.
  destruct (get_prop_returns row k H) as [r ->]. cbn.
  destruct (truthy r); [eauto | apply get_prop_returns; exact H].
Qed.

Ltac returns_steps H :=
  repeat
    match goal with
    | |- context [named_or_position ?row ?k ?i] =>
        let E := fresh "E" in
        destruct (named_or_position_returns row k i H) as [? E]; rewrite E;
        clear E; cbn [cbind]
    | |- context [named_or_default ?row ?k ?d] =>
        let E := fresh "E" in
        destruct (named_or_default_returns row k d H) as [? E]; rewrite E;
        clear E; cbn [cbind]
    | |- context [get_prop ?row ?k] =>
        let E := fresh "E" in
        destruct (get_prop_returns row k H) as [? E]; rewrite E;
        clear E; cbn [cbind]
    end.

Lemma tableOfRow_returns (row : value) :
  notNullish row -> exists o, tableOfRow row = Returns o.
Proof. intros H. unfold tableOfRow. returns_steps H. eauto. Qed.

Lemma columnOfRow_returns (row : value) :
  notNullish row -> exists o, columnOfRow row = Returns o.
Proof. intros H. unfold columnOfRow. returns_steps H. eauto. Qed.

Lemma measureOfRow_returns (row : value) :
  notNullish row -> exists o, measureOfRow row = Returns o.
Proof. intros H. unfold measureOfRow. returns_steps H. eauto. Qed.

Lemma relationshipOfRow_returns (row : value) :
  notNullish row -> exists o, relationshipOfRow row = Returns o.
Proof. intros H. unfold relationshipOfRow. returns_steps H. eauto. Qed.

Lemma cmap_returns {A B} (f : A -> completion B) (l : list A) :
  Forall (fun a => exists b, f a = Returns b) l ->
  exists l', cmap f l = Returns l' /\ List.length l' = List.length l.
Proof.
  induction 1 as [| a l [b Hb] _ (l' & Hl' & Hlen)]; cbn.
  - exists []. auto.
  - rewrite Hb. cbn. rewrite Hl'. cbn. exists (b :: l'). cbn. auto.
Qed.

Lemma array_map_rows (f : value -> completion value) (items : list value) :
  (forall row, notNullish row -> exists o, f row = Returns o) ->
  Forall notNullish items ->
  exists l, array_map (VArr items) f = Returns l
            /\ List.length l = List.length items.
Proof.
  intros Hf Hrows. cbn. apply cmap_returns.
  eapply Forall_impl; [| exact Hrows]. exact Hf.
Qed.

(** How the primary and the secondary channel of a category fail. *)
Definition primaryFailed (svc : Collaborators) (q : DiscoveryQuery) : Prop :=
  noRows svc q \/ exists e, query_executor svc q = Rejected (ThrownError e).

Definition restFailed (svc : Collaborators) (path : string) : Prop :=
  (exists e, makeRequest svc path = Rejected e)
  \/ (exists v, makeRequest svc path = Fulfilled v
                /\ truthy (get_opt v "value") = false).

(** The primary channel delivered [items] as rows. *)
Definition primaryRows (svc : Collaborators) (q : DiscoveryQuery)
  (items : list value) : Prop :=
  exists result : QueryOutcome,
    query_executor svc q = Fulfilled result
    /\ success result = true
    /\ resultRows result = VArr items
    /\ Forall notNullish items.

(** What one extraction does, for a primary channel [q], a row mapping
    [ofRow] and the fallback [viaREST] (which may be absent). *)
Definition extraction (svc : Collaborators) (q : DiscoveryQuery)
  (ofRow : value -> completion value) (viaREST : T (list value)) : T (list value) :=
  tcatch
    (result <-- request (CallDAX q) (query_executor svc q) ;;
     if success result && truthy (resultRows result)
     then tlift (array_map (resultRows result) ofRow)
     else viaREST)
    (fun error => _ <-- tlift (error_message error) ;; tret []).

Lemma extraction_spec (svc : Collaborators) (q : DiscoveryQuery)
  (ofRow : value -> completion value) (viaREST : T (list value)) :
  (forall row, tame (ofRow row)) ->
  (forall row, notNullish row -> exists o, ofRow row = Returns o) ->
  tame (snd viaREST) ->
  query_executor svc q <> Rejected ThrownUndefined ->
  exists l,
    snd (extraction svc q ofRow viaREST) = Returns l
    /\ (noRows svc q ->
        fst (extraction svc q ofRow viaREST) = (CallDAX q :: fst viaREST)%list)
    /\ (primaryFailed svc q ->
        (forall l0, snd viaREST = Returns l0 -> l0 = []) -> l = [])
    /\ (forall items, primaryRows svc q items ->
        List.length l = List.length items
        /\ fst (extraction svc q ofRow viaREST) = [CallDAX q]).
Proof.
  intros Htame Hret Hrest Hq. unfold extraction, tcatch, tbind, request, tlift, tret.
  unfold primaryFailed, primaryRows, noRows.
  destruct (query_executor svc q) as [r | [| e]] eqn:Hexec; [| contradiction |].
  - destruct (success r && truthy (resultRows r)) eqn:Hcond.
    + pose proof (array_map_tame (resultRows r) ofRow Htame) as Hmap.
      destruct (array_map (resultRows r) ofRow) as [l | [| e] |] eqn:Hmapped;
        cbn in Hmap; try contradiction; cbn.
      * exists l. split; [reflexivity |]. split; [| split].
        -- intros (r' & Hr' & Hc). injection Hr' as <-. congruence.
        -- intros [(r' & Hr' & Hc) | (e & He)] _; [| discriminate].
           injection Hr' as <-. congruence.
        -- intros items (r' & Hr' & Hs & Hrows & Hall). injection Hr' as <-.
           rewrite Hrows in Hmapped.
           destruct (array_map_rows ofRow items Hret Hall) as (l' & Hl' & Hlen).
           split; [congruence | reflexivity].
      * exists []. split; [reflexivity |]. split; [| split].
        -- intros (r' & Hr' & Hc). injection Hr' as <-. congruence.
        -- reflexivity.
        -- intros items (r' & Hr' & Hs & Hrows & Hall). injection Hr' as <-.
           rewrite Hrows in Hmapped.
           destruct (array_map_rows ofRow items Hret Hall) as (l' & Hl' & Hlen).
           congruence.
    + destruct viaREST as [log [l | [| e] |]]; cbn in Hrest; try contradiction; cbn.
      * exists l. split; [reflexivity |]. split; [| split].
        -- intros _. reflexivity.
        -- intros _ Hl. apply Hl. reflexivity.
        -- intros items (r' & Hr' & Hs & Hrows & Hall). injection Hr' as <-.
           rewrite Hs, Hrows in Hcond. discriminate Hcond.
      * exists []. split; [reflexivity |]. split; [| split].
        -- intros _. rewrite app_nil_r. reflexivity.
        -- reflexivity.
        -- intros items (r' & Hr' & Hs & Hrows & Hall). injection Hr' as <-.
           rewrite Hs, Hrows in Hcond. discriminate Hcond.
  - cbn. exists []. split; [reflexivity |]. split; [| split].
    + intros (r' & Hr' & _). discriminate Hr'.
    + reflexivity.
    + intros items (r' & Hr' & _). discriminate Hr'.
Qed.

Lemma viaREST_spec (svc : Collaborators) (path : string)
  (ofEntry : value -> completion value) :
  (forall entry, tame (ofEntry entry)) ->
  let viaREST :=
    tcatch
      (response <-- request (CallREST path) (makeRequest svc path) ;;
       let v := get_opt response "value" in
       if truthy v then tlift (array_map v ofEntry) else tret [])
      (fun error => _ <-- tlift (error_message error) ;; tret []) in
  fst viaREST = [CallREST path]
  /\ tame (snd viaREST)
  /\ (restFailed svc path -> forall l0, snd viaREST = Returns l0 -> l0 = []).
Proof.
  intros Htame. cbv zeta. unfold restFailed, tcatch, tbind, request, tlift, tret.
  destruct (makeRequest svc path) as [v | [| e]] eqn:Hreq; cbn.
  - destruct (truthy (get_opt v "value")) eqn:Hv; cbn.
    + pose proof (array_map_tame (get_opt v "value") ofEntry Htame) as Hmap.
      destruct (array_map (get_opt v "value") ofEntry) as [l | [| e] |];
        cbn in Hmap; try contradiction; cbn.
      * repeat split. intros [(e & He) | (v' & Hv' & Hf)]; [discriminate |].
        injection Hv' as <-. congruence.
      * repeat split. intros _ l0 H. congruence.
    + repeat split. intros _ l0 H. congruence.
  - repeat split. intros _ l0 H. discriminate H.
  - repeat split. intros _ l0 H. congruence.
Qed.

Lemma extractTablesViaREST_spec (svc : Collaborators) (u ws d : string) :
  fst (extractTablesViaREST svc u ws d) = [CallREST (tablesPath ws d)]
  /\ tame (snd (extractTablesViaREST svc u ws d))
  /\ (restFailed svc (tablesPath ws d) ->
      forall l0, snd (extractTablesViaREST svc u ws d) = Returns l0 -> l0 = []).
Proof. exact (viaREST_spec svc (tablesPath ws d) tableOfRest tableOfRest_tame). Qed.

Lemma extractMeasuresViaREST_spec (svc : Collaborators) (u ws d : string) :
  fst (extractMeasuresViaREST svc u ws d) = [CallREST (measuresPath ws d)]
  /\ tame (snd (extractMeasuresViaREST svc u ws d))
  /\ (restFailed svc (measuresPath ws d) ->
      forall l0, snd (extractMeasuresViaREST svc u ws d) = Returns l0 -> l0 = []).
Proof. exact (viaREST_spec svc (measuresPath ws d) measureOfRest measureOfRest_tame). Qed.

(** The four extractions are instances of one shape; the columns and the
    relationships have [return []] where the other two call the REST
    channel. *)
Lemma extractTables_shape (svc : Collaborators) (u t ws d : string) :
  extractTables svc u t ws d
  = extraction svc INFORMATION_SCHEMA_TABLES tableOfRow (extractTablesViaREST svc u ws d).
Proof. reflexivity. Qed.

Lemma extractMeasures_shape (svc : Collaborators) (u t ws d : string) :
  extractMeasures svc u t ws d
  = extraction svc INFORMATION_SCHEMA_MEASURES measureOfRow
      (extractMeasuresViaREST svc u ws d).
Proof. reflexivity. Qed.

Lemma extractColumns_shape (svc : Collaborators) (u t ws d : string) :
  extractColumns svc u t ws d
  = extraction svc INFORMATION_SCHEMA_COLUMNS columnOfRow (tret []).
Proof. reflexivity. Qed.

Lemma extractRelationships_shape (svc : Collaborators) (u t ws d : string) :
  extractRelationships svc u t ws d
  = extraction svc INFORMATION_SCHEMA_RELATIONSHIPS relationshipOfRow (tret []).
Proof. reflexivity. Qed.

(** C7, amended: for tables and for measures, when the discovery query
    resolves without success or without rows, the extraction sends one
    request to the REST channel before it returns.  For columns and for
    relationships there is no secondary channel: in the same situation the
    extraction returns the empty collection after the discovery query
    alone. *)
Theorem rest_fallback_for_tables_and_measures (svc : Collaborators)
  (u t ws d : string) :
  (noRows svc INFORMATION_SCHEMA_TABLES ->
     fst (extractTables svc u t ws d)
     = [CallDAX INFORMATION_SCHEMA_TABLES; CallREST (tablesPath ws d)]
     /\ exists l, snd (extractTables svc u t ws d) = Returns l)
  /\ (noRows svc INFORMATION_SCHEMA_MEASURES ->
     fst (extractMeasures svc u t ws d)
     = [CallDAX INFORMATION_SCHEMA_MEASURES; CallREST (measuresPath ws d)]
     /\ exists l, snd (extractMeasures svc u t ws d) = Returns l)
  /\ (noRows svc INFORMATION_SCHEMA_COLUMNS ->
     extractColumns svc u t ws d = ([CallDAX INFORMATION_SCHEMA_COLUMNS], Returns []))
  /\ (noRows svc INFORMATION_SCHEMA_RELATIONSHIPS ->
     extractRelationships svc u t ws d
     = ([CallDAX INFORMATION_SCHEMA_RELATIONSHIPS], Returns [])).
Proof.
  assert (Hq : forall q, noRows svc q -> query_executor svc q <> Rejected ThrownUndefined).
  { intros q (r & Hr & _). rewrite Hr. discriminate. }
  split; [| split; [| split]]; intros Hno.
  - destruct (extractTablesViaREST_spec svc u ws d) as (Hlog & Htame & _).
    rewrite extractTables_shape.
    destruct (extraction_spec svc INFORMATION_SCHEMA_TABLES tableOfRow
                (extractTablesViaREST svc u ws d)
                tableOfRow_tame tableOfRow_returns Htame (Hq _ Hno))
      as (l & Hl & Hfst & _).
    rewrite (Hfst Hno), Hlog. split; [reflexivity | eauto].
  - destruct (extractMeasuresViaREST_spec svc u ws d) as (Hlog & Htame & _).
    rewrite extractMeasures_shape.
    destruct (extraction_spec svc INFORMATION_SCHEMA_MEASURES measureOfRow
                (extractMeasuresViaREST svc u ws d)
                measureOfRow_tame measureOfRow_returns Htame (Hq _ Hno))
      as (l & Hl & Hfst & _).
    rewrite (Hfst Hno), Hlog. split; [reflexivity | eauto].
  - rewrite extractColumns_shape.
    destruct (extraction_spec svc INFORMATION_SCHEMA_COLUMNS columnOfRow (tret [])
                columnOfRow_tame columnOfRow_returns I (Hq _ Hno))
      as (l & Hl & Hfst & Hfail & _).
    specialize (Hfst Hno).
    assert (l = []) as ->.
    { apply Hfail; [left; exact Hno |]. intros l0 H. cbn in H. congruence. }
    destruct (extraction _ _ _ _) as [log r]. cbn in *. congruence.
  - rewrite extractRelationships_shape.
    destruct (extraction_spec svc INFORMATION_SCHEMA_RELATIONSHIPS relationshipOfRow
                (tret []) relationshipOfRow_tame relationshipOfRow_returns I (Hq _ Hno))
      as (l & Hl & Hfst & Hfail & _).
    specialize (Hfst Hno).
    assert (l = []) as ->.
    { apply Hfail; [left; exact Hno |]. intros l0 H. cbn in H. congruence. }
    destruct (extraction _ _ _ _) as [log r]. cbn in *. congruence.
Qed.

(** The theorem where every channel fails: tables go to the REST channel,
    columns do not. *)
Lemma rest_fallback_for_tables_and_measures_witness :
  fst (extractTables allFailingSvc "user" "tenant" "ws" "dataset")
  = [CallDAX INFORMATION_SCHEMA_TABLES; CallREST "/groups/ws/datasets/dataset/tables"]
  /\ extractColumns allFailingSvc "user" "tenant" "ws" "dataset"
     = ([CallDAX INFORMATION_SCHEMA_COLUMNS], Returns []).
Proof.
  assert (Hno : forall q, noRows allFailingSvc q).
  { intros q. exists failedOutcome. split; reflexivity. }
  destruct (rest_fallback_for_tables_and_measures allFailingSvc
              "user" "tenant" "ws" "dataset") as (Ht & _ & Hc & _).
  split; [exact (proj1 (Ht (Hno _))) | exact (Hc (Hno _))].
Defined.

(** ** Best-effort aggregation *)

(** The answer of the tables query: one table, [Sales]. *)
Definition tablesOutcome : QueryOutcome :=
  {| success := true; q_query := "";
     q_results :=
       VObj [("results",
              VArr [VObj [("tables",
                           VArr [VObj [("rows",
                                        VArr [VObj [("TableName", VStr "Sales")]])]])]])];
     q_error := None; executionTimeMs := 12;
     q_workspaceId := Some "ws"; q_datasetId := Some "dataset";
     q_rowCount := Some (VNum 1) |}.

(** The tables query succeeds; the other three queries fail, and so does
    every REST request. *)
Definition onlyTablesSvc : Collaborators :=
  {| query_executor :=
       fun q => match q with
                | INFORMATION_SCHEMA_TABLES => Fulfilled tablesOutcome
                | _ => Fulfilled failedOutcome
                end;
     makeRequest := fun _ => Rejected (ThrownError (plainError "Not Found"));
     findByPowerBIId :=
       Fulfilled (Some {| dataset_id := "7"; powerbi_dataset_id := "dataset";
                          dataset_name := "Sales"; powerbi_workspace_id := "ws" |});
     database_query := Fulfilled tt;
     reading := fun k => Z.of_nat k |}.

(** C2 fails on the code: with one category succeeding and three failing,
    the snapshot has the one collection populated and the other three
    empty, but all four flags of [extractionMethods] are [true].  The
    flags are computed from [status === 'fulfilled'], and an extraction
    that fails still fulfils: it catches its own failure and returns the
    empty collection. *)
Lemma extractionMethods_all_true_after_failures :
  primaryFailed onlyTablesSvc INFORMATION_SCHEMA_MEASURES
  /\ primaryFailed onlyTablesSvc INFORMATION_SCHEMA_RELATIONSHIPS
  /\ primaryFailed onlyTablesSvc INFORMATION_SCHEMA_COLUMNS
  /\ exists md : Metadata,
       snd (extractCompleteMetadata onlyTablesSvc "user" "tenant" "ws" "dataset")
       = Returns md
       /\ List.length (md_tables md) = 1%nat
       /\ md_measures md = [] /\ md_relationships md = [] /\ md_columns md = []
       /\ extractionMethods md
          = {| em_tables := true; em_measures := true;
               em_relationships := true; em_columns := true |}
       /\ extractionMethods md
          <> {| em_tables := true; em_measures := false;
                em_relationships := false; em_columns := false |}.
Proof.
  assert (Hfail : forall q, q <> INFORMATION_SCHEMA_TABLES ->
                            primaryFailed onlyTablesSvc q).
  { intros q Hq. left. exists failedOutcome.
    destruct q; [contradiction | | |]; split; reflexivity. }
  split; [apply Hfail; discriminate |].
  split; [apply Hfail; discriminate |].
  split; [apply Hfail; discriminate |].
  eexists. split; [vm_compute; reflexivity |].
  repeat split. discriminate.
Qed.

(** What the aggregation does deliver: when the dataset is found and
    the snapshot can be stored, [extractCompleteMetadata] returns a
    snapshot whatever happens to the four extractions.  Each collection is what its extraction resolved
    to: the mapped rows where the discovery query delivered rows, the empty
    collection where the channels of the category failed.  Every flag of
    [extractionMethods] is [true], also for the categories that failed,
    because every extraction catches its own failure and resolves. *)
Theorem extractCompleteMetadata_best_effort (svc : Collaborators)
  (u t ws d : string) (dataset : Dataset) :
  findByPowerBIId svc = Fulfilled (Some dataset) ->
  database_query svc = Fulfilled tt ->
  (forall q, query_executor svc q <> Rejected ThrownUndefined) ->
  exists md : Metadata,
    snd (extractCompleteMetadata svc u t ws d) = Returns md
    /\ extractionMethods md
       = {| em_tables := true; em_measures := true;
            em_relationships := true; em_columns := true |}
    /\ (snd (extractTables svc u t ws d) = Returns (md_tables md)
        /\ snd (extractMeasures svc u t ws d) = Returns (md_measures md)
        /\ snd (extractRelationships svc u t ws d) = Returns (md_relationships md)
        /\ snd (extractColumns svc u t ws d) = Returns (md_columns md))
    /\ ((primaryFailed svc INFORMATION_SCHEMA_TABLES ->
         restFailed svc (tablesPath ws d) -> md_tables md = [])
        /\ (primaryFailed svc INFORMATION_SCHEMA_MEASURES ->
            restFailed svc (measuresPath ws d) -> md_measures md = [])
        /\ (primaryFailed svc INFORMATION_SCHEMA_RELATIONSHIPS ->
            md_relationships md = [])
        /\ (primaryFailed svc INFORMATION_SCHEMA_COLUMNS -> md_columns md = []))
    /\ ((forall items, primaryRows svc INFORMATION_SCHEMA_TABLES items ->
           List.length (md_tables md) = List.length items)
        /\ (forall items, primaryRows svc INFORMATION_SCHEMA_MEASURES items ->
              List.length (md_measures md) = List.length items)
        /\ (forall items, primaryRows svc INFORMATION_SCHEMA_RELATIONSHIPS items ->
              List.length (md_relationships md) = List.length items)
        /\ (forall items, primaryRows svc INFORMATION_SCHEMA_COLUMNS items ->
              List.length (md_columns md) = List.length items)).
Proof.
  intros Hfind Hstore Hq.
  destruct (extractTablesViaREST_spec svc u ws d) as (_ & HtameT & HrestT).
  destruct (extractMeasuresViaREST_spec svc u ws d) as (_ & HtameM & HrestM).
  destruct (extraction_spec svc INFORMATION_SCHEMA_TABLES tableOfRow
              (extractTablesViaREST svc u ws d)
              tableOfRow_tame tableOfRow_returns HtameT (Hq _))
    as (lT & HT & _ & HfailT & HrowsT).
  destruct (extraction_spec svc INFORMATION_SCHEMA_MEASURES measureOfRow
              (extractMeasuresViaREST svc u ws d)
              measureOfRow_tame measureOfRow_returns HtameM (Hq _))
    as (lM & HM & _ & HfailM & HrowsM).
  destruct (extraction_spec svc INFORMATION_SCHEMA_RELATIONSHIPS relationshipOfRow
              (tret []) relationshipOfRow_tame relationshipOfRow_returns I (Hq _))
    as (lR & HR & _ & HfailR & HrowsR).
  destruct (extraction_spec svc INFORMATION_SCHEMA_COLUMNS columnOfRow
              (tret []) columnOfRow_tame columnOfRow_returns I (Hq _))
    as (lC & HC & _ & HfailC & HrowsC).
  rewrite <- extractTables_shape with (u := u) (t := t) in HT, HrowsT.
  rewrite <- extractMeasures_shape with (u := u) (t := t) in HM, HrowsM.
  rewrite <- extractRelationships_shape with (u := u) (t := t) (ws := ws) (d := d)
    in HR, HrowsR.
  rewrite <- extractColumns_shape with (u := u) (t := t) (ws := ws) (d := d)
    in HC, HrowsC.
  unfold extractCompleteMetadata, storeMetadata. rewrite Hfind, Hstore.
  destruct (extractTables svc u t ws d) as [logT rT]. cbn in HT. subst rT.
  destruct (extractMeasures svc u t ws d) as [logM rM]. cbn in HM. subst rM.
  destruct (extractRelationships svc u t ws d) as [logR rR]. cbn in HR. subst rR.
  destruct (extractColumns svc u t ws d) as [logC rC]. cbn in HC. subst rC.
  cbn. eexists. split; [reflexivity |]. cbn.
  split; [reflexivity |]. split; [repeat split |]. split.
  - split; [| split; [| split]].
    + intros Hp Hr. apply HfailT; [exact Hp | exact (HrestT Hr)].
    + intros Hp Hr. apply HfailM; [exact Hp | exact (HrestM Hr)].
    + intros Hp. apply HfailR; [exact Hp |]. intros l0 H. cbn in H. congruence.
    + intros Hp. apply HfailC; [exact Hp |]. intros l0 H. cbn in H. congruence.
  - split; [| split; [| split]]; intros items Hrows.
    + exact (proj1 (HrowsT items Hrows)).
    + exact (proj1 (HrowsM items Hrows)).
    + exact (proj1 (HrowsR items Hrows)).
    + exact (proj1 (HrowsC items Hrows)).
Qed.

(** The theorem in the run where only the tables query succeeds. *)
Lemma extractCompleteMetadata_best_effort_witness :
  exists md : Metadata,
    snd (extractCompleteMetadata onlyTablesSvc "user" "tenant" "ws" "dataset")
    = Returns md
    /\ extractionMethods md
       = {| em_tables := true; em_measures := true;
            em_relationships := true; em_columns := true |}
    /\ md_columns md = [].
Proof.
  destruct (extractCompleteMetadata_best_effort onlyTablesSvc
              "user" "tenant" "ws" "dataset"
              {| dataset_id := "7"; powerbi_dataset_id := "dataset";
                 dataset_name := "Sales"; powerbi_workspace_id := "ws" |})
    as (md & Hmd & Hflags & _ & (_ & _ & _ & Hcols) & _).
  - reflexivity.
  - reflexivity.
  - intros q. destruct q; discriminate.
  - exists md. split; [exact Hmd |]. split; [exact Hflags |].
    apply Hcols. left. exists failedOutcome. split; reflexivity.
Defined.

(** ** What [executeWithRetry] never does *)

(** No call of [invalidateConnection] between the two worlds. *)
Definition sameInvalidations (w w' : World) : Prop :=
  invalidationsIn (trace w') = invalidationsIn (trace w).

Lemma sameInvalidations_refl (w : World) : sameInvalidations w w.
Proof. reflexivity. Qed.

Lemma sameInvalidations_trans (w1 w2 w3 : World) :
  sameInvalidations w1 w2 -> sameInvalidations w2 w3 -> sameInvalidations w1 w3.
Proof. unfold sameInvalidations. congruence. Qed.

Lemma invalidationsIn_app (events : list Event) (ev : Event) :
  invalidationsIn (events ++ [ev])
  = (invalidationsIn events
     + match ev with EvInvalidate _ => 1 | _ => 0 end)%nat.
Proof.
  unfold invalidationsIn. rewrite filter_app, length_app.
  destruct ev; reflexivity.
Qed.

Lemma now_sameInvalidations (env : Env) : preserves sameInvalidations (now env).
Proof. intros w. split; [reflexivity | discriminate]. Qed.

Lemma mathRandom_sameInvalidations (env : Env) :
  preserves sameInvalidations (mathRandom env).
Proof. intros w. split; [reflexivity | discriminate]. Qed.

Lemma getValidToken_sameInvalidations (env : Env) (u : string) :
  preserves sameInvalidations (getValidToken env u).
Proof.
  intros w. unfold getValidToken, sameInvalidations, await, ret, throw.
  destruct (tokenProvider env (tokenCalls w)); cbn [fst snd trace];
    (split; [rewrite invalidationsIn_app; lia | discriminate]).
Qed.

Lemma raceWithTimeout_sameInvalidations (env : Env) (ws d q : string) :
  preserves sameInvalidations (raceWithTimeout env ws d q).
Proof.
  intros w. unfold raceWithTimeout, sameInvalidations, await, ret, throw.
  destruct (remote env (remoteCalls w)); cbn [fst snd trace];
    (split; [rewrite invalidationsIn_app; lia | discriminate]).
Qed.

Lemma sleep_sameInvalidations (ms : Z) : preserves sameInvalidations (sleep ms).
Proof.
  intros w. unfold sleep, emit, modify, sameInvalidations. cbn [fst snd trace].
  split; [rewrite invalidationsIn_app; lia | discriminate].
Qed.

Ltac frame_invalidations :=
  repeat first
    [ apply now_sameInvalidations
    | apply raceWithTimeout_sameInvalidations
    | apply getValidToken_sameInvalidations
    | apply mathRandom_sameInvalidations
    | apply sleep_sameInvalidations
    | frame_step sameInvalidations_refl sameInvalidations_trans
    | solve [unfold sameInvalidations; cbn; auto]
    | progress unfold log_error_message, poolSet, poolDelete, set_pool,
        set_poolStats, set_execStats ].

Lemma getConnection_sameInvalidations (env : Env) (u t ws : string) :
  preserves sameInvalidations (getConnection env u t ws).
Proof.
  unfold getConnection, isConnectionValid, createAndInsert, createConnection,
    findOldestConnection.
  frame_invalidations.
Qed.

Section UnresolvableTenantId.

Variable env : Env.
Hypothesis tenantId_unresolvable : globalTenantId env = None.

Lemma attemptQuery_sameInvalidations (u ws d q : string) (attempt : Z) :
  preserves sameInvalidations (attemptQuery env u ws d q attempt).
Proof.
  unfold attemptQuery, calculateBackoffDelay, invalidateWithFreeTenantId,
    executeSingleQuery.
  rewrite tenantId_unresolvable. frame_invalidations.
Qed.

Lemma retryLoop_sameInvalidations (u ws d q : string) (fuel : nat) :
  forall (attempt : Z) (lastError : thrown),
    (Z.to_nat (maxRetries (retryConfig env) - attempt) <= fuel)%nat ->
    preserves sameInvalidations (retryLoop env fuel u ws d q attempt lastError).
Proof.
  induction fuel as [| fuel IH]; intros attempt lastError Hfuel; cbn [retryLoop];
    destruct (Z.ltb_spec attempt (maxRetries (retryConfig env))) as [Hlt | Hge];
    try (apply (preserves_throw _ sameInvalidations_refl)).
  - lia.
  - apply (preserves_bind _ sameInvalidations_trans);
      [apply attemptQuery_sameInvalidations |].
    intros [result | e | e].
    + apply (preserves_ret _ sameInvalidations_refl).
    + apply (preserves_throw _ sameInvalidations_refl).
    + apply IH. lia.
Qed.

(** X20: with [tenantId] unresolvable, as it is in the module as written,
    no run of [executeDAXQuery], whatever the remote service answers, ever
    reaches [invalidateConnection]. *)
Lemma executeDAXQuery_never_invalidates (u t ws d q : string) (w : World) :
  invalidationsIn (trace (snd (executeDAXQuery env u t ws d q w)))
  = invalidationsIn (trace w).
Proof.
  assert (H : preserves sameInvalidations (executeDAXQuery env u t ws d q)).
  { unfold executeDAXQuery, executeDAXQuery_try, executeWithRetry.
    repeat first
      [ apply getConnection_sameInvalidations
      | apply retryLoop_sameInvalidations; lia
      | apply (preserves_lift _ sameInvalidations_refl);
        apply tame_completes;
        match goal with
        | |- tame (extractRowCount ?e ?v) =>
            destruct (extractRowCount_returns e v) as (n & ->); exact I
        end
      | frame_invalidations ]. }
  exact (proj1 (H w)).
Qed.

End UnresolvableTenantId.

(** ** What the retry loop does *)

(** [executeDAXQuery] rejects only when its own [catch] fails to read
    [error.message]; what it then throws is that [TypeError], an object. *)
Lemma executeDAXQuery_rejects_with_object (env : Env) (u t ws d q : string)
  (w : World) :
  fst (executeDAXQuery env u t ws d q w) <> Throws ThrownUndefined.
Proof.
  unfold executeDAXQuery, bind, now, set_execStats, modify.
  match goal with
  | |- context [executeDAXQuery_try env ?s u t ws d q ?x] => generalize x
  end.
  intros w1. cbn [fst]. unfold executeDAXQuery_try, try_catch.
  match goal with
  | |- context [match ?body w1 with _ => _ end] =>
      destruct (body w1) as [[o | e |] w2] eqn:Hbody
  end; cbn; try discriminate.
  unfold bind, now, set_execStats, modify, lift, ret.
  destruct e; cbn; discriminate.
Qed.

(** X21: a first attempt that fails with an error classified as not
    retryable is the only attempt: the loop throws that error at once. *)
Lemma fatal_error_single_attempt (env : Env) (u ws d q : string)
  (c : Connection) (w : World) (e : thrown) :
  (0 < maxRetries (retryConfig env))%Z ->
  remote env (remoteCalls w) = Rejected e ->
  isRetryableError e = Returns false ->
  fst (executeWithRetry env u ws d q c w) = Throws e
  /\ remoteCalls (snd (executeWithRetry env u ws d q c w)) = S (remoteCalls w)
  /\ trace (snd (executeWithRetry env u ws d q c w))
     = (trace w ++ [EvRemoteQuery ws d q])%list.
Proof.
  intros Hmax Hremote Hfatal. unfold executeWithRetry.
  destruct (Z.to_nat (maxRetries (retryConfig env))) as [| fuel] eqn:Hfuel; [lia |].
  cbn [retryLoop].
  destruct (Z.ltb_spec 0 (maxRetries (retryConfig env))) as [_ | Hge]; [| lia].
  cbv beta iota delta [bind attemptQuery try_catch executeSingleQuery
                         raceWithTimeout lift].
  rewrite Hremote. cbn. rewrite Hfatal. cbn. auto.
Qed.

Section TransientFailures.

Variable env : Env.

(** The error of the [k]-th remote call. *)
Variable failure : nat -> JsError.

Hypothesis always_fails :
  forall k, remote env k = Rejected (ThrownError (failure k)).
Hypothesis always_retryable :
  forall k, isRetryableError (ThrownError (failure k)) = Returns true.
Hypothesis never_invalidating :
  forall k, shouldInvalidateConnection (ThrownError (failure k)) = Returns false.

Lemma attemptsIn_app (events : list Event) (ev : Event) :
  attemptsIn (events ++ [ev])
  = (attemptsIn events
     + match ev with EvRemoteQuery _ _ _ => 1 | _ => 0 end)%nat.
Proof.
  unfold attemptsIn. rewrite filter_app, length_app.
  destruct ev; reflexivity.
Qed.

Lemma attemptQuery_transient (u ws d q : string) (attempt : Z) (w : World) :
  exists w' : World,
    attemptQuery env u ws d q attempt w
    = (Returns (if (attempt >=? maxRetries (retryConfig env))%Z
                then Break (ThrownError (failure (remoteCalls w)))
                else NextAttempt (ThrownError (failure (remoteCalls w)))), w')
    /\ remoteCalls w' = S (remoteCalls w)
    /\ attemptsIn (trace w') = S (attemptsIn (trace w)).
Proof.
  cbv beta iota delta [attemptQuery try_catch bind executeSingleQuery
                         raceWithTimeout lift].
  rewrite always_fails. cbv beta iota delta [await throw].
  rewrite always_retryable. cbv beta iota delta [negb].
  destruct (attempt >=? maxRetries (retryConfig env))%Z.
  - eexists. split; [reflexivity |]. cbn [remoteCalls trace].
    rewrite attemptsIn_app. split; [reflexivity | lia].
  - cbv beta iota delta [calculateBackoffDelay mathRandom sleep emit modify
                           bind ret].
    rewrite never_invalidating. cbv beta iota.
    eexists. split; [reflexivity |]. cbn [remoteCalls trace].
    rewrite !attemptsIn_app. split; [reflexivity | lia].
Qed.

Lemma retryLoop_exhausts (u ws d q : string) (fuel : nat) :
  forall (attempt : Z) (lastError : thrown) (w : World),
    (0 <= attempt)%Z ->
    (attempt < maxRetries (retryConfig env))%Z ->
    fuel = Z.to_nat (maxRetries (retryConfig env) - attempt) ->
    let r := retryLoop env fuel u ws d q attempt lastError w in
    fst r = Throws (ThrownError (failure (remoteCalls w + fuel - 1)))
    /\ remoteCalls (snd r) = (remoteCalls w + fuel)%nat
    /\ attemptsIn (trace (snd r)) = (attemptsIn (trace w) + fuel)%nat.
Proof.
  induction fuel as [| fuel IH]; intros attempt lastError w H0 Hlt Hfuel; [lia |].
  cbn [retryLoop].
  destruct (Z.ltb_spec attempt (maxRetries (retryConfig env))) as [_ | Hge]; [| lia].
  unfold bind.
  destruct (attemptQuery_transient u ws d q (attempt + 1) w)
    as (w1 & -> & Hcalls & Hattempts).
  destruct (Z.geb_spec (attempt + 1) (maxRetries (retryConfig env))) as [Hlast | Hmore].
  - assert (fuel = 0%nat) as -> by lia.
    cbn [fst snd throw]. rewrite Hcalls, Hattempts.
    replace (remoteCalls w + 1 - 1)%nat with (remoteCalls w) by lia.
    repeat split; lia.
  - specialize (IH (attempt + 1)%Z (ThrownError (failure (remoteCalls w))) w1).
    cbv zeta in IH. destruct IH as (Hres & Hc & Ha); [lia | lia | lia |].
    rewrite Hres, Hc, Ha, Hcalls, Hattempts.
    split; [do 3 f_equal; lia | split; lia].
Qed.

(** X22: when every attempt fails with a retryable error that does not ask
    for an invalidation, the messages of the errors being ASCII text, the
    loop makes exactly [maxRetries] attempts and throws the last error it
    saw. *)
Lemma transient_errors_exhaust_the_budget (u ws d q : string) (c : Connection)
  (w : World) :
  (forall k, asciiMessage (failure k) = true) ->
  (0 < maxRetries (retryConfig env))%Z ->
  let r := executeWithRetry env u ws d q c w in
  let n := Z.to_nat (maxRetries (retryConfig env)) in
  fst r = Throws (ThrownError (failure (remoteCalls w + n - 1)))
  /\ attemptsIn (trace (snd r)) = (attemptsIn (trace w) + n)%nat.
Proof.
  intros _ Hmax. cbv zeta. unfold executeWithRetry.
  destruct (retryLoop_exhausts u ws d q (Z.to_nat (maxRetries (retryConfig env)))
              0%Z ThrownUndefined w) as (Hres & _ & Hattempts);
    [lia | lia | f_equal; lia |].
  split; assumption.
Qed.

End TransientFailures.

(** The lemma at the configured policy, with a service that times out on
    every attempt: three attempts, and the time-out is reported. *)
Example three_timeouts :
  let env := failingEnv (plainError "Query timeout after 30000ms") in
  let run := executeDAXQuery env "user" "tenant" "ws" "dataset" "EVALUATE Sales"
               emptyWorld in
  attemptsIn (trace (snd run)) = 3%nat
  /\ option_map q_error
       (match fst run with Returns o => Some o | _ => None end)
     = Some (Some "Query timeout after 30000ms").
Proof. intros env run. split; vm_compute; reflexivity. Qed.

(** ** When the pool does stay within its size *)

Lemma map_set_length_le (m : PoolMap) (k : string) (c : Connection) :
  (List.length (map_set m k c) <= S (List.length m))%nat.
Proof.
  induction m as [| [k' c'] m IH]; cbn; [lia |].
  destruct (k =? k')%string; cbn; lia.
Qed.

Lemma map_set_length_present (m : PoolMap) (k : string) (c : Connection) :
  map_has m k = true -> List.length (map_set m k c) = List.length m.
Proof.
  induction m as [| [k' c'] m IH]; cbn; [discriminate |].
  destruct (k =? k')%string; cbn; [reflexivity |].
  intros H. rewrite (IH H). reflexivity.
Qed.

Lemma map_set_In (m : PoolMap) (k : string) (c : Connection) (k0 : string)
  (c0 : Connection) :
  In (k0, c0) (map_set m k c) -> c0 = c \/ In (k0, c0) m.
Proof.
  induction m as [| [k' c'] m IH]; cbn.
  - intros [H | []]. injection H as _ H. auto.
  - destruct (k =? k')%string; cbn.
    + intros [H | H]; [injection H as _ H; auto | auto].
    + intros [H | H]; [auto |]. destruct (IH H); auto.
Qed.

Lemma map_set_key (m : PoolMap) (k : string) (c : Connection) (k0 : string)
  (c0 : Connection) :
  In (k0, c0) (map_set m k c) -> k0 = k \/ In (k0, c0) m.
Proof.
  induction m as [| [k' c'] m IH]; cbn.
  - intros [H | []]. injection H as H _. auto.
  - destruct (String.eqb_spec k k') as [-> | Hne]; cbn.
    + intros [H | H]; [injection H as H _; auto | auto].
    + intros [H | H]; [auto |]. destruct (IH H); auto.
Qed.

Lemma map_delete_In (m : PoolMap) (k : string) (e : string * Connection) :
  In e (map_delete m k) -> In e m.
Proof.
  induction m as [| [k' c'] m IH]; cbn; [auto |].
  destruct (k =? k')%string; cbn; [auto |].
  intros [H | H]; auto.
Qed.

Lemma map_delete_length_present (m : PoolMap) (k : string) :
  map_has m k = true -> S (List.length (map_delete m k)) = List.length m.
Proof.
  induction m as [| [k' c'] m IH]; cbn; [discriminate |].
  destruct (k =? k')%string; cbn; [reflexivity |].
  intros H. rewrite (IH H). reflexivity.
Qed.

Lemma map_delete_length_le (m : PoolMap) (k : string) :
  (List.length (map_delete m k) <= List.length m)%nat.
Proof.
  induction m as [| [k' c'] m IH]; cbn; [lia |].
  destruct (k =? k')%string; cbn; lia.
Qed.

Lemma map_get_In (m : PoolMap) (k : string) (c : Connection) :
  map_get m k = Some c -> exists k', In (k', c) m.
Proof.
  induction m as [| [k' c'] m IH]; cbn; [discriminate |].
  destruct (k =? k')%string.
  - intros H. injection H as ->. eauto.
  - intros H. destruct (IH H) as [k0 H0]. eauto.
Qed.

(** The scan of [findOldestConnection] either keeps the key it started
    with, when no entry was used before [t], or ends on a key of the map. *)
Lemma fold_older (m : PoolMap) :
  forall (o : option string) (t : Z),
    (fst (fold_left older m (o, t)) = o
     /\ forall e, In e m -> (t <= lastUsed (snd e))%Z)
    \/ exists k, fst (fold_left older m (o, t)) = Some k /\ map_has m k = true.
Proof.
  induction m as [| [k c] m IH]; intros o t; cbn [fold_left].
  - left. split; [reflexivity | intros e []].
  - change (older (o, t) (k, c))
      with (if (lastUsed c <? t)%Z then (Some k, lastUsed c) else (o, t)).
    destruct (Z.ltb_spec (lastUsed c) t) as [Hlt | Hge].
    + right. destruct (IH (Some k) (lastUsed c)) as [[Hsame _] | (k0 & Hk0 & Hhas)].
      * exists k. split; [exact Hsame |]. cbn. rewrite String.eqb_refl. reflexivity.
      * exists k0. split; [exact Hk0 |]. cbn. rewrite Hhas.
        destruct (k0 =? k)%string; reflexivity.
    + destruct (IH o t) as [[Hsame Hall] | (k0 & Hk0 & Hhas)].
      * left. split; [exact Hsame |]. intros e [<- | He]; [exact Hge | auto].
      * right. exists k0. split; [exact Hk0 |]. cbn. rewrite Hhas.
        destruct (k0 =? k)%string; reflexivity.
Qed.

Section IncreasingClock.

Variable env : Env.

(** Every reading of the clock is later than the one before, and the pool
    has room for at least one connection. *)
Hypothesis clock_increasing : forall i j : nat, (i < j)%nat -> (clock env i < clock env j)%Z.
Hypothesis room_for_one : (1 <= maxPoolSize (poolConfig env))%Z.

(** The pool is within its size, every entry was last used before the
    readings still to come, and no key is empty. *)
Definition poolInv (w : World) : Prop :=
  (map_size (connectionPool w) <= maxPoolSize (poolConfig env))%Z
  /\ (forall k c n, In (k, c) (connectionPool w) -> (clockReads w <= n)%nat ->
                    (lastUsed c < clock env n)%Z)
  /\ (forall k c, In (k, c) (connectionPool w) -> k <> "").

Lemma poolInv_frame (w w' : World) :
  connectionPool w' = connectionPool w ->
  (clockReads w <= clockReads w')%nat ->
  poolInv w -> poolInv w'.
Proof.
  intros Hpool Hclock (Hsize & Hused & Hkeys). unfold poolInv. rewrite Hpool.
  split; [exact Hsize |]. split; [| exact Hkeys].
  intros k c n Hin Hn. apply (Hused k c n Hin). lia.
Qed.

Lemma poolInv_delete (w w' : World) (k : string) :
  connectionPool w' = map_delete (connectionPool w) k ->
  (clockReads w <= clockReads w')%nat ->
  poolInv w -> poolInv w'.
Proof.
  intros Hpool Hclock (Hsize & Hused & Hkeys). unfold poolInv. rewrite Hpool.
  split; [| split].
  - pose proof (map_delete_length_le (connectionPool w) k). unfold map_size in *. lia.
  - intros k0 c n Hin Hn. apply (Hused k0 c n); [| lia].
    eapply map_delete_In. exact Hin.
  - intros k0 c Hin. apply (Hkeys k0 c). eapply map_delete_In. exact Hin.
Qed.

Lemma getConnectionKey_nonempty (t ws u : string) : getConnectionKey t ws u <> "".
Proof. unfold getConnectionKey. destruct t; cbn; discriminate. Qed.

Lemma map_has_In (m : PoolMap) (k : string) :
  map_has m k = true -> exists c, In (k, c) m.
Proof.
  induction m as [| [k' c'] m IH]; cbn; [discriminate |].
  destruct (String.eqb_spec k k') as [-> | Hne].
  - intros _. eauto.
  - intros H. destruct (IH H) as [c Hc]. eauto.
Qed.

Lemma createConnection_world (u t ws : string) (w : World) :
  let r := createConnection env u t ws w in
  connectionPool (snd r) = connectionPool w
  /\ (clockReads w <= clockReads (snd r))%nat
  /\ (forall c, fst r = Returns c ->
        clockReads (snd r) = S (S (clockReads w))
        /\ lastUsed c = clock env (S (clockReads w))).
Proof.
  cbv zeta.
  unfold createConnection, try_catch, bind, getValidToken, await, log_error_message,
    lift, now, ret, throw.
  destruct (tokenProvider env (tokenCalls w)) as [[td |] | e]; cbn.
  - split; [reflexivity |]. split; [lia |].
    intros c0 H. injection H as <-. split; reflexivity.
  - split; [reflexivity |]. split; [lia |]. intros c0 H. discriminate H.
  - destruct e; cbn; (split; [reflexivity |]; split; [lia |]);
      intros c0 H; discriminate H.
Qed.

Lemma createAndInsert_poolInv (key u t ws : string) (w : World) :
  key <> "" -> poolInv w -> poolInv (snd (createAndInsert env key u t ws w)).
Proof.
  intros Hkey Hinv. unfold createAndInsert. unfold bind at 1.
  destruct (createConnection_world u t ws w) as (Hpool & Hclock & Hret).
  destruct (createConnection env u t ws w) as [[c0 | e |] w0]; cbn [fst snd] in *;
    try (eapply poolInv_frame; eassumption).
  destruct (Hret c0 eq_refl) as [Hreads Hused0]. clear Hret.
  assert (Hinv0 : poolInv w0) by (eapply poolInv_frame; eassumption).
  destruct Hinv0 as (Hsize & Hused & Hkeys).
  assert (Hnew : forall n, (clockReads w0 <= n)%nat -> (lastUsed c0 < clock env n)%Z).
  { intros n Hn. rewrite Hused0. apply clock_increasing. lia. }
  cbv beta iota delta [bind gets poolSet set_pool modify findOldestConnection now
                         poolDelete set_poolStats ret].
  destruct (Z.ltb_spec (map_size (connectionPool w0)) (maxPoolSize (poolConfig env)))
    as [Hroom | Hfull]; cbv beta iota.
  - cbn [snd]. unfold poolInv. cbn [connectionPool clockReads].
    split; [| split].
    + pose proof (map_set_length_le (connectionPool w0) key c0).
      unfold map_size in *. lia.
    + intros k c n Hin Hn. destruct (map_set_In _ _ _ _ _ Hin) as [-> | Hold].
      * apply Hnew. exact Hn.
      * apply (Hused k c n Hold Hn).
    + intros k c Hin. destruct (map_set_key _ _ _ _ _ Hin) as [-> | Hold].
      * exact Hkey.
      * apply (Hkeys k c Hold).
  - cbn [connectionPool clockReads fst snd].
    destruct (fold_older (connectionPool w0) None (clock env (clockReads w0)))
      as [[_ Hall] | (k & -> & Hhas)].
    + exfalso. destruct (connectionPool w0) as [| [k c] m] eqn:Hm.
      * unfold map_size in Hfull. cbn in Hfull. lia.
      * specialize (Hall (k, c) (or_introl eq_refl)). cbn in Hall.
        specialize (Hused k c (clockReads w0) (or_introl eq_refl) (Nat.le_refl _)).
        lia.
    + destruct (map_has_In _ _ Hhas) as [ck Hck].
      assert (Hk : (k =? "")%string = false).
      { apply String.eqb_neq. exact (Hkeys k ck Hck). }
      rewrite Hk. cbn [negb]. cbv beta iota. cbn [snd connectionPool clockReads].
      unfold poolInv. cbn [connectionPool clockReads].
      split; [| split].
      * pose proof (map_set_length_le (map_delete (connectionPool w0) k) key c0).
        pose proof (map_delete_length_present (connectionPool w0) k Hhas).
        unfold map_size in *. lia.
      * intros k0 c n Hin Hn. destruct (map_set_In _ _ _ _ _ Hin) as [-> | Hold].
        -- apply Hnew. lia.
        -- apply (Hused k0 c n); [| lia]. eapply map_delete_In. exact Hold.
      * intros k0 c Hin. destruct (map_set_key _ _ _ _ _ Hin) as [-> | Hold].
        -- exact Hkey.
        -- apply (Hkeys k0 c). eapply map_delete_In. exact Hold.
Qed.

Lemma try_catch_poolInv {A} (body : M A) (handler : thrown -> M A) (w : World) :
  poolInv (snd (body w)) ->
  (forall e w', poolInv w' -> poolInv (snd (handler e w'))) ->
  poolInv (snd (try_catch body handler w)).
Proof.
  intros Hbody Hhandler. unfold try_catch.
  destruct (body w) as [[a | e |] w']; cbn [snd] in *; auto.
Qed.

Lemma getConnection_poolInv (u t ws : string) (w : World) :
  poolInv w -> poolInv (snd (getConnection env u t ws w)).
Proof.
  intros Hinv. unfold getConnection. apply try_catch_poolInv.
  2: { intros e w' Hw'.
       cbv beta iota delta [bind set_poolStats modify log_error_message lift throw ret].
       destruct (error_message e) as [msg | e' |]; cbn [snd];
         (eapply poolInv_frame; [| | exact Hw']; cbn; [reflexivity | lia]). }
  unfold bind at 1. unfold gets at 1.
  pose proof (getConnectionKey_nonempty t ws u) as Hkey.
  destruct (map_has (connectionPool w) (getConnectionKey t ws u)) eqn:Hhas;
    [| apply createAndInsert_poolInv; assumption].
  destruct (map_get (connectionPool w) (getConnectionKey t ws u)) as [c0 |] eqn:Hget;
    [| apply createAndInsert_poolInv; assumption].
  unfold bind at 1. rewrite isConnectionValid_run.
  destruct (validAt (poolConfig env) (clock env (clockReads w)) c0).
  - cbv beta iota delta [bind set_poolStats modify now poolSet gets set_pool ret tick].
    cbn [snd connectionPool clockReads].
    destruct Hinv as (Hsize & Hused & Hkeys).
    unfold poolInv. cbn [connectionPool clockReads].
    split; [| split].
    + unfold map_size in *.
      rewrite (map_set_length_present _ _ _ Hhas). exact Hsize.
    + intros k c n Hin Hn. destruct (map_set_In _ _ _ _ _ Hin) as [-> | Hold].
      * cbn. apply clock_increasing. lia.
      * apply (Hused k c n Hold). lia.
    + intros k c Hin. destruct (map_set_key _ _ _ _ _ Hin) as [-> | Hold].
      * exact Hkey.
      * apply (Hkeys k c Hold).
  - cbv beta iota delta [bind poolDelete gets set_pool set_poolStats modify tick].
    apply createAndInsert_poolInv; [exact Hkey |].
    eapply poolInv_delete; [| | exact Hinv]; cbn; [reflexivity | lia].
Qed.

(** With a clock that advances between any two readings and a pool size
    of at least one, no sequence of [getConnection] calls, whatever the
    identities and whatever the token provider answers, leaves more than
    [maxPoolSize] entries in the pool. *)
Lemma acquireAll_within_maxPoolSize (calls : list Acquire) (w : World) :
  poolInv w ->
  (map_size (connectionPool (acquireAll env calls w))
     <= maxPoolSize (poolConfig env))%Z.
Proof.
  revert w. induction calls as [| a calls IH]; intros w Hinv; cbn [acquireAll].
  - exact (proj1 Hinv).
  - apply IH. apply getConnection_poolInv. exact Hinv.
Qed.

End IncreasingClock.

(** X1: from the empty pool, with a clock that advances between any two
    readings and [maxPoolSize] at least one, no sequence of [getConnection]
    calls, whatever the identities and whatever the token provider
    answers, leaves more than [maxPoolSize] entries in the pool. *)
Lemma pool_within_maxPoolSize (env : Env) (calls : list Acquire) :
  (forall i j : nat, (i < j)%nat -> (clock env i < clock env j)%Z) ->
  (1 <= maxPoolSize (poolConfig env))%Z ->
  (map_size (connectionPool (acquireAll env calls emptyWorld))
     <= maxPoolSize (poolConfig env))%Z.
Proof.
  intros Hclock Hroom. apply acquireAll_within_maxPoolSize; [exact Hclock | exact Hroom |].
  unfold poolInv, emptyWorld, map_size. cbn. split; [lia |].
  split; intros; contradiction.
Qed.

(** * The rest of the connection pool *)

Section PoolMaintenance.

Variable env : Env.

(** The first loop of [cleanupExpiredConnections]: the keys of the entries
    that [isConnectionValid] rejects, each tested at its own reading of the
    clock. *)
Fixpoint expiredKeys (entries : PoolMap) : M (list string) :=
  match entries with
  | [] => ret []
  | (key, connection) :: rest =>
      valid <- isConnectionValid env connection ;;
      keysToRemove <- expiredKeys rest ;;
      ret (if (valid : bool) then keysToRemove else key :: keysToRemove)
  end.

(** [keysToRemove.forEach(key => { delete; expiryCount++ })] *)
Fixpoint removeExpired (keysToRemove : list string) : M unit :=
  match keysToRemove with
  | [] => ret tt
  | key :: rest =>
      poolDelete key ;;;
      set_poolStats incr_expiryCount ;;;
      removeExpired rest
  end.

Definition cleanupExpiredConnections : M unit :=
  _ <- now env ;;
  pool <- gets connectionPool ;;
  keysToRemove <- expiredKeys pool ;;
  removeExpired keysToRemove ;;;
  if (0 <? Z.of_nat (List.length keysToRemove))%Z then
    pool' <- gets connectionPool ;;
    set_poolStats (set_activeConnections (map_size pool'))
  else ret tt.

Definition clearPool : M unit :=
  set_pool [] ;;;
  set_poolStats (set_activeConnections 0).

(** What [testConnection] resolves to. *)
Record ConnectionTest := {
  ct_success : bool;
  ct_connectionKey : option string;
  ct_endpoint : option string;
  ct_tokenExpiresIn : option Z;
  ct_usageCount : option Z;
  ct_createdAt : option Z;
  ct_lastUsed : option Z;
  ct_error : option string
}.

Definition testConnection (userId tenantId workspaceId : string) : M ConnectionTest :=
  try_catch
    (connection <- getConnection env userId tenantId workspaceId ;;
     t <- now env ;;
     ret {| ct_success := true;
            ct_connectionKey := Some (getConnectionKey tenantId workspaceId userId);
            ct_endpoint := Some (endpoint connection);
            ct_tokenExpiresIn := Some ((tokenExpiry connection - t) / 1000);
            ct_usageCount := Some (usageCount connection);
            ct_createdAt := Some (createdAt connection);
            ct_lastUsed := Some (lastUsed connection);
            ct_error := None |})
    (fun error =>
       msg <- lift (error_message error) ;;
       ret {| ct_success := false; ct_connectionKey := None; ct_endpoint := None;
              ct_tokenExpiresIn := None; ct_usageCount := None;
              ct_createdAt := None; ct_lastUsed := None; ct_error := msg |}).

End PoolMaintenance.

(** ** Lookups in the map of the pool *)

Lemma map_get_has (m : PoolMap) (k : string) (c : Connection) :
  map_get m k = Some c -> map_has m k = true.
Proof.
  induction m as [| [k' c'] m IH]; cbn; [discriminate |].
  destruct (k =? k')%string; auto.
Qed.

Lemma map_has_get (m : PoolMap) (k : string) :
  map_has m k = true -> exists c, map_get m k = Some c.
Proof.
  induction m as [| [k' c'] m IH]; cbn; [discriminate |].
  destruct (k =? k')%string; eauto.
Qed.

Lemma map_get_set_same (m : PoolMap) (k : string) (c : Connection) :
  map_get (map_set m k c) k = Some c.
Proof.
  induction m as [| [k' c'] m IH]; cbn.
  - rewrite String.eqb_refl. reflexivity.
  - destruct (k =? k')%string eqn:E; cbn; rewrite E; auto.
Qed.

Lemma map_get_set_other (m : PoolMap) (k k0 : string) (c : Connection) :
  k0 <> k -> map_get (map_set m k c) k0 = map_get m k0.
Proof.
  intros Hne. induction m as [| [k' c'] m IH]; cbn.
  - destruct (String.eqb_spec k0 k); [contradiction | reflexivity].
  - destruct (String.eqb_spec k k') as [-> | Hk]; cbn.
    + destruct (String.eqb_spec k0 k'); [contradiction | reflexivity].
    + destruct (k0 =? k')%string; auto.
Qed.

Lemma map_has_set_same (m : PoolMap) (k : string) (c : Connection) :
  map_has (map_set m k c) k = true.
Proof. apply (map_get_has _ _ c). apply map_get_set_same. Qed.

Lemma map_get_delete_other (m : PoolMap) (k k0 : string) :
  k0 <> k -> map_get (map_delete m k) k0 = map_get m k0.
Proof.
  intros Hne. induction m as [| [k' c'] m IH]; cbn; [reflexivity |].
  destruct (String.eqb_spec k k') as [-> | Hk]; cbn.
  - destruct (String.eqb_spec k0 k'); [contradiction | reflexivity].
  - destruct (k0 =? k')%string; auto.
Qed.

Lemma map_has_false_In (m : PoolMap) (k : string) (c : Connection) :
  map_has m k = false -> ~ In (k, c) m.
Proof.
  induction m as [| [k' c'] m IH]; cbn; [auto |].
  destruct (String.eqb_spec k k') as [-> | Hk]; [discriminate |].
  intros H [E | Hin]; [injection E as E _; congruence | exact (IH H Hin)].
Qed.

(** The keys of the map are pairwise distinct, as in a [Map]. *)
Definition distinctKeys (m : PoolMap) : Prop := NoDup (map fst m).

Lemma map_has_keys (m : PoolMap) (k : string) :
  map_has m k = true <-> In k (map fst m).
Proof.
  induction m as [| [k' c'] m IH]; cbn; [split; [discriminate | contradiction] |].
  destruct (String.eqb_spec k k') as [-> | Hk].
  - split; auto.
  - rewrite IH. split; [auto | intros [E | H]; [congruence | exact H]].
Qed.

Lemma map_delete_absent (m : PoolMap) (k : string) :
  map_has m k = false -> map_delete m k = m.
Proof.
  induction m as [| [k' c'] m IH]; cbn; [reflexivity |].
  destruct (k =? k')%string; [discriminate |]. intros H. rewrite (IH H). reflexivity.
Qed.

Lemma map_has_delete_same (m : PoolMap) (k : string) :
  distinctKeys m -> map_has (map_delete m k) k = false.
Proof.
  unfold distinctKeys. induction m as [| [k' c'] m IH]; cbn; [reflexivity |].
  intros Hnd. inversion Hnd as [| ? ? Hnotin Hrest]; subst.
  destruct (String.eqb_spec k k') as [-> | Hk]; cbn.
  - destruct (map_has m k') eqn:E; [| reflexivity].
    apply map_has_keys in E. contradiction.
  - destruct (String.eqb_spec k k'); [contradiction | auto].
Qed.

Lemma map_delete_keys (m : PoolMap) (k k0 : string) :
  In k0 (map fst (map_delete m k)) -> In k0 (map fst m).
Proof.
  induction m as [| [k' c'] m IH]; cbn; [auto |].
  destruct (k =? k')%string; cbn; [auto |]. intros [H | H]; auto.
Qed.

Lemma map_delete_distinct (m : PoolMap) (k : string) :
  distinctKeys m -> distinctKeys (map_delete m k).
Proof.
  unfold distinctKeys. induction m as [| [k' c'] m IH]; cbn; [auto |].
  intros Hnd. inversion Hnd as [| ? ? Hnotin Hrest]; subst.
  destruct (k =? k')%string; cbn; [exact Hrest |].
  constructor; [| auto]. intros H. apply Hnotin. eapply map_delete_keys. exact H.
Qed.

Lemma map_set_keys (m : PoolMap) (k k0 : string) (c : Connection) :
  In k0 (map fst (map_set m k c)) -> k0 = k \/ In k0 (map fst m).
Proof.
  induction m as [| [k' c'] m IH]; cbn.
  - intros [H | []]. auto.
  - destruct (String.eqb_spec k k') as [-> | Hk]; cbn.
    + intros [H | H]; auto.
    + intros [H | H]; [auto |]. destruct (IH H); auto.
Qed.

Lemma map_set_distinct (m : PoolMap) (k : string) (c : Connection) :
  distinctKeys m -> distinctKeys (map_set m k c).
Proof.
  unfold distinctKeys. induction m as [| [k' c'] m IH]; cbn.
  - intros _. constructor; [intros [] | constructor].
  - intros Hnd. inversion Hnd as [| ? ? Hnotin Hrest]; subst.
    destruct (String.eqb_spec k k') as [-> | Hk]; cbn.
    + constructor; assumption.
    + constructor; [| auto]. intros H.
      destruct (map_set_keys _ _ _ _ H) as [E | Hin]; [congruence | contradiction].
Qed.

(** ** The choice of [findOldestConnection] *)

Lemma fold_older_least (m : PoolMap) :
  forall (o : option string) (t : Z),
    (forall e, In e m -> (snd (fold_left older m (o, t)) <= lastUsed (snd e))%Z)
    /\ ((fold_left older m (o, t) = (o, t))
        \/ exists k c, In (k, c) m
                       /\ fold_left older m (o, t) = (Some k, lastUsed c)
                       /\ (lastUsed c < t)%Z).
Proof.
  induction m as [| [k c] m IH]; intros o t; cbn [fold_left].
  - split; [intros e [] | left; reflexivity].
  - change (older (o, t) (k, c))
      with (if (lastUsed c <? t)%Z then (Some k, lastUsed c) else (o, t)).
    destruct (Z.ltb_spec (lastUsed c) t) as [Hlt | Hge].
    + destruct (IH (Some k) (lastUsed c)) as [Hall Hcase].
      assert (Hle : (snd (fold_left older m (Some k, lastUsed c)) <= lastUsed c)%Z).
      { destruct Hcase as [-> | (k0 & c0 & _ & -> & Hlt0)]; cbn; lia. }
      split.
      * intros e [<- | He]; [exact Hle | exact (Hall e He)].
      * right. destruct Hcase as [E | (k0 & c0 & Hin & E & Hlt0)].
        -- exists k, c. split; [left; reflexivity |]. split; [exact E | exact Hlt].
        -- exists k0, c0. split; [right; exact Hin |]. split; [exact E | lia].
    + destruct (IH o t) as [Hall Hcase]. split.
      * intros e [<- | He]; [| exact (Hall e He)].
        destruct Hcase as [-> | (k0 & c0 & _ & -> & Hlt0)]; cbn; lia.
      * destruct Hcase as [E | (k0 & c0 & Hin & E & Hlt0)]; [left; exact E |].
        right. exists k0, c0. split; [right; exact Hin |]. split; [exact E | exact Hlt0].
Qed.

(** X2: [findOldestConnection] returns the key of a least recently used
    entry: one that was last used before the current reading of the clock
    and no later than any other entry.  It returns [null] exactly when no
    entry was last used before the current reading. *)
Theorem findOldestConnection_least_recently_used (env : Env) (w : World) :
  let now_ := clock env (clockReads w) in
  (fst (findOldestConnection env w) = Returns None
   /\ forall k c, In (k, c) (connectionPool w) -> (now_ <= lastUsed c)%Z)
  \/ exists k c,
       fst (findOldestConnection env w) = Returns (Some k)
       /\ In (k, c) (connectionPool w)
       /\ (lastUsed c < now_)%Z
       /\ forall k' c', In (k', c') (connectionPool w) -> (lastUsed c <= lastUsed c')%Z.
Proof.
  cbv zeta. unfold findOldestConnection, bind, now, gets, ret. cbn [fst snd connectionPool].
  destruct (fold_older_least (connectionPool w) None (clock env (clockReads w)))
    as [Hall [E | (k & c & Hin & E & Hlt)]]; rewrite E in *; cbn [fst snd] in *.
  - left. split; [reflexivity |]. intros k c Hin. exact (Hall (k, c) Hin).
  - right. exists k, c. split; [reflexivity |]. split; [exact Hin |].
    split; [exact Hlt |]. intros k' c' Hin'. exact (Hall (k', c') Hin').
Qed.

(** ** Reuse, failed creation and invalidation *)

(** X3: when the pool holds a connection for the identity that passes
    [isConnectionValid], [getConnection] returns that connection with
    [lastUsed] and [usageCount] updated, and the pool holds the updated
    connection in the same place.  The token provider is not asked, the
    size of the pool does not change, and only [reuseCount] is counted. *)
Theorem getConnection_reuses_valid_entry (env : Env) (u t ws : string)
  (w : World) (c0 : Connection) :
  map_get (connectionPool w) (getConnectionKey t ws u) = Some c0 ->
  validAt (poolConfig env) (clock env (clockReads w)) c0 = true ->
  let key := getConnectionKey t ws u in
  let c := touch (clock env (S (clockReads w))) c0 in
  exists w' : World,
    getConnection env u t ws w = (Returns c, w')
    /\ map_get (connectionPool w') key = Some c
    /\ connectionPool w' = map_set (connectionPool w) key c
    /\ map_size (connectionPool w') = map_size (connectionPool w)
    /\ tokenCalls w' = tokenCalls w
    /\ trace w' = trace w
    /\ poolStats w' = incr_reuseCount (poolStats w).
Proof.
  intros Hget Hvalid key c.
  pose proof (map_get_has _ _ _ Hget) as Hhas.
  eexists. split.
  - unfold getConnection, try_catch. fold key.
    unfold bind at 1. unfold gets at 1. fold key in Hget, Hhas. rewrite Hhas, Hget.
    unfold bind at 1. rewrite isConnectionValid_run, Hvalid.
    cbv beta iota delta [bind set_poolStats modify now poolSet gets set_pool ret tick].
    cbn [fst snd connectionPool clockReads tokenCalls trace poolStats].
    fold c. reflexivity.
  - cbn [connectionPool tokenCalls trace poolStats].
    split; [apply map_get_set_same |]. split; [reflexivity |]. split; [| repeat split].
    unfold map_size. rewrite (map_set_length_present _ _ _ Hhas). reflexivity.
Qed.

Definition hourTokenEnv : Env := envWithToken defaultPoolConfig (fun k => Z.of_nat k) 3600000.

(** The theorem on the second request of an identity. *)
Lemma getConnection_reuses_valid_entry_witness :
  let w1 := snd (getConnection hourTokenEnv "user" "tenant" "ws" emptyWorld) in
  exists c w',
    getConnection hourTokenEnv "user" "tenant" "ws" w1 = (Returns c, w')
    /\ tokenCalls w' = 1%nat
    /\ map_size (connectionPool w') = 1%Z.
Proof.
  intros w1.
  destruct (getConnection_reuses_valid_entry hourTokenEnv "user" "tenant" "ws" w1
              (Build_Connection "ws" "tenant" "user" "tok" 3600000
                 (buildXMLAEndpoint "ws") (buildConnectionString "ws" "tok") 0 1 0 true))
    as (w' & Hrun & _ & _ & Hsize & Htok & _); [reflexivity | reflexivity |].
  eexists. exists w'. split; [exact Hrun |]. split; [exact Htok | exact Hsize].
Defined.

(** The error of [createConnection] when the principal has no token. *)
Definition noTokenError : thrown :=
  ThrownError (plainError
    "No valid Power BI token found. Please reconnect your Power BI account.").

(** X4: when the pool holds no connection for the identity that passes
    [isConnectionValid] and the token provider has no token, [getConnection]
    throws the error of [createConnection] after one request to the token
    provider.  The pool is what it was, less the stale entry of the
    identity if there was one; [errorCount] is counted, [totalConnections]
    is not. *)
Theorem getConnection_without_token (env : Env) (u t ws : string) (w : World) :
  (forall c0, map_get (connectionPool w) (getConnectionKey t ws u) = Some c0 ->
              validAt (poolConfig env) (clock env (clockReads w)) c0 = false) ->
  tokenProvider env (tokenCalls w) = Fulfilled None ->
  let key := getConnectionKey t ws u in
  exists w' : World,
    getConnection env u t ws w = (Throws noTokenError, w')
    /\ connectionPool w' = map_delete (connectionPool w) key
    /\ tokenCalls w' = S (tokenCalls w)
    /\ errorCount (poolStats w') = (errorCount (poolStats w) + 1)%Z
    /\ totalConnections (poolStats w') = totalConnections (poolStats w).
Proof.
  intros Hstale Htoken key. fold key in Hstale.
  unfold getConnection, try_catch. fold key.
  unfold bind at 1. unfold gets at 1.
  destruct (map_has (connectionPool w) key) eqn:Hhas.
  - destruct (map_has_get _ _ Hhas) as [c0 Hget]. rewrite Hget.
    unfold bind at 1. rewrite isConnectionValid_run, (Hstale c0 Hget).
    cbv beta iota delta [bind poolDelete gets set_pool set_poolStats modify tick
                           createAndInsert createConnection try_catch getValidToken
                           await log_error_message lift throw ret].
    cbn [tokenCalls]. rewrite Htoken. cbn. eexists. split; [reflexivity |].
    cbn. repeat split.
  - cbv beta iota delta [bind createAndInsert createConnection try_catch getValidToken
                           await log_error_message lift throw ret set_poolStats modify].
    rewrite Htoken. cbn. eexists. split; [reflexivity |]. cbn.
    rewrite (map_delete_absent _ _ Hhas). repeat split.
Qed.

(** The theorem on the empty pool. *)
Lemma getConnection_without_token_witness :
  fst (getConnection quietEnv "user" "tenant" "ws" emptyWorld) = Throws noTokenError.
Proof.
  destruct (getConnection_without_token quietEnv "user" "tenant" "ws" emptyWorld)
    as (w' & H & _); [intros c0 H0; discriminate H0 | reflexivity |].
  rewrite H. reflexivity.
Defined.

Definition appendEvent (ev : Event) (w : World) : World :=
  {| connectionPool := connectionPool w; poolStats := poolStats w;
     execStats := execStats w; clockReads := clockReads w;
     tokenCalls := tokenCalls w; remoteCalls := remoteCalls w;
     randomCalls := randomCalls w; trace := (trace w ++ [ev])%list |}.

Definition withPool (p : PoolMap) (w : World) : World :=
  {| connectionPool := p; poolStats := poolStats w;
     execStats := execStats w; clockReads := clockReads w;
     tokenCalls := tokenCalls w; remoteCalls := remoteCalls w;
     randomCalls := randomCalls w; trace := trace w |}.

Lemma invalidateConnection_run (u t ws : string) (w : World) :
  invalidateConnection u t ws w
  = (Returns tt,
     let key := getConnectionKey t ws u in
     let w1 := appendEvent (EvInvalidate key) w in
     match map_get (connectionPool w) key with
     | Some c => withPool (map_set (connectionPool w) key (setInvalid c)) w1
     | None => w1
     end).
Proof.
  unfold invalidateConnection, bind, emit, modify, gets, poolSet, set_pool, ret.
  cbn [connectionPool]. fold (appendEvent (EvInvalidate (getConnectionKey t ws u)) w).
  destruct (map_has (connectionPool w) (getConnectionKey t ws u)) eqn:Hhas.
  - destruct (map_has_get _ _ Hhas) as [c Hget]. rewrite Hget. reflexivity.
  - destruct (map_get (connectionPool w) (getConnectionKey t ws u)) eqn:Hget;
      [| reflexivity].
    apply map_get_has in Hget. congruence.
Qed.

(** X5: [invalidateConnection] clears the flag [isValid] of the entry of
    the identity, in place; every other entry, the size of the pool and the
    counters stay as they are.  It does nothing to a pool without the
    identity, and a second invalidation changes nothing more. *)
Theorem invalidateConnection_marks_in_place (u t ws : string) (w : World) :
  let key := getConnectionKey t ws u in
  let w1 := snd (invalidateConnection u t ws w) in
  map_get (connectionPool w1) key = option_map setInvalid (map_get (connectionPool w) key)
  /\ (forall k, k <> key -> map_get (connectionPool w1) k = map_get (connectionPool w) k)
  /\ map_size (connectionPool w1) = map_size (connectionPool w)
  /\ poolStats w1 = poolStats w
  /\ (map_has (connectionPool w) key = false -> connectionPool w1 = connectionPool w)
  /\ connectionPool (snd (invalidateConnection u t ws w1)) = connectionPool w1.
Proof.
  intros key w1. subst w1. rewrite !invalidateConnection_run. cbn [snd]. fold key.
  destruct (map_get (connectionPool w) key) as [c |] eqn:Hget; cbn.
  - rewrite map_get_set_same. cbn.
    split; [reflexivity |]. split; [intros k Hk; apply map_get_set_other; exact Hk |].
    split; [unfold map_size;
            rewrite (map_set_length_present _ _ _ (map_get_has _ _ _ Hget)); reflexivity |].
    split; [reflexivity |]. split; [rewrite (map_get_has _ _ _ Hget); discriminate |].
    clear Hget. induction (connectionPool w) as [| [k' c'] m IH]; cbn.
    + rewrite String.eqb_refl. reflexivity.
    + destruct (key =? k')%string eqn:E; cbn; rewrite E; [reflexivity |].
      rewrite IH. reflexivity.
  - rewrite Hget. cbn. repeat split.
Qed.

(** X6: after [invalidateConnection], a [getConnection] for the same
    identity never returns the pooled connection: what it returns was
    created in this call from a token the provider supplied now, with
    [usageCount] 0 and the flag [isValid] set. *)
Theorem invalidated_connection_is_not_reused (env : Env) (u t ws : string)
  (w w2 : World) (c : Connection) :
  getConnection env u t ws (snd (invalidateConnection u t ws w)) = (Returns c, w2) ->
  usageCount c = 0%Z
  /\ isValid c = true
  /\ exists td : TokenData,
       tokenProvider env (tokenCalls w) = Fulfilled (Some td)
       /\ accessToken c = access_token td
       /\ tokenExpiry c = expires_at td
       /\ exists n : nat, (clockReads w <= n)%nat /\ createdAt c = clock env n.
Proof.
  rewrite invalidateConnection_run. cbn [snd].
  set (key := getConnectionKey t ws u).
  assert (Hfresh : forall w1 : World,
    tokenCalls w1 = tokenCalls w -> (clockReads w <= clockReads w1)%nat ->
    createAndInsert env key u t ws w1 = (Returns c, w2) ->
    usageCount c = 0%Z /\ isValid c = true
    /\ exists td : TokenData,
         tokenProvider env (tokenCalls w) = Fulfilled (Some td)
         /\ accessToken c = access_token td
         /\ tokenExpiry c = expires_at td
         /\ exists n : nat, (clockReads w <= n)%nat /\ createdAt c = clock env n).
  { intros w1 Htok Hclock Hrun. apply createAndInsert_returns in Hrun.
    destruct Hrun as (td & Hprov & ->). rewrite Htok in Hprov. cbn.
    split; [reflexivity |]. split; [reflexivity |]. exists td.
    split; [exact Hprov |]. split; [reflexivity |]. split; [reflexivity |].
    exists (clockReads w1). split; [exact Hclock | reflexivity]. }
  unfold getConnection, try_catch. fold key.
  match goal with
  | |- (match ?body ?w1 with _ => _ end) = _ -> _ =>
      destruct (body w1) as [[c1 | e |] w3] eqn:Hbody
  end.
  2: { cbv beta iota delta [bind set_poolStats modify log_error_message lift throw ret].
       destruct (error_message e); intros H; discriminate H. }
  2: { intros H; discriminate H. }
  intros H. injection H as -> ->.
  revert Hbody. unfold bind at 1. unfold gets at 1.
  destruct (map_get (connectionPool w) key) as [c0 |] eqn:Hget.
  - cbn [connectionPool withPool appendEvent].
    rewrite map_has_set_same, map_get_set_same.
    unfold bind at 1. rewrite isConnectionValid_run.
    replace (validAt (poolConfig env) _ (setInvalid c0)) with false
      by (unfold validAt; cbn; rewrite andb_false_r; reflexivity).
    cbv beta iota delta [bind poolDelete gets set_pool set_poolStats modify tick].
    intros Hrun. apply Hfresh in Hrun; [exact Hrun | reflexivity | cbn; lia].
  - cbn [connectionPool appendEvent].
    destruct (map_has (connectionPool w) key) eqn:Hhas.
    + destruct (map_has_get _ _ Hhas) as [c0 Hc0]. congruence.
    + intros Hrun. apply Hfresh in Hrun; [exact Hrun | reflexivity | cbn; lia].
Qed.

(** The theorem on a pooled connection that is invalidated and asked for
    again. *)
Lemma invalidated_connection_is_not_reused_witness :
  let w1 := snd (getConnection hourTokenEnv "user" "tenant" "ws" emptyWorld) in
  exists c w2,
    getConnection hourTokenEnv "user" "tenant" "ws"
      (snd (invalidateConnection "user" "tenant" "ws" w1)) = (Returns c, w2)
    /\ usageCount c = 0%Z.
Proof.
  intros w1.
  destruct (getConnection hourTokenEnv "user" "tenant" "ws"
              (snd (invalidateConnection "user" "tenant" "ws" w1)))
    as [[c | e |] w2] eqn:Hrun;
    [| vm_compute in Hrun; discriminate Hrun | vm_compute in Hrun; discriminate Hrun].
  exists c, w2. split; [reflexivity |].
  exact (proj1 (invalidated_connection_is_not_reused hourTokenEnv
                  "user" "tenant" "ws" w1 w2 c Hrun)).
Defined.

(** ** Removal and the periodic sweep *)

(** X7: [removeConnection] returns whether the pool held the identity.
    Afterwards the pool holds no entry for it, every other entry is
    untouched, and when an entry was removed the pool is one smaller and
    [activeConnections] is its new size; when none was, nothing changes. *)
Theorem removeConnection_removes_the_entry (u t ws : string) (w : World) :
  distinctKeys (connectionPool w) ->
  let key := getConnectionKey t ws u in
  exists w' : World,
    removeConnection u t ws w = (Returns (map_has (connectionPool w) key), w')
    /\ map_has (connectionPool w') key = false
    /\ (forall k, k <> key -> map_get (connectionPool w') k = map_get (connectionPool w) k)
    /\ (map_has (connectionPool w) key = false -> w' = w)
    /\ (map_has (connectionPool w) key = true ->
        (map_size (connectionPool w') = map_size (connectionPool w) - 1)%Z
        /\ activeConnections (poolStats w') = map_size (connectionPool w')).
Proof.
  intros Hdistinct key.
  unfold removeConnection. fold key.
  cbv beta iota delta [bind gets poolDelete set_pool set_poolStats modify ret].
  destruct (map_has (connectionPool w) key) eqn:Hhas.
  - eexists. split; [reflexivity |]. cbn [connectionPool poolStats].
    split; [apply map_has_delete_same; exact Hdistinct |].
    split; [intros k Hk; apply map_get_delete_other; exact Hk |].
    split; [discriminate |]. intros _. split; [| reflexivity].
    pose proof (map_delete_length_present _ _ Hhas). unfold map_size. lia.
  - exists w. split; [reflexivity |]. split; [exact Hhas |].
    split; [reflexivity |]. split; [reflexivity | discriminate].
Qed.

(** The theorem on a pool with one connection. *)
Lemma removeConnection_removes_the_entry_witness :
  let w1 := snd (getConnection hourTokenEnv "user" "tenant" "ws" emptyWorld) in
  exists w',
    removeConnection "user" "tenant" "ws" w1 = (Returns true, w')
    /\ map_has (connectionPool w') (getConnectionKey "tenant" "ws" "user") = false.
Proof.
  intros w1.
  destruct (removeConnection_removes_the_entry "user" "tenant" "ws" w1)
    as (w' & Hrun & Hgone & _).
  - unfold distinctKeys. vm_compute. constructor; [intros [] | constructor].
  - exists w'. split; [exact Hrun | exact Hgone].
Defined.

(** The entries that pass [isConnectionValid] when the [i]-th entry is
    tested at the reading [n + i] of the clock. *)
Fixpoint keptFrom (env : Env) (n : nat) (entries : PoolMap) : PoolMap :=
  match entries with
  | [] => []
  | (key, connection) :: rest =>
      if validAt (poolConfig env) (clock env n) connection
      then (key, connection) :: keptFrom env (S n) rest
      else keptFrom env (S n) rest
  end.

(** The keys of the other entries. *)
Fixpoint droppedFrom (env : Env) (n : nat) (entries : PoolMap) : list string :=
  match entries with
  | [] => []
  | (key, connection) :: rest =>
      if validAt (poolConfig env) (clock env n) connection
      then droppedFrom env (S n) rest
      else key :: droppedFrom env (S n) rest
  end.

Definition advance (n : nat) (w : World) : World :=
  {| connectionPool := connectionPool w; poolStats := poolStats w;
     execStats := execStats w; clockReads := (clockReads w + n)%nat;
     tokenCalls := tokenCalls w; remoteCalls := remoteCalls w;
     randomCalls := randomCalls w; trace := trace w |}.

Lemma expiredKeys_run (env : Env) (entries : PoolMap) :
  forall w : World,
    expiredKeys env entries w
    = (Returns (droppedFrom env (clockReads w) entries),
       advance (List.length entries) w).
Proof.
  induction entries as [| [k c] rest IH]; intros w; cbn [expiredKeys droppedFrom].
  - unfold ret, advance. cbn. rewrite Nat.add_0_r. destruct w; reflexivity.
  - unfold bind at 1. rewrite isConnectionValid_run.
    unfold bind at 1. rewrite IH. unfold ret. cbn [clockReads tick].
    assert (Hw : advance (List.length rest) (tick w)
                 = advance (List.length ((k, c) :: rest)) w).
    { unfold advance, tick. cbn. f_equal. lia. }
    rewrite Hw.
    destruct (validAt (poolConfig env) (clock env (clockReads w)) c); reflexivity.
Qed.

Fixpoint deleteAll (keys : list string) (m : PoolMap) : PoolMap :=
  match keys with
  | [] => m
  | key :: rest => deleteAll rest (map_delete m key)
  end.

Fixpoint times {A} (n : nat) (f : A -> A) (a : A) : A :=
  match n with
  | O => a
  | S n' => times n' f (f a)
  end.

Lemma removeExpired_run (keys : list string) :
  forall w : World,
    exists w' : World,
      removeExpired keys w = (Returns tt, w')
      /\ connectionPool w' = deleteAll keys (connectionPool w)
      /\ poolStats w' = times (List.length keys) incr_expiryCount (poolStats w)
      /\ clockReads w' = clockReads w
      /\ trace w' = trace w.
Proof.
  induction keys as [| k rest IH]; intros w; cbn [removeExpired deleteAll times List.length].
  - exists w. repeat split.
  - cbv beta iota delta [bind poolDelete gets set_pool set_poolStats modify].
    match goal with
    | |- context [removeExpired rest ?w1] => destruct (IH w1) as (w' & -> & Hp & Hs & Hc & Ht)
    end.
    exists w'. split; [reflexivity |]. cbn in Hp, Hs, Hc, Ht. auto.
Qed.

Lemma deleteAll_cons_other (keys : list string) :
  forall (m : PoolMap) (k : string) (c : Connection),
    ~ In k keys -> deleteAll keys ((k, c) :: m) = (k, c) :: deleteAll keys m.
Proof.
  induction keys as [| k0 rest IH]; intros m k c Hnotin; cbn [deleteAll]; [reflexivity |].
  cbn [map_delete]. destruct (String.eqb_spec k0 k) as [-> | Hne].
  - exfalso. apply Hnotin. left. reflexivity.
  - apply IH. intros H. apply Hnotin. right. exact H.
Qed.

Lemma droppedFrom_keys (env : Env) (entries : PoolMap) :
  forall (n : nat) (k : string),
    In k (droppedFrom env n entries) -> In k (map fst entries).
Proof.
  induction entries as [| [k0 c0] rest IH]; intros n k; cbn; [auto |].
  destruct (validAt _ _ c0); cbn; [eauto |]. intros [H | H]; eauto.
Qed.

(** Marking the rejected entries and deleting them by key afterwards
    leaves exactly the entries that passed. *)
Lemma deleteAll_dropped (env : Env) (entries : PoolMap) :
  forall n : nat,
    distinctKeys entries ->
    deleteAll (droppedFrom env n entries) entries = keptFrom env n entries.
Proof.
  unfold distinctKeys.
  induction entries as [| [k c] rest IH]; intros n Hnd; cbn [droppedFrom keptFrom];
    [reflexivity |].
  cbn in Hnd. inversion Hnd as [| ? ? Hnotin Hrest]; subst.
  destruct (validAt (poolConfig env) (clock env n) c).
  - rewrite deleteAll_cons_other; [rewrite IH; auto |].
    intros H. apply Hnotin. eapply droppedFrom_keys. exact H.
  - cbn [deleteAll map_delete]. rewrite String.eqb_refl. apply IH. exact Hrest.
Qed.

Lemma keptFrom_dropped_length (env : Env) (entries : PoolMap) :
  forall n : nat,
    (List.length (keptFrom env n entries) + List.length (droppedFrom env n entries)
     = List.length entries)%nat.
Proof.
  induction entries as [| [k c] rest IH]; intros n; cbn; [reflexivity |].
  destruct (validAt _ _ c); cbn; rewrite <- (IH (S n)); lia.
Qed.

Lemma times_expiryCount (n : nat) (s : PoolStats) :
  times n incr_expiryCount s
  = Build_PoolStats (totalConnections s) (activeConnections s) (reuseCount s)
      (expiryCount s + Z.of_nat n) (errorCount s).
Proof.
  revert s. induction n as [| n IH]; intros s; cbn [times].
  - destruct s; cbn. f_equal. lia.
  - rewrite IH. cbn. f_equal. lia.
Qed.

(** X8: the sweep [cleanupExpiredConnections] keeps exactly the entries
    that pass [isConnectionValid], each tested at its own reading of the
    clock, in their order, and removes all others; it never adds an entry.
    [expiryCount] grows by the number of entries removed, and
    [activeConnections] is set to the new size when at least one entry was
    removed (it keeps its value otherwise). *)
Theorem cleanupExpiredConnections_keeps_the_valid (env : Env) (w : World) :
  distinctKeys (connectionPool w) ->
  let kept := keptFrom env (S (clockReads w)) (connectionPool w) in
  let removed := (List.length (connectionPool w) - List.length kept)%nat in
  exists w' : World,
    cleanupExpiredConnections env w = (Returns tt, w')
    /\ connectionPool w' = kept
    /\ (List.length kept <= List.length (connectionPool w))%nat
    /\ expiryCount (poolStats w') = (expiryCount (poolStats w) + Z.of_nat removed)%Z
    /\ activeConnections (poolStats w')
       = (if (0 <? Z.of_nat removed)%Z then map_size kept
          else activeConnections (poolStats w))
    /\ clockReads w' = (clockReads w + 1 + List.length (connectionPool w))%nat.
Proof.
  intros Hdistinct kept removed.
  pose proof (keptFrom_dropped_length env (connectionPool w) (S (clockReads w))) as Hlen.
  fold kept in Hlen.
  assert (Hremoved : removed
                     = List.length (droppedFrom env (S (clockReads w)) (connectionPool w)))
    by (unfold removed; lia).
  unfold cleanupExpiredConnections.
  unfold bind at 1. unfold now at 1. cbv beta iota.
  unfold bind at 1. unfold gets at 1. cbv beta iota. cbn [connectionPool].
  unfold bind at 1. rewrite expiredKeys_run. cbv beta iota. cbn [clockReads].
  unfold bind at 1.
  match goal with
  | |- context [removeExpired ?keys ?w1] =>
      destruct (removeExpired_run keys w1) as (w2 & -> & Hpool & Hstats & Hclock & _)
  end.
  cbn [connectionPool poolStats clockReads advance] in Hpool, Hstats, Hclock.
  rewrite (deleteAll_dropped env _ _ Hdistinct) in Hpool. fold kept in Hpool.
  rewrite times_expiryCount, <- Hremoved in Hstats.
  rewrite <- Hremoved.
  destruct (0 <? Z.of_nat removed)%Z.
  - cbv beta iota delta [bind gets set_poolStats modify].
    eexists. split; [reflexivity |]. cbn [connectionPool poolStats clockReads].
    rewrite Hpool, Hstats, Hclock. cbn.
    split; [reflexivity |]. split; [lia |]. split; [reflexivity |].
    split; [reflexivity | lia].
  - unfold ret. exists w2. split; [reflexivity |].
    rewrite Hpool, Hstats, Hclock. cbn.
    split; [reflexivity |]. split; [lia |]. split; [reflexivity |].
    split; [reflexivity | lia].
Qed.

(** The theorem on a pool whose only connection is older than
    [maxConnectionAge] when the sweep runs. *)
Lemma cleanupExpiredConnections_keeps_the_valid_witness :
  let env := envWithToken defaultPoolConfig (fun k => (Z.of_nat k * 1000000)%Z) 3600000 in
  let w1 := snd (getConnection env "user" "tenant" "ws" emptyWorld) in
  exists w',
    cleanupExpiredConnections env w1 = (Returns tt, w')
    /\ connectionPool w' = []
    /\ expiryCount (poolStats w') = 1%Z.
Proof.
  intros env w1.
  destruct (cleanupExpiredConnections_keeps_the_valid env w1)
    as (w' & Hrun & Hpool & _ & Hexp & _).
  - unfold distinctKeys. vm_compute. constructor; [intros [] | constructor].
  - exists w'. split; [exact Hrun |]. split; [exact Hpool | exact Hexp].
Defined.

(** ** The key of an identity *)

(** No character of [s] is a colon. *)
Fixpoint noColon (s : string) : bool :=
  match s with
  | EmptyString => true
  | String c rest => negb (Ascii.eqb c ":"%char) && noColon rest
  end.

Lemma split_at_first_colon (a b x y : string) :
  noColon a = true -> noColon b = true ->
  a ++ ":" ++ x = b ++ ":" ++ y -> a = b /\ x = y.
Proof.
  revert b. induction a as [| ca a IH]; intros [| cb b]; cbn.
  - intros _ _ H. injection H as H. auto.
  - intros _ Hb H. injection H as Hc _. subst cb. cbn in Hb. discriminate Hb.
  - intros Ha _ H. injection H as Hc _. subst ca. cbn in Ha. discriminate Ha.
  - intros Ha Hb H. injection H as Hc Hrest. subst cb.
    apply andb_true_iff in Ha. apply andb_true_iff in Hb.
    destruct (IH b (proj2 Ha) (proj2 Hb) Hrest) as [-> ->]. auto.
Qed.

(** X9: two identities whose tenant and workspace ids contain no colon
    have the same pool key only if they are the same identity. *)
Theorem getConnectionKey_injective (t1 ws1 u1 t2 ws2 u2 : string) :
  noColon t1 = true -> noColon ws1 = true ->
  noColon t2 = true -> noColon ws2 = true ->
  getConnectionKey t1 ws1 u1 = getConnectionKey t2 ws2 u2 ->
  t1 = t2 /\ ws1 = ws2 /\ u1 = u2.
Proof.
  unfold getConnectionKey. intros Ht1 Hw1 Ht2 Hw2 H.
  destruct (split_at_first_colon _ _ _ _ Ht1 Ht2 H) as [-> H'].
  destruct (split_at_first_colon _ _ _ _ Hw1 Hw2 H') as [-> ->]. auto.
Qed.

(** The theorem on one identity, and two identities with a colon in an id
    that share a key. *)
Lemma getConnectionKey_injective_witness :
  ("tenant" = "tenant" /\ "ws" = "ws" /\ "user" = "user")
  /\ getConnectionKey "a:b" "c" "d" = getConnectionKey "a" "b:c" "d".
Proof.
  split; [| reflexivity].
  apply (getConnectionKey_injective "tenant" "ws" "user" "tenant" "ws" "user");
    reflexivity.
Defined.

(** ** [testConnection] *)

Lemma getConnection_throws_objects (env : Env) (u t ws : string) (w : World) :
  fst (getConnection env u t ws w) <> Throws ThrownUndefined
  /\ fst (getConnection env u t ws w) <> Diverges.
Proof.
  split; [| exact (proj2 (getConnection_sameCounts env u t ws w))].
  unfold getConnection, try_catch.
  match goal with
  | |- context [match ?body w with _ => _ end] =>
      destruct (body w) as [[c | e |] w1]
  end; cbn [fst]; try discriminate.
  cbv beta iota delta [bind set_poolStats modify log_error_message lift throw ret].
  destruct e; cbn; discriminate.
Qed.

(** X10: [testConnection] always resolves, it never rejects.  It reports
    success with the data of the connection exactly when [getConnection]
    returns one, and otherwise [success: false] with the message of the
    error. *)
Theorem testConnection_always_resolves (env : Env) (u t ws : string) (w : World) :
  exists (res : ConnectionTest) (w' : World),
    testConnection env u t ws w = (Returns res, w')
    /\ match fst (getConnection env u t ws w) with
       | Returns c =>
           ct_success res = true
           /\ ct_connectionKey res = Some (getConnectionKey t ws u)
           /\ ct_usageCount res = Some (usageCount c)
           /\ ct_error res = None
       | Throws (ThrownError e) =>
           ct_success res = false /\ ct_error res = message e
           /\ w' = snd (getConnection env u t ws w)
       | _ => False
       end.
Proof.
  destruct (getConnection_throws_objects env u t ws w) as [Hobj Hfin].
  unfold testConnection, try_catch. unfold bind at 1.
  destruct (getConnection env u t ws w) as [[c | [| e] |] w1]; cbn [fst snd] in *;
    try congruence.
  - cbv beta iota delta [bind now ret]. eexists. eexists.
    split; [reflexivity |]. cbn. repeat split.
  - cbv beta iota delta [bind lift ret error_message]. eexists. eexists.
    split; [reflexivity |]. cbn. repeat split.
Qed.

(** * The rest of the query executor *)

(** ** What a caller of [executeDAXQuery] receives *)

(** The errors the retry loop hands on are objects. *)
Definition exitWithObject (r : completion LoopExit) : Prop :=
  match r with
  | Returns (ReturnResult _) => True
  | Returns (Break e) | Returns (NextAttempt e) | Throws e => e <> ThrownUndefined
  | Diverges => False
  end.

Lemma invalidateWithFreeTenantId_throws_objects (env : Env) (u ws : string)
  (w : World) :
  tame (fst (invalidateWithFreeTenantId env u ws w)).
Proof.
  unfold invalidateWithFreeTenantId.
  destruct (globalTenantId env) as [t |]; [| exact I].
  rewrite invalidateConnection_run. exact I.
Qed.

Lemma attemptQuery_exitWithObject (env : Env) (u ws d q : string) (attempt : Z)
  (w : World) :
  exitWithObject (fst (attemptQuery env u ws d q attempt w)).
Proof.
  unfold attemptQuery, try_catch, executeSingleQuery, raceWithTimeout.
  unfold bind at 1. unfold try_catch.
  destruct (remote env (remoteCalls w)) as [v | e]; cbn [await ret throw].
  - destruct (attempt >? 1)%Z; cbn; exact I.
  - unfold bind at 1. unfold lift at 1.
    pose proof (isRetryableError_tame e) as Hr.
    destruct (isRetryableError e) as [[|] | [| e'] |] eqn:Hretry; cbn in Hr;
      try contradiction; cbn [negb fst].
    + assert (He : e <> ThrownUndefined) by (intros ->; discriminate Hretry).
      destruct (attempt >=? maxRetries (retryConfig env))%Z; [exact He |].
      cbv beta iota delta [bind calculateBackoffDelay mathRandom sleep emit modify
                             lift ret].
      pose proof (shouldInvalidateConnection_tame e) as Hs.
      destruct (shouldInvalidateConnection e) as [[|] | [| e'] |]; cbn in Hs;
        try contradiction; cbn [fst]; try discriminate; try exact He.
      match goal with
      | |- context [invalidateWithFreeTenantId env u ws ?w1] =>
          pose proof (invalidateWithFreeTenantId_throws_objects env u ws w1) as Hi;
          destruct (invalidateWithFreeTenantId env u ws w1) as [[[] | [| e'] |] w2]
      end; cbn in Hi; try contradiction; cbn [fst]; try discriminate. exact He.
    + intros ->. discriminate Hretry.
    + discriminate.
Qed.

Lemma retryLoop_throws_objects (env : Env) (u ws d q : string) (fuel : nat) :
  forall (attempt : Z) (lastError : thrown) (w : World),
    (Z.to_nat (maxRetries (retryConfig env) - attempt) <= fuel)%nat ->
    lastError <> ThrownUndefined \/ (attempt < maxRetries (retryConfig env))%Z ->
    tame (fst (retryLoop env fuel u ws d q attempt lastError w)).
Proof.
  induction fuel as [| fuel IH]; intros attempt lastError w Hfuel Hlast; cbn [retryLoop];
    destruct (Z.ltb_spec attempt (maxRetries (retryConfig env))) as [Hlt | Hge].
  - lia.
  - destruct Hlast as [Hlast | Hlast]; [| lia]. cbn. destruct lastError; [congruence | exact I].
  - unfold bind.
    pose proof (attemptQuery_exitWithObject env u ws d q (attempt + 1) w) as Hexit.
    destruct (attemptQuery env u ws d q (attempt + 1) w) as [[[v | e | e] | e |] w1];
      cbn in Hexit |- *; try contradiction; try exact I.
    + destruct e; [congruence | exact I].
    + apply IH; [lia | left; exact Hexit].
    + destruct e; [congruence | exact I].
  - destruct Hlast as [Hlast | Hlast]; [| lia]. cbn. destruct lastError; [congruence | exact I].
Qed.

(** X11: with at least one attempt configured, [executeDAXQuery] always
    resolves with a result object, whatever the token provider and the
    remote service do; it never rejects.  The object carries the query; it
    has no [results] when it reports a failure and no [error] when it
    reports a success. *)
Theorem executeDAXQuery_always_resolves (env : Env) (u t ws d q : string) (w : World) :
  (0 < maxRetries (retryConfig env))%Z ->
  exists (outcome : QueryOutcome) (w' : World),
    executeDAXQuery env u t ws d q w = (Returns outcome, w')
    /\ q_query outcome = q
    /\ (success outcome = false -> q_results outcome = VUndefined)
    /\ (success outcome = true -> q_error outcome = None).
Proof.
  intros Hmax. unfold executeDAXQuery.
  cbv beta iota delta [bind now set_execStats modify].
  match goal with
  | |- context [executeDAXQuery_try env ?s u t ws d q ?w1] =>
      generalize w1; generalize s
  end.
  intros start w1. unfold executeDAXQuery_try, try_catch. unfold bind at 1.
  destruct (getConnection_throws_objects env u t ws w1) as [Hobj Hfin].
  destruct (getConnection env u t ws w1) as [[c | [| e] |] w2]; cbn [fst] in *;
    try congruence.
  - unfold bind at 1.
    pose proof (retryLoop_throws_objects env u ws d q
                  (Z.to_nat (maxRetries (retryConfig env))) 0 ThrownUndefined w2
                  ltac:(lia) (or_intror Hmax)) as Hloop.
    fold (executeWithRetry env u ws d q c) in Hloop.
    destruct (executeWithRetry env u ws d q c w2) as [[v | [| e] |] w3];
      cbn in Hloop; try contradiction.
    + destruct (extractRowCount_returns env v) as (n & Hn).
      cbv beta iota delta [bind now set_execStats modify lift ret]. rewrite Hn.
      eexists. eexists. split; [reflexivity |]. cbn.
      split; [reflexivity |]. split; [discriminate | reflexivity].
    + cbv beta iota delta [bind now set_execStats modify lift ret error_message].
      eexists. eexists. split; [reflexivity |]. cbn.
      split; [reflexivity |]. split; [reflexivity | discriminate].
  - cbv beta iota delta [bind now set_execStats modify lift ret error_message].
    eexists. eexists. split; [reflexivity |]. cbn.
    split; [reflexivity |]. split; [reflexivity | discriminate].
Qed.

(** The theorem at the configured policy, with a service that rejects with
    [undefined]. *)
Lemma executeDAXQuery_always_resolves_witness :
  exists outcome w',
    executeDAXQuery hourTokenEnv "user" "tenant" "ws" "dataset" "EVALUATE Sales"
      emptyWorld = (Returns outcome, w')
    /\ q_query outcome = "EVALUATE Sales".
Proof.
  destruct (executeDAXQuery_always_resolves hourTokenEnv
              "user" "tenant" "ws" "dataset" "EVALUATE Sales" emptyWorld)
    as (o & w' & Hrun & Hq & _); [cbn; lia |].
  exists o, w'. split; [exact Hrun | exact Hq].
Defined.

(** The pool does not talk to the remote service. *)
Definition sameRemote (w w' : World) : Prop := remoteCalls w' = remoteCalls w.

Lemma sameRemote_refl (w : World) : sameRemote w w.
Proof. reflexivity. Qed.

Lemma sameRemote_trans (w1 w2 w3 : World) :
  sameRemote w1 w2 -> sameRemote w2 w3 -> sameRemote w1 w3.
Proof. unfold sameRemote. congruence. Qed.

Lemma now_sameRemote (env : Env) : preserves sameRemote (now env).
Proof. intros w. split; [reflexivity | discriminate]. Qed.

Lemma getValidToken_sameRemote (env : Env) (u : string) :
  preserves sameRemote (getValidToken env u).
Proof.
  intros w. unfold getValidToken, sameRemote, await, ret, throw.
  destruct (tokenProvider env (tokenCalls w)); cbn; (split; [reflexivity | discriminate]).
Qed.

Lemma getConnection_sameRemote (env : Env) (u t ws : string) :
  preserves sameRemote (getConnection env u t ws).
Proof.
  unfold getConnection, isConnectionValid, createAndInsert, createConnection,
    findOldestConnection.
  repeat first
    [ apply now_sameRemote
    | apply getValidToken_sameRemote
    | frame_step sameRemote_refl sameRemote_trans
    | solve [unfold sameRemote; cbn; auto]
    | progress unfold log_error_message, poolSet, poolDelete, set_pool,
        set_poolStats, set_execStats ].
Qed.

(** X12: with [maxRetries] zero or negative, [executeWithRetry] makes no
    attempt and throws [undefined]; [executeDAXQuery] then never reports a
    success, and when the connection was obtained it rejects with the
    [TypeError] of reading [error.message] in its own [catch], after
    counting the query as failed. *)
Theorem executeDAXQuery_without_attempts (env : Env) (u t ws d q : string) (w : World) :
  (maxRetries (retryConfig env) <= 0)%Z ->
  let r := executeDAXQuery env u t ws d q w in
  remoteCalls (snd r) = remoteCalls w
  /\ failedQueries (execStats (snd r)) = (failedQueries (execStats w) + 1)%Z
  /\ (forall outcome, fst r = Returns outcome -> success outcome = false)
  /\ ((exists c w1, getConnection env u t ws (snd (set_execStats incr_totalQueries
                                                    (snd (now env w)))) = (Returns c, w1)) ->
      fst r = Throws (TypeError "Cannot read properties of undefined (reading 'message')")).
Proof.
  intros Hmax.
  assert (Hmain : forall res w', executeDAXQuery env u t ws d q w = (res, w') ->
    remoteCalls w' = remoteCalls w
    /\ failedQueries (execStats w') = (failedQueries (execStats w) + 1)%Z
    /\ (forall outcome, res = Returns outcome -> success outcome = false)
    /\ ((exists c w1, getConnection env u t ws (snd (set_execStats incr_totalQueries
                                                      (snd (now env w)))) = (Returns c, w1)) ->
        res = Throws (TypeError "Cannot read properties of undefined (reading 'message')"))).
  { intros res w'. unfold executeDAXQuery.
    cbv beta iota delta [bind now set_execStats modify]. cbn [snd].
    match goal with
    | |- context [executeDAXQuery_try env ?s u t ws d q ?x] => set (w1 := x); set (start := s)
    end.
    assert (Hw1 : remoteCalls w1 = remoteCalls w
                  /\ failedQueries (execStats w1) = failedQueries (execStats w))
      by (split; reflexivity).
    clearbody w1 start. destruct Hw1 as [Hr1 Hf1].
    unfold executeDAXQuery_try, try_catch. unfold bind at 1.
    assert (Hframe : remoteCalls (snd (getConnection env u t ws w1)) = remoteCalls w1
                     /\ failedQueries (execStats (snd (getConnection env u t ws w1)))
                        = failedQueries (execStats w1)).
    { split; [exact (proj1 (getConnection_sameRemote env u t ws w1)) |].
      exact (proj2 (proj2 (proj1 (getConnection_sameCounts env u t ws w1)))). }
    destruct Hframe as [Hr2 Hf2].
    destruct (getConnection_throws_objects env u t ws w1) as [Hobj Hfin].
    destruct (getConnection env u t ws w1) as [[c | [| e] |] w2]; cbn [fst snd] in *;
      try congruence.
    - unfold bind at 1. unfold executeWithRetry.
      assert (Hloop : retryLoop env (Z.to_nat (maxRetries (retryConfig env)))
                        u ws d q 0 ThrownUndefined w2 = (Throws ThrownUndefined, w2)).
      { destruct (Z.to_nat (maxRetries (retryConfig env))); cbn [retryLoop];
          destruct (Z.ltb_spec 0 (maxRetries (retryConfig env))); try lia; reflexivity. }
      rewrite Hloop.
      cbv beta iota delta [bind now set_execStats modify lift ret error_message throw].
      intros H. injection H as <- <-. cbn.
      split; [congruence |]. split; [lia |]. split; [discriminate |]. reflexivity.
    - cbv beta iota delta [bind now set_execStats modify lift ret error_message].
      intros H. injection H as <- <-. cbn.
      split; [congruence |]. split; [lia |].
      split; [intros o Ho; injection Ho as <-; reflexivity |].
      intros (c & w3 & Hc). discriminate Hc. }
  cbv zeta.
  destruct (executeDAXQuery env u t ws d q w) as [res w'] eqn:Hrun.
  exact (Hmain res w' eq_refl).
Qed.

Definition noRetryEnv : Env :=
  {| poolConfig := defaultPoolConfig;
     retryConfig := {| maxRetries := 0; baseDelay := 1000; maxDelay := 10000;
                       timeout := 30000 |};
     clock := fun k => Z.of_nat k;
     tokenProvider :=
       fun _ => Fulfilled (Some {| access_token := "tok"; expires_at := 3600000 |});
     remote := fun _ => Fulfilled (VObj []);
     random := fun _ => 0%Q;
     globalTenantId := None;
     coercedPositive := fun _ => Some false |}.

(** The theorem with [XMLA_MAX_RETRIES=0] and a service that would
    answer. *)
Lemma executeDAXQuery_without_attempts_witness :
  fst (executeDAXQuery noRetryEnv "user" "tenant" "ws" "dataset" "EVALUATE Sales" emptyWorld)
  = Throws (TypeError "Cannot read properties of undefined (reading 'message')").
Proof.
  apply (executeDAXQuery_without_attempts noRetryEnv
           "user" "tenant" "ws" "dataset" "EVALUATE Sales" emptyWorld); [cbn; lia |].
  eexists. eexists. vm_compute. reflexivity.
Defined.

(** ** Recovery by retrying *)

(** The number of back-off waits a run has made. *)
Definition sleepsIn (events : list Event) : nat :=
  List.length (filter (fun ev => match ev with EvSleep _ => true | _ => false end) events).

Lemma sleepsIn_app (events : list Event) (ev : Event) :
  sleepsIn (events ++ [ev])
  = (sleepsIn events + match ev with EvSleep _ => 1 | _ => 0 end)%nat.
Proof.
  unfold sleepsIn. rewrite filter_app, length_app. destruct ev; reflexivity.
Qed.

Lemma attemptQuery_fulfilled (env : Env) (u ws d q : string) (attempt : Z)
  (w : World) (v : value) :
  remote env (remoteCalls w) = Fulfilled v ->
  exists w' : World,
    attemptQuery env u ws d q attempt w = (Returns (ReturnResult v), w')
    /\ remoteCalls w' = S (remoteCalls w)
    /\ attemptsIn (trace w') = S (attemptsIn (trace w))
    /\ sleepsIn (trace w') = sleepsIn (trace w)
    /\ retriedQueries (execStats w')
       = (retriedQueries (execStats w) + (if (attempt >? 1)%Z then 1 else 0))%Z.
Proof.
  intros Hremote.
  cbv beta iota delta [attemptQuery try_catch bind executeSingleQuery raceWithTimeout].
  rewrite Hremote. cbv beta iota delta [await ret].
  destruct (attempt >? 1)%Z; cbv beta iota delta [set_execStats modify ret];
    (eexists; split; [reflexivity |]); cbn [remoteCalls trace execStats retriedQueries
                                             incr_retriedQueries];
    rewrite attemptsIn_app, sleepsIn_app; repeat split; lia.
Qed.

Lemma attemptQuery_retried (env : Env) (u ws d q : string) (attempt : Z)
  (w : World) (e : JsError) :
  remote env (remoteCalls w) = Rejected (ThrownError e) ->
  isRetryableError (ThrownError e) = Returns true ->
  shouldInvalidateConnection (ThrownError e) = Returns false ->
  (attempt < maxRetries (retryConfig env))%Z ->
  exists w' : World,
    attemptQuery env u ws d q attempt w = (Returns (NextAttempt (ThrownError e)), w')
    /\ remoteCalls w' = S (remoteCalls w)
    /\ attemptsIn (trace w') = S (attemptsIn (trace w))
    /\ sleepsIn (trace w') = S (sleepsIn (trace w))
    /\ retriedQueries (execStats w') = retriedQueries (execStats w).
Proof.
  intros Hremote Hretry Hinv Hlt.
  cbv beta iota delta [attemptQuery try_catch bind executeSingleQuery raceWithTimeout lift].
  rewrite Hremote. cbv beta iota delta [await throw].
  rewrite Hretry. cbv beta iota delta [negb].
  destruct (Z.geb_spec attempt (maxRetries (retryConfig env))) as [Hge | _]; [lia |].
  cbv beta iota delta [calculateBackoffDelay mathRandom sleep emit modify bind ret].
  rewrite Hinv. cbv beta iota.
  eexists. split; [reflexivity |]. cbn [remoteCalls trace execStats].
  rewrite !attemptsIn_app, !sleepsIn_app. repeat split; lia.
Qed.

Lemma retryLoop_recovers (env : Env) (answer : value) (u ws d q : string) (k : nat) :
  forall (failure : nat -> JsError) (fuel : nat) (attempt : Z) (lastError : thrown)
         (w : World),
    (0 <= attempt)%Z ->
    (attempt + Z.of_nat k < maxRetries (retryConfig env))%Z ->
    (Z.to_nat (maxRetries (retryConfig env) - attempt) <= fuel)%nat ->
    (forall i, (i < k)%nat ->
       remote env (remoteCalls w + i) = Rejected (ThrownError (failure i))
       /\ isRetryableError (ThrownError (failure i)) = Returns true
       /\ shouldInvalidateConnection (ThrownError (failure i)) = Returns false) ->
    remote env (remoteCalls w + k) = Fulfilled answer ->
    exists w' : World,
      retryLoop env fuel u ws d q attempt lastError w = (Returns answer, w')
      /\ attemptsIn (trace w') = (attemptsIn (trace w) + k + 1)%nat
      /\ sleepsIn (trace w') = (sleepsIn (trace w) + k)%nat
      /\ retriedQueries (execStats w')
         = (retriedQueries (execStats w)
            + (if (attempt + Z.of_nat k >? 0)%Z then 1 else 0))%Z.
Proof.
  induction k as [| k IH];
    intros failure fuel attempt lastError w H0 Hlt Hfuel Hfail Hok.
  - destruct fuel as [| fuel]; [lia |]. cbn [retryLoop].
    destruct (Z.ltb_spec attempt (maxRetries (retryConfig env))) as [_ | Hge]; [| lia].
    rewrite Nat.add_0_r in Hok.
    destruct (attemptQuery_fulfilled env u ws d q (attempt + 1) w answer Hok)
      as (w' & Hrun & _ & Ha & Hs & Hr).
    unfold bind. rewrite Hrun. unfold ret. exists w'. split; [reflexivity |].
    rewrite Ha, Hs, Hr. split; [lia |]. split; [lia |].
    replace (attempt + Z.of_nat 0)%Z with attempt by lia.
    destruct (Z.gtb_spec (attempt + 1) 1), (Z.gtb_spec attempt 0); lia.
  - destruct fuel as [| fuel]; [lia |]. cbn [retryLoop].
    destruct (Z.ltb_spec attempt (maxRetries (retryConfig env))) as [_ | Hge]; [| lia].
    destruct (Hfail 0%nat ltac:(lia)) as (Hrem & Hretry & Hinv).
    rewrite Nat.add_0_r in Hrem.
    destruct (attemptQuery_retried env u ws d q (attempt + 1) w (failure 0%nat)
                Hrem Hretry Hinv ltac:(lia))
      as (w1 & Hrun & Hcalls & Ha & Hs & Hr).
    unfold bind. rewrite Hrun.
    destruct (IH (fun i => failure (S i)) fuel (attempt + 1)%Z
                (ThrownError (failure 0%nat)) w1)
      as (w' & Hloop & Ha' & Hs' & Hr'); [lia | lia | lia | | |].
    + intros i Hi. rewrite Hcalls.
      replace (S (remoteCalls w) + i)%nat with (remoteCalls w + S i)%nat by lia.
      apply Hfail. lia.
    + rewrite Hcalls.
      replace (S (remoteCalls w) + k)%nat with (remoteCalls w + S k)%nat by lia.
      exact Hok.
    + exists w'. split; [exact Hloop |]. rewrite Ha', Hs', Hr', Ha, Hs, Hr.
      split; [lia |]. split; [lia |].
      destruct (Z.gtb_spec (attempt + 1 + Z.of_nat k) 0),
               (Z.gtb_spec (attempt + Z.of_nat (S k)) 0); lia.
Qed.

(** X13: when the first [k] attempts fail with retryable errors that do
    not ask for an invalidation, their messages being ASCII text, and the
    next attempt succeeds, with [k < maxRetries], [executeWithRetry]
    returns the answer of that attempt
    after [k + 1] attempts and [k] back-off waits; [retriedQueries] is
    counted once when [k > 0] and not at all when the first attempt
    succeeds. *)
Theorem executeWithRetry_recovers (env : Env) (u ws d q : string) (c : Connection)
  (w : World) (k : nat) (failure : nat -> JsError) (answer : value) :
  (Z.of_nat k < maxRetries (retryConfig env))%Z ->
  (forall i, (i < k)%nat -> asciiMessage (failure i) = true) ->
  (forall i, (i < k)%nat ->
     remote env (remoteCalls w + i) = Rejected (ThrownError (failure i))
     /\ isRetryableError (ThrownError (failure i)) = Returns true
     /\ shouldInvalidateConnection (ThrownError (failure i)) = Returns false) ->
  remote env (remoteCalls w + k) = Fulfilled answer ->
  exists w' : World,
    executeWithRetry env u ws d q c w = (Returns answer, w')
    /\ attemptsIn (trace w') = (attemptsIn (trace w) + k + 1)%nat
    /\ sleepsIn (trace w') = (sleepsIn (trace w) + k)%nat
    /\ retriedQueries (execStats w')
       = (retriedQueries (execStats w) + (if (0 <? Z.of_nat k)%Z then 1 else 0))%Z.
Proof.
  intros Hk _ Hfail Hok. unfold executeWithRetry.
  destruct (retryLoop_recovers env answer u ws d q k failure
              (Z.to_nat (maxRetries (retryConfig env))) 0 ThrownUndefined w)
    as (w' & Hrun & Ha & Hs & Hr); try lia; try assumption.
  exists w'. split; [exact Hrun |]. split; [exact Ha |]. split; [exact Hs |].
  rewrite Hr. destruct (Z.gtb_spec (0 + Z.of_nat k) 0), (Z.ltb_spec 0 (Z.of_nat k)); lia.
Qed.

(** A service that times out once and then answers. *)
Definition flakyEnv : Env :=
  {| poolConfig := defaultPoolConfig;
     retryConfig := defaultRetryConfig;
     clock := fun k => Z.of_nat k;
     tokenProvider :=
       fun _ => Fulfilled (Some {| access_token := "tok"; expires_at := 3600000 |});
     remote := fun k => match k with
                        | O => Rejected (ThrownError (plainError "Query timeout after 30000ms"))
                        | _ => Fulfilled (VObj [("results", VArr [])])
                        end;
     random := fun _ => (1 # 2)%Q;
     globalTenantId := None;
     coercedPositive := fun _ => Some false |}.

(** The theorem on one time-out followed by an answer. *)
Lemma executeWithRetry_recovers_witness :
  exists w',
    executeWithRetry flakyEnv "user" "ws" "dataset" "EVALUATE Sales" edgeConnection
      emptyWorld = (Returns (VObj [("results", VArr [])]), w')
    /\ attemptsIn (trace w') = 2%nat
    /\ sleepsIn (trace w') = 1%nat
    /\ retriedQueries (execStats w') = 1%Z.
Proof.
  destruct (executeWithRetry_recovers flakyEnv "user" "ws" "dataset" "EVALUATE Sales"
              edgeConnection emptyWorld 1
              (fun _ => plainError "Query timeout after 30000ms")
              (VObj [("results", VArr [])]))
    as (w' & Hrun & Ha & Hs & Hr).
  - cbn. lia.
  - intros i Hi. reflexivity.
  - intros i Hi. assert (i = 0%nat) as -> by lia. repeat split.
  - reflexivity.
  - exists w'. split; [exact Hrun |]. split; [exact Ha |]. split; [exact Hs | exact Hr].
Defined.

(** ** The budget of a call *)

(** Between the two worlds, no query was sent and no back-off wait made. *)
Definition sameTraffic (w w' : World) : Prop :=
  remoteCalls w' = remoteCalls w /\ sleepsIn (trace w') = sleepsIn (trace w).

Lemma sameTraffic_refl (w : World) : sameTraffic w w.
Proof. split; reflexivity. Qed.

Lemma sameTraffic_trans (w1 w2 w3 : World) :
  sameTraffic w1 w2 -> sameTraffic w2 w3 -> sameTraffic w1 w3.
Proof. unfold sameTraffic. intros [? ?] [? ?]. split; congruence. Qed.

Lemma now_sameTraffic (env : Env) : preserves sameTraffic (now env).
Proof. intros w. split; [split; reflexivity | discriminate]. Qed.

Lemma mathRandom_sameTraffic (env : Env) : preserves sameTraffic (mathRandom env).
Proof. intros w. split; [split; reflexivity | discriminate]. Qed.

Lemma getValidToken_sameTraffic (env : Env) (u : string) :
  preserves sameTraffic (getValidToken env u).
Proof.
  intros w. unfold getValidToken, sameTraffic, await, ret, throw.
  destruct (tokenProvider env (tokenCalls w)); cbn [fst snd trace remoteCalls];
    (split; [split; [reflexivity | rewrite sleepsIn_app; lia] | discriminate]).
Qed.

Lemma emit_invalidate_sameTraffic (key : string) :
  preserves sameTraffic (emit (EvInvalidate key)).
Proof.
  intros w. unfold emit, modify, sameTraffic. cbn [fst snd trace remoteCalls].
  split; [split; [reflexivity | rewrite sleepsIn_app; lia] | discriminate].
Qed.

Ltac frame_traffic :=
  repeat first
    [ apply now_sameTraffic
    | apply getValidToken_sameTraffic
    | apply mathRandom_sameTraffic
    | apply emit_invalidate_sameTraffic
    | frame_step sameTraffic_refl sameTraffic_trans
    | solve [unfold sameTraffic; cbn; auto]
    | progress unfold log_error_message, poolSet, poolDelete, set_pool,
        set_poolStats, set_execStats ].

Lemma getConnection_sameTraffic (env : Env) (u t ws : string) :
  preserves sameTraffic (getConnection env u t ws).
Proof.
  unfold getConnection, isConnectionValid, createAndInsert, createConnection,
    findOldestConnection.
  frame_traffic.
Qed.

Lemma invalidateWithFreeTenantId_sameTraffic (env : Env) (u ws : string) :
  preserves sameTraffic (invalidateWithFreeTenantId env u ws).
Proof. unfold invalidateWithFreeTenantId, invalidateConnection. frame_traffic. Qed.

(** [c] sends at most [n] queries and waits at most [m] times. *)
Definition bounded {A} (n m : nat) (c : M A) : Prop :=
  forall w,
    (remoteCalls (snd (c w)) <= remoteCalls w + n)%nat
    /\ (sleepsIn (trace (snd (c w))) <= sleepsIn (trace w) + m)%nat.

Lemma bounded_quiet {A} (c : M A) : preserves sameTraffic c -> bounded 0 0 c.
Proof. intros H w. destruct (H w) as [[Hr Hs] _]. split; lia. Qed.

Lemma bounded_weaken {A} (n m n' m' : nat) (c : M A) :
  (n <= n')%nat -> (m <= m')%nat -> bounded n m c -> bounded n' m' c.
Proof. intros Hn Hm H w. destruct (H w). split; lia. Qed.

Lemma bounded_bind {A B} (n1 m1 n2 m2 : nat) (c : M A) (k : A -> M B) :
  bounded n1 m1 c -> (forall a, bounded n2 m2 (k a)) ->
  bounded (n1 + n2) (m1 + m2) (bind c k).
Proof.
  intros Hc Hk w. unfold bind. destruct (Hc w) as [Hr Hs].
  destruct (c w) as [[a | e |] w1]; cbn [fst snd] in *; try (split; lia).
  destruct (Hk a w1). split; lia.
Qed.

Lemma bounded_try_catch {A} (n1 m1 n2 m2 : nat) (body : M A)
  (handler : thrown -> M A) :
  bounded n1 m1 body -> (forall e, bounded n2 m2 (handler e)) ->
  bounded (n1 + n2) (m1 + m2) (try_catch body handler).
Proof.
  intros Hb Hh w. unfold try_catch. destruct (Hb w) as [Hr Hs].
  destruct (body w) as [[a | e |] w1]; cbn [fst snd] in *; try (split; lia).
  destruct (Hh e w1). split; lia.
Qed.

Lemma raceWithTimeout_bounded (env : Env) (ws d q : string) :
  bounded 1 0 (raceWithTimeout env ws d q).
Proof.
  intros w. unfold raceWithTimeout, await, ret, throw.
  destruct (remote env (remoteCalls w)); cbn [fst snd trace remoteCalls];
    rewrite sleepsIn_app; split; lia.
Qed.

Lemma sleep_bounded (ms : Z) : bounded 0 1 (sleep ms).
Proof.
  intros w. unfold sleep, emit, modify. cbn [fst snd trace remoteCalls].
  rewrite sleepsIn_app. split; lia.
Qed.

(** One turn of the loop sends one query at most, and waits only when
    another attempt is left. *)
Lemma attemptQuery_bounded (env : Env) (u ws d q : string) (attempt : Z) :
  bounded 1 (if (attempt <? maxRetries (retryConfig env))%Z then 1 else 0)
    (attemptQuery env u ws d q attempt).
Proof.
  unfold attemptQuery, executeSingleQuery.
  apply (bounded_weaken (1 + 0)
           (0 + (if (attempt <? maxRetries (retryConfig env))%Z then 1 else 0)));
    [lia | lia |].
  apply bounded_try_catch.
  - apply (bounded_weaken (1 + 0) (0 + 0)); [lia | lia |].
    apply bounded_bind.
    + apply (bounded_weaken (1 + 0) (0 + 0)); [lia | lia |].
      apply bounded_try_catch; [apply raceWithTimeout_bounded |].
      intros e. apply bounded_quiet. frame_traffic.
    + intros result. apply bounded_quiet. frame_traffic.
  - intros e.
    apply (bounded_weaken (0 + 0)
             (0 + (if (attempt <? maxRetries (retryConfig env))%Z then 1 else 0)));
      [lia | lia |].
    apply bounded_bind.
    + apply bounded_quiet. frame_traffic.
    + intros isRetryable. destruct isRetryable; cbn [negb].
      * destruct (Z.geb_spec attempt (maxRetries (retryConfig env))) as [Hge | Hlt].
        -- apply (bounded_weaken 0 0); [lia | lia |]. apply bounded_quiet. frame_traffic.
        -- destruct (Z.ltb_spec attempt (maxRetries (retryConfig env))); [| lia].
           apply (bounded_weaken (0 + (0 + 0)) (0 + (1 + 0))); [lia | lia |].
           apply bounded_bind.
           ++ apply bounded_quiet. unfold calculateBackoffDelay. frame_traffic.
           ++ intros delay. apply bounded_bind; [apply sleep_bounded |].
              intros _. apply bounded_quiet.
              frame_traffic; apply invalidateWithFreeTenantId_sameTraffic.
      * apply (bounded_weaken 0 0); [lia | lia |]. apply bounded_quiet. frame_traffic.
Qed.

(** A turn asks for another one only below the limit. *)
Lemma attemptQuery_next (env : Env) (u ws d q : string) (attempt : Z) (w : World)
  (e : thrown) :
  fst (attemptQuery env u ws d q attempt w) = Returns (NextAttempt e) ->
  (attempt < maxRetries (retryConfig env))%Z.
Proof.
  destruct (Z.ltb_spec attempt (maxRetries (retryConfig env))) as [Hlt | Hge];
    [intros _; exact Hlt |].
  cbv beta iota delta [attemptQuery try_catch bind executeSingleQuery raceWithTimeout
                         lift].
  destruct (remote env (remoteCalls w)) as [v | err]; cbv beta iota delta [await ret throw].
  - destruct (attempt >? 1)%Z; cbn; discriminate.
  - destruct (isRetryableError err) as [[|] | err' |]; cbn [negb]; cbn [fst];
      try discriminate.
    destruct (Z.geb_spec attempt (maxRetries (retryConfig env))); [| lia].
    cbn. discriminate.
Qed.

Lemma retryLoop_bounded (env : Env) (u ws d q : string) (fuel : nat) :
  forall (attempt : Z) (lastError : thrown),
    bounded (Z.to_nat (maxRetries (retryConfig env) - attempt))
            (Z.to_nat (maxRetries (retryConfig env) - attempt - 1))
            (retryLoop env fuel u ws d q attempt lastError).
Proof.
  induction fuel as [| fuel IH]; intros attempt lastError w; cbn [retryLoop];
    destruct (Z.ltb_spec attempt (maxRetries (retryConfig env))) as [Hlt | Hge];
    try (cbn; split; lia).
  unfold bind.
  pose proof (attemptQuery_bounded env u ws d q (attempt + 1) w) as [Hr Hs].
  pose proof (attemptQuery_next env u ws d q (attempt + 1) w) as Hnext.
  destruct (attemptQuery env u ws d q (attempt + 1) w) as [[[v | e | e] | e |] w1];
    unfold ret, throw; cbn [fst snd] in *;
    destruct (Z.ltb_spec (attempt + 1) (maxRetries (retryConfig env))) as [Hmore | Hlast];
    try (split; lia).
  all: try (destruct (IH (attempt + 1)%Z e w1); split; lia).
  all: specialize (Hnext e eq_refl); lia.
Qed.

(** X14: whatever the token provider and the remote service answer, one
    call of [executeDAXQuery] sends at most [maxRetries] queries to the
    remote service and makes at most [maxRetries - 1] back-off waits. *)
Theorem executeDAXQuery_within_budget (env : Env) (u t ws d q : string) (w : World) :
  (remoteCalls (snd (executeDAXQuery env u t ws d q w))
   <= remoteCalls w + Z.to_nat (maxRetries (retryConfig env)))%nat
  /\ (sleepsIn (trace (snd (executeDAXQuery env u t ws d q w)))
      <= sleepsIn (trace w) + Z.to_nat (maxRetries (retryConfig env) - 1))%nat.
Proof.
  set (n := Z.to_nat (maxRetries (retryConfig env))).
  set (m := Z.to_nat (maxRetries (retryConfig env) - 1)).
  assert (H : bounded n m (executeDAXQuery env u t ws d q)); [| exact (H w)].
  unfold executeDAXQuery, executeDAXQuery_try, executeWithRetry.
  apply (bounded_weaken (0 + (0 + (0 + (n + 0) + 0))) (0 + (0 + (0 + (m + 0) + 0))));
    [lia | lia |].
  apply bounded_bind; [apply bounded_quiet, now_sameTraffic |]. intros startTime.
  apply bounded_bind; [apply bounded_quiet; frame_traffic |]. intros _.
  apply bounded_try_catch.
  - apply bounded_bind; [apply bounded_quiet, getConnection_sameTraffic |].
    intros connection. apply bounded_bind.
    + pose proof (retryLoop_bounded env u ws d q n 0 ThrownUndefined) as Hloop.
      rewrite !Z.sub_0_r in Hloop. exact Hloop.
    + intros result. apply bounded_quiet.
      repeat first
        [ apply (preserves_lift _ sameTraffic_refl);
          apply tame_completes;
          match goal with
          | |- tame (extractRowCount ?e ?v) =>
              destruct (extractRowCount_returns e v) as (k & ->); exact I
          end
        | frame_traffic ].
  - intros e. apply bounded_quiet. frame_traffic.
Qed.

(** ** The requests of a snapshot *)

(** An extraction always completes; it sends its discovery query, and
    after it the requests of its fallback or nothing. *)
Lemma extraction_log (svc : Collaborators) (q : DiscoveryQuery)
  (ofRow : value -> completion value) (viaREST : T (list value)) :
  (forall row, tame (ofRow row)) ->
  tame (snd viaREST) ->
  snd (extraction svc q ofRow viaREST) <> Diverges
  /\ (fst (extraction svc q ofRow viaREST) = [CallDAX q]
      \/ fst (extraction svc q ofRow viaREST) = CallDAX q :: fst viaREST).
Proof.
  intros Htame Hrest. unfold extraction, tcatch, tbind, request, tlift, tret.
  destruct (query_executor svc q) as [r | [| e]]; cbn;
    try (split; [discriminate | left; reflexivity]).
  destruct (success r && truthy (resultRows r)).
  - pose proof (array_map_tame (resultRows r) ofRow Htame) as Hmap.
    destruct (array_map (resultRows r) ofRow) as [l | [| e] |];
      cbn in Hmap; try contradiction; cbn;
      (split; [discriminate | left; reflexivity]).
  - destruct viaREST as [log [l | [| e] |]]; cbn in Hrest; try contradiction; cbn;
      rewrite ?app_nil_r; (split; [discriminate | right; reflexivity]).
Qed.

Lemma settle_log {A} (c : T A) :
  snd c <> Diverges ->
  exists s : settled A, settle c = (fst c, Returns s).
Proof.
  destruct c as [log [a | e |]]; cbn; intros H; [eauto | eauto | contradiction].
Qed.

(** The four extractions of a snapshot, settled. *)
Lemma extractions_settle (svc : Collaborators) (u t ws d : string) :
  exists (restT restM : list Call) (sT sM sR sC : settled (list value)),
    settle (extractTables svc u t ws d)
    = (CallDAX INFORMATION_SCHEMA_TABLES :: restT, Returns sT)
    /\ settle (extractMeasures svc u t ws d)
       = (CallDAX INFORMATION_SCHEMA_MEASURES :: restM, Returns sM)
    /\ settle (extractRelationships svc u t ws d)
       = ([CallDAX INFORMATION_SCHEMA_RELATIONSHIPS], Returns sR)
    /\ settle (extractColumns svc u t ws d)
       = ([CallDAX INFORMATION_SCHEMA_COLUMNS], Returns sC)
    /\ (restT = [] \/ restT = [CallREST (tablesPath ws d)])
    /\ (restM = [] \/ restM = [CallREST (measuresPath ws d)]).
Proof.
  destruct (extractTablesViaREST_spec svc u ws d) as (HlogT & HtameT & _).
  destruct (extractMeasuresViaREST_spec svc u ws d) as (HlogM & HtameM & _).
  destruct (extraction_log svc INFORMATION_SCHEMA_TABLES tableOfRow
              (extractTablesViaREST svc u ws d) tableOfRow_tame HtameT) as [HfT HT].
  destruct (extraction_log svc INFORMATION_SCHEMA_MEASURES measureOfRow
              (extractMeasuresViaREST svc u ws d) measureOfRow_tame HtameM) as [HfM HM].
  destruct (extraction_log svc INFORMATION_SCHEMA_RELATIONSHIPS relationshipOfRow
              (tret []) relationshipOfRow_tame I) as [HfR HR].
  destruct (extraction_log svc INFORMATION_SCHEMA_COLUMNS columnOfRow
              (tret []) columnOfRow_tame I) as [HfC HC].
  rewrite <- extractTables_shape with (u := u) (t := t) in HfT, HT.
  rewrite <- extractMeasures_shape with (u := u) (t := t) in HfM, HM.
  rewrite <- extractRelationships_shape with (u := u) (t := t) (ws := ws) (d := d)
    in HfR, HR.
  rewrite <- extractColumns_shape with (u := u) (t := t) (ws := ws) (d := d)
    in HfC, HC.
  destruct (settle_log _ HfT) as [sT HsT]. destruct (settle_log _ HfM) as [sM HsM].
  destruct (settle_log _ HfR) as [sR HsR]. destruct (settle_log _ HfC) as [sC HsC].
  rewrite HlogT in HT. rewrite HlogM in HM. cbn [fst tret] in HR, HC.
  assert (HR' : fst (extractRelationships svc u t ws d)
                = [CallDAX INFORMATION_SCHEMA_RELATIONSHIPS])
    by (destruct HR; assumption).
  assert (HC' : fst (extractColumns svc u t ws d)
                = [CallDAX INFORMATION_SCHEMA_COLUMNS])
    by (destruct HC; assumption).
  rewrite HR' in HsR. rewrite HC' in HsC.
  destruct HT as [HT | HT]; rewrite HT in HsT;
    destruct HM as [HM | HM]; rewrite HM in HsM;
    eexists _, _, sT, sM, sR, sC;
    (split; [exact HsT |]); (split; [exact HsM |]); (split; [exact HsR |]);
    (split; [exact HsC |]); split; auto.
Qed.

(** X15: once the dataset row is found, a run of [extractCompleteMetadata]
    sends each of the four discovery queries exactly once, whatever the
    answers are and whether or not the snapshot can be stored; besides them
    it sends at most two REST requests, and only for the tables and the
    measures of that dataset. *)
Theorem extractCompleteMetadata_requests (svc : Collaborators) (u t ws d : string)
  (dataset : Dataset) :
  findByPowerBIId svc = Fulfilled (Some dataset) ->
  let log := fst (extractCompleteMetadata svc u t ws d) in
  Permutation (filter (fun c => negb (isREST c)) log)
    [CallDAX INFORMATION_SCHEMA_TABLES; CallDAX INFORMATION_SCHEMA_MEASURES;
     CallDAX INFORMATION_SCHEMA_RELATIONSHIPS; CallDAX INFORMATION_SCHEMA_COLUMNS]
  /\ (List.length (filter isREST log) <= 2)%nat
  /\ (forall c, In c (filter isREST log) ->
        c = CallREST (tablesPath ws d) \/ c = CallREST (measuresPath ws d)).
Proof.
  intros Hfind. cbv zeta.
  destruct (extractions_settle svc u t ws d)
    as (restT & restM & sT & sM & sR & sC & HT & HM & HR & HC & HrT & HrM).
  unfold extractCompleteMetadata, storeMetadata. rewrite Hfind, HT, HM, HR, HC.
  destruct HrT as [-> | ->], HrM as [-> | ->];
    destruct (database_query svc) as [[] | [| e]]; cbn;
    (split; [apply Permutation_refl |]); (split; [lia |]);
    intros c Hc; cbn in Hc; intuition.
Qed.

(** The row of the dataset of the examples. *)
Definition salesDataset : Dataset :=
  {| dataset_id := "7"; powerbi_dataset_id := "dataset";
     dataset_name := "Sales"; powerbi_workspace_id := "ws" |}.

(** The theorem on the service whose every channel fails: four discovery
    queries and the two REST requests. *)
Lemma extractCompleteMetadata_requests_witness :
  let log := fst (extractCompleteMetadata allFailingSvc "user" "tenant" "ws" "dataset") in
  Permutation (filter (fun c => negb (isREST c)) log)
    [CallDAX INFORMATION_SCHEMA_TABLES; CallDAX INFORMATION_SCHEMA_MEASURES;
     CallDAX INFORMATION_SCHEMA_RELATIONSHIPS; CallDAX INFORMATION_SCHEMA_COLUMNS]
  /\ (List.length (filter isREST log) <= 2)%nat
  /\ (forall c, In c (filter isREST log) ->
        c = CallREST (tablesPath "ws" "dataset")
        \/ c = CallREST (measuresPath "ws" "dataset")).
Proof.
  exact (extractCompleteMetadata_requests allFailingSvc "user" "tenant" "ws" "dataset"
           salesDataset eq_refl).
Defined.

(** X16: when the dataset row is not found, or the lookup itself fails
    with an error, [extractCompleteMetadata] rejects before any request is
    sent: with [Dataset not found in database] in the first case, with the
    error of the lookup in the second. *)
Theorem extractCompleteMetadata_without_dataset (svc : Collaborators)
  (u t ws d : string) (e : JsError) :
  findByPowerBIId svc = Fulfilled None
  \/ findByPowerBIId svc = Rejected (ThrownError e) ->
  extractCompleteMetadata svc u t ws d
  = ([], Throws (ThrownError
                   (match findByPowerBIId svc with
                    | Rejected _ => e
                    | Fulfilled _ => plainError "Dataset not found in database"
                    end))).
Proof.
  intros [H | H]; unfold extractCompleteMetadata; rewrite H; reflexivity.
Qed.

(** A service that knows no dataset. *)
Definition noDatasetSvc : Collaborators :=
  {| query_executor := query_executor allFailingSvc;
     makeRequest := makeRequest allFailingSvc;
     findByPowerBIId := Fulfilled None;
     database_query := Fulfilled tt;
     reading := fun k => Z.of_nat k |}.

Lemma extractCompleteMetadata_without_dataset_witness :
  extractCompleteMetadata noDatasetSvc "user" "tenant" "ws" "dataset"
  = ([], Throws (ThrownError (plainError "Dataset not found in database"))).
Proof.
  exact (extractCompleteMetadata_without_dataset noDatasetSvc
           "user" "tenant" "ws" "dataset" (plainError "") (or_introl eq_refl)).
Defined.

(** X17: when the snapshot cannot be stored, the error of the database is
    what [extractCompleteMetadata] rejects with, whatever the extractions
    delivered: the collections extracted in that run are not returned. *)
Theorem extractCompleteMetadata_store_failure (svc : Collaborators)
  (u t ws d : string) (dataset : Dataset) (e : JsError) :
  findByPowerBIId svc = Fulfilled (Some dataset) ->
  database_query svc = Rejected (ThrownError e) ->
  snd (extractCompleteMetadata svc u t ws d) = Throws (ThrownError e).
Proof.
  intros Hfind Hstore.
  destruct (extractions_settle svc u t ws d)
    as (restT & restM & sT & sM & sR & sC & HT & HM & HR & HC & _ & _).
  unfold extractCompleteMetadata, storeMetadata.
  rewrite Hfind, Hstore, HT, HM, HR, HC. reflexivity.
Qed.

(** The tables are delivered, the database refuses the update. *)
Definition readOnlySvc : Collaborators :=
  {| query_executor := query_executor onlyTablesSvc;
     makeRequest := makeRequest onlyTablesSvc;
     findByPowerBIId := Fulfilled (Some salesDataset);
     database_query := Rejected (ThrownError (plainError "read-only transaction"));
     reading := fun k => Z.of_nat k |}.

Lemma extractCompleteMetadata_store_failure_witness :
  snd (extractCompleteMetadata readOnlySvc "user" "tenant" "ws" "dataset")
  = Throws (ThrownError (plainError "read-only transaction")).
Proof.
  exact (extractCompleteMetadata_store_failure readOnlySvc
           "user" "tenant" "ws" "dataset" salesDataset
           (plainError "read-only transaction") eq_refl eq_refl).
Defined.

(** ** The validation of a query *)

(** What [validateDAXQuery] returns; the two early returns have no
    [warnings] property. *)
Record Validation := {
  v_isValid : bool;
  v_errors : list string;
  v_warnings : option (list string)
}.

Definition upper_ascii (c : ascii) : ascii :=
  let n := nat_of_ascii c in
  if (andb (97 <=? n)%nat (n <=? 122)%nat) then ascii_of_nat (n - 32) else c.

Fixpoint toUpperCase (s : string) : string :=
  match s with
  | EmptyString => EmptyString
  | String c rest => String (upper_ascii c) (toUpperCase rest)
  end.

(** The white space and line terminators below 128: tab, line feed,
    vertical tab, form feed, carriage return and space. *)
Definition is_whitespace (c : ascii) : bool :=
  let n := nat_of_ascii c in
  (andb (9 <=? n)%nat (n <=? 13)%nat) || (n =? 32)%nat.

Fixpoint trimStart (s : string) : string :=
  match s with
  | EmptyString => EmptyString
  | String c rest => if is_whitespace c then trimStart rest else s
  end.

Fixpoint trimEnd (s : string) : string :=
  match s with
  | EmptyString => EmptyString
  | String c rest =>
      match trimEnd rest with
      | EmptyString => if is_whitespace c then EmptyString else String c EmptyString
      | kept => String c kept
      end
  end.

Definition trim (s : string) : string := trimEnd (trimStart s).

(** [(s.match(/c/g) || []).length] for a single character [c] *)
Fixpoint matches (c : ascii) (s : string) : nat :=
  match s with
  | EmptyString => 0
  | String c' rest => ((if Ascii.eqb c' c then 1 else 0) + matches c rest)%nat
  end.

Definition push_if (b : bool) (msg : string) (errors : list string) : list string :=
  if b then (errors ++ [msg])%list else errors.

Definition validateDAXQuery (daxQuery : value) : Validation :=
  let rejected msg := {| v_isValid := false; v_errors := [msg]; v_warnings := None |} in
  match daxQuery with
  | VStr s =>
      if negb (truthy daxQuery) then rejected "Query must be a non-empty string"
      else
        let trimmedQuery := trim s in
        if (String.length trimmedQuery =? 0)%nat then rejected "Query cannot be empty"
        else
          let upperQuery := toUpperCase trimmedQuery in
          let errors := [] in
          let errors :=
            push_if (negb (includes upperQuery "EVALUATE")
                     && negb (includes upperQuery "DEFINE"))
              "Query must contain EVALUATE or DEFINE statement" errors in
          let openParens := matches "(" trimmedQuery in
          let closeParens := matches ")" trimmedQuery in
          let errors :=
            push_if (negb (openParens =? closeParens)%nat)
              ("Unbalanced parentheses (" ++ string_of_nat openParens ++ " open, "
               ++ string_of_nat closeParens ++ " close)") errors in
          let openBrackets := matches "[" trimmedQuery in
          let closeBrackets := matches "]" trimmedQuery in
          let errors :=
            push_if (negb (openBrackets =? closeBrackets)%nat)
              ("Unbalanced square brackets (" ++ string_of_nat openBrackets ++ " open, "
               ++ string_of_nat closeBrackets ++ " close)") errors in
          let errors :=
            push_if (Z.of_nat (String.length trimmedQuery) >? 50000)%Z
              "Query exceeds maximum length of 50,000 characters" errors in
          {| v_isValid := (List.length errors =? 0)%nat;
             v_errors := errors;
             v_warnings := Some [] |}
  | _ => rejected "Query must be a non-empty string"
  end.

Fixpoint blank (s : string) : bool :=
  match s with
  | EmptyString => true
  | String c rest => is_whitespace c && blank rest
  end.

Lemma trimStart_blank (pad s : string) :
  blank pad = true -> trimStart (pad ++ s) = trimStart s.
Proof.
  induction pad as [| c pad IH]; cbn; [reflexivity |].
  intros H. apply andb_prop in H as [Hc Hpad]. rewrite Hc. exact (IH Hpad).
Qed.

Lemma trimStart_all_blank (pad : string) : blank pad = true -> trimStart pad = "".
Proof.
  induction pad as [| c pad IH]; cbn; [reflexivity |].
  intros H. apply andb_prop in H as [Hc Hpad]. rewrite Hc. exact (IH Hpad).
Qed.

Lemma trimEnd_blank (pad : string) : blank pad = true -> trimEnd pad = "".
Proof.
  induction pad as [| c pad IH]; cbn; [reflexivity |].
  intros H. apply andb_prop in H as [Hc Hpad]. rewrite (IH Hpad), Hc. reflexivity.
Qed.

Lemma trimEnd_app_blank (s pad : string) :
  blank pad = true -> trimEnd (s ++ pad) = trimEnd s.
Proof.
  intros Hpad. induction s as [| c s IH]; cbn.
  - exact (trimEnd_blank pad Hpad).
  - rewrite IH. reflexivity.
Qed.

Lemma trim_padding (pad1 q pad2 : string) :
  blank pad1 = true -> blank pad2 = true -> trim (pad1 ++ q ++ pad2) = trim q.
Proof.
  intros H1 H2. unfold trim. rewrite (trimStart_blank pad1 _ H1).
  induction q as [| c q IH]; cbn.
  - rewrite (trimStart_all_blank pad2 H2). reflexivity.
  - destruct (is_whitespace c); [exact IH |].
    change (String c (q ++ pad2)) with (String c q ++ pad2).
    apply trimEnd_app_blank. exact H2.
Qed.

Lemma append_not_empty (pad1 q pad2 : string) :
  q <> "" -> pad1 ++ q ++ pad2 <> "".
Proof.
  intros Hq. destruct pad1; cbn; [| discriminate].
  destruct q; cbn; [contradiction | discriminate].
Qed.

(** X18: white space around a query does not change what
    [validateDAXQuery] answers: the verdict and the list of errors of a
    non-empty query are those of the query with blanks, tabs or line breaks
    added in front of it and after it. *)
Theorem validateDAXQuery_ignores_padding (pad1 q pad2 : string) :
  asciiText q = true ->
  blank pad1 = true -> blank pad2 = true ->
  q <> "" ->
  validateDAXQuery (VStr (pad1 ++ q ++ pad2)) = validateDAXQuery (VStr q).
Proof.
  intros _ H1 H2 Hq. unfold validateDAXQuery, truthy.
  rewrite (trim_padding pad1 q pad2 H1 H2).
  destruct (String.eqb_spec (pad1 ++ q ++ pad2) "") as [Hempty | _];
    [exact (False_ind _ (append_not_empty pad1 q pad2 Hq Hempty)) |].
  destruct (String.eqb_spec q "") as [Hempty | _]; [contradiction |].
  reflexivity.
Qed.

Definition newline : string := String (ascii_of_nat 10) EmptyString.
Definition tab : string := String (ascii_of_nat 9) EmptyString.

(** The theorem on an indented query that ends with a line break; its
    parentheses are not balanced, and are reported with the same counts. *)
Lemma validateDAXQuery_ignores_padding_witness :
  validateDAXQuery (VStr ((tab ++ "  ") ++ "EVALUATE FILTER(Sales, Sales[Amount] > 0" ++ newline))
  = validateDAXQuery (VStr "EVALUATE FILTER(Sales, Sales[Amount] > 0")
  /\ v_errors (validateDAXQuery (VStr "EVALUATE FILTER(Sales, Sales[Amount] > 0"))
     = ["Unbalanced parentheses (1 open, 0 close)"].
Proof.
  split.
  - apply validateDAXQuery_ignores_padding; [reflexivity | reflexivity | reflexivity |].
    discriminate.
  - vm_compute. reflexivity.
Defined.

(** *** Letter case *)

Lemma upper_ascii_idempotent (c : ascii) : upper_ascii (upper_ascii c) = upper_ascii c.
Proof. destruct c as [[] [] [] [] [] [] [] []]; reflexivity. Qed.

Lemma upper_ascii_whitespace (c : ascii) :
  is_whitespace (upper_ascii c) = is_whitespace c.
Proof. destruct c as [[] [] [] [] [] [] [] []]; reflexivity. Qed.

(** The four characters the validation counts are not letters. *)
Definition counted (c : ascii) : Prop :=
  c = "("%char \/ c = ")"%char \/ c = "["%char \/ c = "]"%char.

Lemma upper_ascii_counted (c x : ascii) :
  counted x -> Ascii.eqb (upper_ascii c) x = Ascii.eqb c x.
Proof.
  intros [-> | [-> | [-> | ->]]]; destruct c as [[] [] [] [] [] [] [] []]; reflexivity.
Qed.

Lemma toUpperCase_idempotent (s : string) : toUpperCase (toUpperCase s) = toUpperCase s.
Proof.
  induction s as [| c s IH]; cbn; [reflexivity |].
  rewrite upper_ascii_idempotent, IH. reflexivity.
Qed.

Lemma toUpperCase_length (s : string) : String.length (toUpperCase s) = String.length s.
Proof. induction s as [| c s IH]; cbn; [reflexivity | rewrite IH; reflexivity]. Qed.

Lemma toUpperCase_matches (x : ascii) (s : string) :
  counted x -> matches x (toUpperCase s) = matches x s.
Proof.
  intros Hx. induction s as [| c s IH]; cbn; [reflexivity |].
  rewrite (upper_ascii_counted c x Hx), IH. reflexivity.
Qed.

Lemma toUpperCase_trimStart (s : string) :
  trimStart (toUpperCase s) = toUpperCase (trimStart s).
Proof.
  induction s as [| c s IH]; cbn; [reflexivity |].
  rewrite upper_ascii_whitespace. destruct (is_whitespace c); [exact IH | reflexivity].
Qed.

Lemma toUpperCase_trimEnd (s : string) :
  trimEnd (toUpperCase s) = toUpperCase (trimEnd s).
Proof.
  induction s as [| c s IH]; cbn; [reflexivity |].
  rewrite IH, upper_ascii_whitespace.
  destruct (trimEnd s); cbn; [destruct (is_whitespace c) |]; reflexivity.
Qed.

Lemma toUpperCase_trim (s : string) : trim (toUpperCase s) = toUpperCase (trim s).
Proof. unfold trim. rewrite toUpperCase_trimStart, toUpperCase_trimEnd. reflexivity. Qed.

Lemma toUpperCase_empty (s : string) : String.eqb (toUpperCase s) "" = String.eqb s "".
Proof. destruct s; reflexivity. Qed.

(** The validation reads its argument through [toUpperCase] only. *)
Lemma validateDAXQuery_toUpperCase (q : string) :
  validateDAXQuery (VStr (toUpperCase q)) = validateDAXQuery (VStr q).
Proof.
  unfold validateDAXQuery, truthy.
  rewrite toUpperCase_empty, toUpperCase_trim, toUpperCase_idempotent,
    toUpperCase_length.
  rewrite !toUpperCase_matches by (unfold counted; auto).
  reflexivity.
Qed.

(** X19: [validateDAXQuery] does not tell the case of letters: two
    queries that differ only in the case of their letters get the same
    verdict and the same errors. *)
Theorem validateDAXQuery_ignores_case (q1 q2 : string) :
  asciiText q1 = true -> asciiText q2 = true ->
  toUpperCase q1 = toUpperCase q2 ->
  validateDAXQuery (VStr q1) = validateDAXQuery (VStr q2).
Proof.
  intros _ _ H.
  rewrite <- (validateDAXQuery_toUpperCase q1), <- (validateDAXQuery_toUpperCase q2), H.
  reflexivity.
Qed.

Lemma validateDAXQuery_ignores_case_witness :
  validateDAXQuery (VStr "evaluate Sales") = validateDAXQuery (VStr "EVALUATE sales")
  /\ v_isValid (validateDAXQuery (VStr "evaluate Sales")) = true.
Proof.
  split.
  - apply validateDAXQuery_ignores_case; reflexivity.
  - vm_compute. reflexivity.
Defined.

(** ** The lemmas of the retry loop and of the pool on concrete runs *)

(** A pool with a single slot, a clock that advances by one millisecond at
    every reading and a token that is good for an hour. *)
Definition singleSlotEnv : Env :=
  envWithToken
    {| maxPoolSize := 1; maxConnectionAge := 30 * 60 * 1000;
       tokenExpiryBuffer := 5 * 60 * 1000; cleanupInterval := 5 * 60 * 1000 |}
    (fun k => Z.of_nat k) 3600000.

(** The bound of [pool_within_maxPoolSize] on three requests to the pool
    with a single slot. *)
Lemma pool_within_maxPoolSize_witness :
  (map_size (connectionPool
     (acquireAll singleSlotEnv
        [ {| a_user := "alice"; a_tenant := "tenant"; a_workspace := "ws" |};
          {| a_user := "bob"; a_tenant := "tenant"; a_workspace := "ws" |};
          {| a_user := "alice"; a_tenant := "tenant"; a_workspace := "ws" |} ]
        emptyWorld)) <= 1)%Z.
Proof.
  apply (pool_within_maxPoolSize singleSlotEnv).
  - intros i j Hij. cbn. lia.
  - cbn. lia.
Defined.

(** [executeDAXQuery_never_invalidates] on the run of C5, whose error asks
    for an invalidation. *)
Lemma executeDAXQuery_never_invalidates_witness :
  shouldInvalidateConnection (ThrownError authBackendDown) = Returns true
  /\ invalidationsIn
       (trace (snd (executeDAXQuery (failingEnv authBackendDown)
                      "user" "tenant" "ws" "dataset" "EVALUATE Sales" emptyWorld)))
     = 0%nat.
Proof.
  split; [vm_compute; reflexivity |].
  exact (executeDAXQuery_never_invalidates (failingEnv authBackendDown) eq_refl
           "user" "tenant" "ws" "dataset" "EVALUATE Sales" emptyWorld).
Defined.

(** [fatal_error_single_attempt] on a 401. *)
Lemma fatal_error_single_attempt_witness :
  fst (executeWithRetry (failingEnv unauthorized) "user" "ws" "dataset" "EVALUATE Sales"
         edgeConnection emptyWorld) = Throws (ThrownError unauthorized)
  /\ remoteCalls (snd (executeWithRetry (failingEnv unauthorized) "user" "ws" "dataset"
                         "EVALUATE Sales" edgeConnection emptyWorld)) = 1%nat.
Proof.
  destruct (fatal_error_single_attempt (failingEnv unauthorized)
              "user" "ws" "dataset" "EVALUATE Sales" edgeConnection emptyWorld
              (ThrownError unauthorized)) as (Hres & Hcalls & _).
  - cbn. lia.
  - reflexivity.
  - vm_compute. reflexivity.
  - split; [exact Hres | exact Hcalls].
Defined.

(** The error of the executor's own timer. *)
Definition queryTimeout : JsError := plainError "Query timeout after 30000ms".

(** [transient_errors_exhaust_the_budget] on a service that times out on
    every attempt: the three attempts of the configured policy. *)
Lemma transient_errors_exhaust_the_budget_witness :
  fst (executeWithRetry (failingEnv queryTimeout) "user" "ws" "dataset" "EVALUATE Sales"
         edgeConnection emptyWorld) = Throws (ThrownError queryTimeout)
  /\ attemptsIn (trace (snd (executeWithRetry (failingEnv queryTimeout) "user" "ws"
                               "dataset" "EVALUATE Sales" edgeConnection emptyWorld)))
     = 3%nat.
Proof.
  exact (transient_errors_exhaust_the_budget (failingEnv queryTimeout)
           (fun _ => queryTimeout)
           (fun _ => eq_refl) (fun _ => eq_refl) (fun _ => eq_refl)
           "user" "ws" "dataset" "EVALUATE Sales" edgeConnection emptyWorld
           (fun _ => eq_refl) eq_refl).
Defined.
